(** * Telegraf input plugins [iptables] and [nginx_plus]

    A shallow embedding of the two Gather functions and of the helpers
    they are built from, followed by the properties of the plugins.

    Go strings are byte sequences: they are embedded as [string] (a list
    of 8-bit [ascii] characters).  Go's [int], [int64] and [uint64] values
    are embedded as [Z]; the only arithmetic the plugins perform on them
    is the accumulation of [strconv.ParseUint], whose 64-bit wrap-around
    is written out.  Go maps are [gmap]s. *)

From Stdlib Require Import ZArith Lia Ascii String DecimalString.
From stdpp Require Import base option list gmap strings.

Open Scope Z_scope.

(** ** Part of the Go standard library the plugins call *)

Module Go.

(** Errors are values; every [errors.New] and [fmt.Errorf] site of the two
    plugins is one constructor, an error of a collaborator is [ErrExternal]. *)
Inductive error : Type :=
| ErrExternal (msg : string)
| ErrMsg (msg : string)
| ErrUnableToParseAddress (u : string) (cause : error)
| ErrMakingRequest (addr : string) (cause : error)
| ErrHTTPStatus (addr status : string)
| ErrContentType (addr contentType : string).

#[global] Instance error_eq_dec : EqDecision error.
Proof. solve_decision. Defined.

Definition LF : ascii := ascii_of_nat 10.

(** [strings.Split(s, sep)] for a separator of one byte: the result is
    never empty: splitting the empty string gives one empty string. *)
Fixpoint Split (sep : ascii) (s : string) : list string :=
  match s with
  | EmptyString => [EmptyString]
  | String c s' =>
      if Ascii.eqb c sep then EmptyString :: Split sep s'
      else match Split sep s' with
           | h :: t => String c h :: t
           | [] => [String c EmptyString]
           end
  end.

(** *** Character classes of RE2 (ASCII, no flags) *)

Inductive cclass : Type :=
| ClsSpace        (* \s  = [\t\n\f\r ] *)
| ClsNotSpace     (* \S *)
| ClsDigit        (* \d  = [0-9] *)
| ClsWord         (* \w  = [0-9A-Za-z_] *)
| ClsAny          (* .   = anything but \n *)
| ClsLit (c : ascii).

Definition is_space (c : ascii) : bool :=
  let n := nat_of_ascii c in
  (n =? 9)%nat || (n =? 10)%nat || (n =? 12)%nat || (n =? 13)%nat || (n =? 32)%nat.

Definition is_digit (c : ascii) : bool :=
  let n := nat_of_ascii c in (48 <=? n)%nat && (n <=? 57)%nat.

Definition is_word (c : ascii) : bool :=
  let n := nat_of_ascii c in
  is_digit c
  || ((65 <=? n)%nat && (n <=? 90)%nat)
  || ((97 <=? n)%nat && (n <=? 122)%nat)
  || (n =? 95)%nat.

Definition cls_mem (cl : cclass) (c : ascii) : bool :=
  match cl with
  | ClsSpace => is_space c
  | ClsNotSpace => negb (is_space c)
  | ClsDigit => is_digit c
  | ClsWord => is_word c
  | ClsAny => negb (Ascii.eqb c LF)
  | ClsLit d => Ascii.eqb c d
  end.

(** *** Regular expressions

    The fragment the plugins use: concatenation, capturing groups, and
    greedy or lazy repetition of a single character class.  Every pattern
    of the plugins starts with [^], so matching is anchored at the start
    of the text. *)

Inductive regex : Type :=
| Eps
| Chr (cl : cclass)
| Star (greedy : bool) (cl : cclass)
| Cat (r1 r2 : regex)
| Grp (i : nat) (r : regex).

Definition Plus (greedy : bool) (cl : cclass) : regex :=
  Cat (Chr cl) (Star greedy cl).

Fixpoint Lit (s : string) : regex :=
  match s with
  | EmptyString => Eps
  | String c s' => Cat (Chr (ClsLit c)) (Lit s')
  end.

Fixpoint num_groups (r : regex) : nat :=
  match r with
  | Eps | Chr _ | Star _ _ => 0%nat
  | Cat r1 r2 => (num_groups r1 `max` num_groups r2)%nat
  | Grp i r => (i `max` num_groups r)%nat
  end.

(** The text consumed between the suffix [s] and its suffix [s']. *)
Definition consumed (s s' : string) : string :=
  substring 0 (String.length s - String.length s') s.

(** Leftmost-first (backtracking) matching, in continuation-passing
    style: [k] is what remains to be matched, and a failure of [k] makes
    the repetition try its next choice, the longer one last for a lazy
    repetition and first for a greedy one. *)
Fixpoint star_match {R : Type} (greedy : bool) (cl : cclass) (s : string)
    (k : string → option R) : option R :=
  match s with
  | EmptyString => k s
  | String c s' =>
      if cls_mem cl c then
        if greedy then
          match star_match greedy cl s' k with
          | Some r => Some r
          | None => k s
          end
        else
          match k s with
          | Some r => Some r
          | None => star_match greedy cl s' k
          end
      else k s
  end.

Fixpoint re_match (r : regex) (s : string) (caps : list string)
    (k : string → list string → option (list string)) : option (list string) :=
  match r with
  | Eps => k s caps
  | Chr cl =>
      match s with
      | String c s' => if cls_mem cl c then k s' caps else None
      | EmptyString => None
      end
  | Star greedy cl => star_match greedy cl s (λ s', k s' caps)
  | Cat r1 r2 => re_match r1 s caps (λ s' caps', re_match r2 s' caps' k)
  | Grp i r1 => re_match r1 s caps (λ s' caps', k s' (<[i := consumed s s']> caps'))
  end.

(** [Regexp.FindStringSubmatch]: [None] is the nil slice, otherwise the
    text of the whole match followed by the text of each group. *)
Definition FindStringSubmatch (r : regex) (s : string) : option (list string) :=
  re_match r s (replicate (S (num_groups r)) EmptyString)
    (λ s' caps, Some (<[0%nat := consumed s s']> caps)).

(** [Regexp.MatchString]. *)
Definition MatchString (r : regex) (s : string) : bool :=
  bool_decide (is_Some (FindStringSubmatch r s)).

(** *** [strconv.ParseUint(s, 10, 64)] *)

Definition maxUint64 : Z := 2 ^ 64 - 1.
Definition cutoff64 : Z := maxUint64 / 10 + 1.

Definition digit_val (c : ascii) : Z := Z.of_nat (nat_of_ascii c) - 48.

(** The accumulation loop: a byte that is not a decimal digit is a
    syntax error, [n >= cutoff] and the wrap-around of [n*10 + d] are
    range errors. *)
Fixpoint parse_digits (s : string) (n : Z) : option Z :=
  match s with
  | EmptyString => Some n
  | String c s' =>
      if is_digit c then
        if (cutoff64 <=? n)%Z then None
        else
          let n10 := n * 10 in
          let n1 := (n10 + digit_val c) mod 2 ^ 64 in
          if (n1 <? n10)%Z || (maxUint64 <? n1)%Z then None
          else parse_digits s' n1
      else None
  end.

Definition ParseUint (s : string) : option Z :=
  match s with
  | EmptyString => None
  | _ => parse_digits s 0
  end.

(** [strconv.Itoa]. *)
Definition Itoa (n : Z) : string := NilZero.string_of_int (Z.to_int n).

(** *** [net.SplitHostPort]

    The port starts after the last colon; a host in brackets must end
    just before that colon; a bare host holds no other colon.  On an
    error both strings are empty. *)

Fixpoint IndexByte (s : string) (c : ascii) : option nat :=
  match s with
  | EmptyString => None
  | String d s' => if Ascii.eqb d c then Some 0%nat else S <$> IndexByte s' c
  end.

Fixpoint LastIndexByte (s : string) (c : ascii) : option nat :=
  match s with
  | EmptyString => None
  | String d s' =>
      match LastIndexByte s' c with
      | Some i => Some (S i)
      | None => if Ascii.eqb d c then Some 0%nat else None
      end
  end.

(** The slice [s[lo:hi]] and the slice [s[lo:]]. *)
Definition slice (s : string) (lo hi : nat) : string := substring lo (hi - lo) s.
Definition slice_from (s : string) (lo : nat) : string :=
  substring lo (String.length s - lo) s.

Definition addrErr (why : string) : string * string * option error :=
  (EmptyString, EmptyString, Some (ErrExternal why)).

Definition SplitHostPort (hostport : string) : string * string * option error :=
  match LastIndexByte hostport ":" with
  | None => addrErr "missing port in address"
  | Some i =>
      let finish (host : string) (j k : nat) :=
        if bool_decide (is_Some (IndexByte (slice_from hostport j) "[")) then
          addrErr "unexpected '[' in address"
        else if bool_decide (is_Some (IndexByte (slice_from hostport k) "]")) then
          addrErr "unexpected ']' in address"
        else (host, slice_from hostport (S i), None) in
      if bool_decide (String.get 0 hostport = Some "["%char) then
        match IndexByte hostport "]" with
        | None => addrErr "missing ']' in address"
        | Some e =>
            if (S e =? String.length hostport)%nat then addrErr "missing port in address"
            else if (S e =? i)%nat then finish (slice hostport 1 e) 1%nat (S e)
            else if bool_decide (String.get (S e) hostport = Some ":"%char) then
              addrErr "too many colons in address"
            else addrErr "missing port in address"
        end
      else
        let host := slice hostport 0 i in
        if bool_decide (is_Some (IndexByte host ":")) then
          addrErr "too many colons in address"
        else finish host 0%nat 0%nat
  end.

End Go.

Import Go.

(** ** The accumulator *)

Module telegraf.

(** A field value is a Go value boxed in an interface: the dynamic type
    is part of it. *)
Inductive value : Type :=
| VInt (n : Z)
| VInt64 (n : Z)
| VUint64 (n : Z)
| VBool (b : bool)
| VString (s : string).

#[global] Instance value_eq_dec : EqDecision value.
Proof. solve_decision. Defined.

Record Metric : Type := mkMetric {
  m_name : string;
  m_fields : gmap string value;
  m_tags : gmap string string;
}.

#[global] Instance Metric_eq_dec : EqDecision Metric.
Proof. solve_decision. Defined.

(** Modelled from the spec: the metrics accumulator is an external
    collaborator consumed through a narrow accumulate-metric interface.
    The plugins only ever write to it, so a run is recorded as the
    sequence of the interface calls it makes, in order; [AddError] is
    recorded with the error value it is passed, nil included.  The
    invocations of the command that lists a chain are recorded in the
    same sequence. *)
Inductive call : Type :=
| CallAddFields (m : Metric)
| CallAddError (e : option error)
| CallLister (table chain : string).

#[global] Instance call_eq_dec : EqDecision call.
Proof. solve_decision. Defined.

(** A computation that writes to the accumulator and may stop in a
    run-time panic: its calls so far, and its result unless it panicked. *)
Definition Run (A : Type) : Type := list call * option A.

Definition ret {A} (a : A) : Run A := ([], Some a).

Definition bind {A B} (m : Run A) (f : A → Run B) : Run B :=
  match m.2 with
  | None => (m.1, None)
  | Some a => let r := f a in (m.1 ++ r.1, r.2)
  end.

Definition panic {A} : Run A := ([], None).

Definition AddFields (name : string) (fs : gmap string value)
    (ts : gmap string string) : Run unit :=
  ([CallAddFields (mkMetric name fs ts)], Some ()).

Definition AddError (e : option error) : Run unit :=
  ([CallAddError e], Some ()).

(** A [for ... range] loop whose body returns nothing. *)
Fixpoint forM_ {A} (l : list A) (body : A → Run unit) : Run unit :=
  match l with
  | [] => ret ()
  | x :: l' => bind (body x) (λ _, forM_ l' body)
  end.

(** A Go map literal. *)
Definition mapLit {V} (l : list (string * V)) : gmap string V := list_to_map l.

(** [if p != nil { m[k] = *p }]. *)
Definition setIf {V} (k : string) (p : option V) (m : gmap string V) : gmap string V :=
  match p with
  | Some v => <[k := v]> m
  | None => m
  end.

(** [make] a map and copy every entry of [m] into it. *)
Definition copyMap {V} (m : gmap string V) : gmap string V :=
  list_to_map (map_to_list m).

(** What the accumulator holds after a run: the metrics, and the
    errors that are not nil. *)
Definition metrics_of (t : list call) : list Metric :=
  omap (λ c, match c with CallAddFields m => Some m | _ => None end) t.

Definition errors_of (t : list call) : list error :=
  omap (λ c, match c with CallAddError (Some e) => Some e | _ => None end) t.

Definition listed_of (t : list call) : list (string * string) :=
  omap (λ c, match c with CallLister tb ch => Some (tb, ch) | _ => None end) t.

End telegraf.

Import telegraf.

Notation "'let*' x := m 'in' k" := (bind m (λ x, k))
  (at level 10, x name, m at level 100, k at level 200, only parsing).

(** ** The iptables plugin *)

Module iptables.

Definition errParse : error := ErrMsg "cannot parse iptables list information".

(** [^Chain\s+(\S+)] *)
Definition chainNameRe : regex :=
  Cat (Lit "Chain") (Cat (Plus true ClsSpace) (Grp 1 (Plus true ClsNotSpace))).

(** [^\s*pkts\s+bytes\s+target] *)
Definition fieldsHeaderRe : regex :=
  Cat (Star true ClsSpace) (Cat (Lit "pkts") (Cat (Plus true ClsSpace)
    (Cat (Lit "bytes") (Cat (Plus true ClsSpace) (Lit "target"))))).

(** [^\s*(\d+)\s+(\d+)\s+(\w+).*?/\*\s*(.+?)\s*\*/\s*] *)
Definition valuesRe : regex :=
  Cat (Star true ClsSpace) (Cat (Grp 1 (Plus true ClsDigit)) (Cat (Plus true ClsSpace)
    (Cat (Grp 2 (Plus true ClsDigit)) (Cat (Plus true ClsSpace)
    (Cat (Grp 3 (Plus true ClsWord)) (Cat (Star false ClsAny) (Cat (Lit "/*")
    (Cat (Star true ClsSpace) (Cat (Grp 4 (Plus false ClsAny))
    (Cat (Star true ClsSpace) (Cat (Lit "*/") (Star true ClsSpace)))))))))))).

Definition measurement : string := "iptables".

Record Iptables : Type := {
  UseSudo : bool;
  UseLock : bool;
  Binary : string;
  Table : string;
  Chains : list string;
  lister : string → string → string * option error;
}.

(** The body of the loop over [lines[2:]]; [ret ()] is [continue]. *)
Definition parseAndGather_line (ipt : Iptables) (mchain : list string)
    (line : string) : Run unit :=
  let matches := default [] (FindStringSubmatch valuesRe line) in
  if negb (length matches =? 5)%nat then ret ()
  else
    let pkts := nth 1 matches EmptyString in
    let bytes := nth 2 matches EmptyString in
    let target := nth 3 matches EmptyString in
    let comment := nth 4 matches EmptyString in
    let tags : gmap string string :=
      mapLit [("table", Table ipt); ("chain", nth 1 mchain EmptyString);
              ("target", target); ("ruleid", comment)] in
    let fields : gmap string value := ∅ in
    match ParseUint pkts with
    | None => ret ()
    | Some p =>
        let fields := <["pkts" := VUint64 p]> fields in
        match ParseUint bytes with
        | None => ret ()
        | Some b =>
            let fields := <["bytes" := VUint64 b]> fields in
            AddFields measurement fields tags
        end
    end.

Definition parseAndGather (ipt : Iptables) (data : string) : Run (option error) :=
  let lines := Split LF data in
  if (length lines <? 3)%nat then ret None
  else
    match FindStringSubmatch chainNameRe (nth 0 lines EmptyString) with
    | None => ret (Some errParse)
    | Some mchain =>
        if negb (MatchString fieldsHeaderRe (nth 1 lines EmptyString)) then
          ret (Some errParse)
        else
          let* _ := forM_ (drop 2 lines) (parseAndGather_line ipt mchain) in
          ret None
    end.

(** [ipt.lister(table, chain)]. *)
Definition call_lister (ipt : Iptables) (table chain : string)
    : Run (string * option error) :=
  ([CallLister table chain], Some (lister ipt table chain)).

Definition Gather (ipt : Iptables) : Run (option error) :=
  if bool_decide (Table ipt = EmptyString) || (length (Chains ipt) =? 0)%nat then ret None
  else
    let* _ := forM_ (Chains ipt) (λ chain,
      let* r := call_lister ipt (Table ipt) chain in
      match r.2 with
      | Some e => AddError (Some e)
      | None =>
          let* e := parseAndGather ipt r.1 in
          match e with
          | Some e => AddError (Some e)
          | None => ret ()
          end
      end) in
    ret None.

(** *** Listing a chain

    [chainList] reaches the system through [exec.LookPath] and through
    the command it runs; both are parameters.  What it returns is paired
    with the commands it has run, each a name and its arguments. *)
Section exec.

Variable LookPath : string → string * option error.
Variable Output : string → list string → string * option error.

Definition chainList (ipt : Iptables) (table chain : string)
    : list (string * list string) * (string * option error) :=
  let binary :=
    if bool_decide (Binary ipt ≠ EmptyString) then Binary ipt else "iptables" in
  let '(iptablePath, err) := LookPath binary in
  match err with
  | Some e => ([], (EmptyString, Some e))
  | None =>
      let args : list string := [] in
      let name := iptablePath in
      let '(name, args) :=
        if UseSudo ipt then ("sudo", args ++ [iptablePath]) else (name, args) in
      let args := if UseLock ipt then args ++ ["-w"; "5"] else args in
      let args := args ++ ["-nvL"; chain; "-t"; table; "-x"] in
      ([(name, args)], Output name args)
  end.

(** The plugin as [init] registers it: its lister is its own
    [chainList]. *)
Definition registered (ipt : Iptables) : Iptables :=
  {| UseSudo := UseSudo ipt; UseLock := UseLock ipt; Binary := Binary ipt;
     Table := Table ipt; Chains := Chains ipt;
     lister := λ table chain, (chainList ipt table chain).2 |}.

End exec.

End iptables.

(** ** The nginx_plus plugin *)

Module nginx_plus.

(** *** The decoded status document

    A pointer field is an [option]: [None] is the nil pointer that
    [encoding/json] leaves for a key that is absent or null. *)

Record responseStats : Type := {
  rs_Responses1xx : Z;
  rs_Responses2xx : Z;
  rs_Responses3xx : Z;
  rs_Responses4xx : Z;
  rs_Responses5xx : Z;
  rs_Total : Z;
}.

Record basicHitStats : Type := {
  bh_Responses : Z;
  bh_Bytes : Z;
}.

Record extendedHitStats : Type := {
  eh_basicHitStats : basicHitStats;
  eh_ResponsesWritten : Z;
  eh_BytesWritten : Z;
}.

Record healthCheckStats : Type := {
  hc_Checks : Z;
  hc_Fails : Z;
  hc_Unhealthy : Z;
  hc_LastPassed : option bool;
}.

Record processes : Type := {
  pr_Respawned : option Z;
}.

Record connections : Type := {
  cn_Accepted : Z;
  cn_Dropped : Z;
  cn_Active : Z;
  cn_Idle : Z;
}.

Record ssl : Type := {
  ssl_Handshakes : Z;
  ssl_HandshakesFailed : Z;
  ssl_SessionReuses : Z;
}.

Record requests : Type := {
  rq_Total : Z;
  rq_Current : Z;
}.

Record serverZone : Type := {
  sz_Processing : Z;
  sz_Requests : Z;
  sz_Responses : responseStats;
  sz_Discarded : option Z;
  sz_Received : Z;
  sz_Sent : Z;
}.

Record upstreamPeer : Type := {
  up_ID : option Z;
  up_Server : string;
  up_Backup : bool;
  up_Weight : Z;
  up_State : string;
  up_Active : Z;
  up_Keepalive : option Z;
  up_MaxConns : option Z;
  up_Requests : Z;
  up_Responses : responseStats;
  up_Sent : Z;
  up_Received : Z;
  up_Fails : Z;
  up_Unavail : Z;
  up_HealthChecks : healthCheckStats;
  up_Downtime : Z;
  up_Downstart : Z;
  up_Selected : option Z;
  up_HeaderTime : option Z;
  up_ResponseTime : option Z;
}.

Record queue : Type := {
  q_Size : Z;
  q_MaxSize : Z;
  q_Overflows : Z;
}.

Record upstream : Type := {
  u_Peers : list upstreamPeer;
  u_Keepalive : Z;
  u_Zombies : Z;
  u_Queue : option queue;
}.

Record cache : Type := {
  c_Size : Z;
  c_MaxSize : Z;
  c_Cold : bool;
  c_Hit : basicHitStats;
  c_Stale : basicHitStats;
  c_Updating : basicHitStats;
  c_Revalidated : option basicHitStats;
  c_Miss : extendedHitStats;
  c_Expired : extendedHitStats;
  c_Bypass : extendedHitStats;
}.

Record streamZone : Type := {
  stz_Processing : Z;
  stz_Connections : Z;
  stz_Sessions : option responseStats;
  stz_Discarded : option Z;
  stz_Received : Z;
  stz_Sent : Z;
}.

Record streamPeer : Type := {
  sp_ID : Z;
  sp_Server : string;
  sp_Backup : bool;
  sp_Weight : Z;
  sp_State : string;
  sp_Active : Z;
  sp_Connections : Z;
  sp_ConnectTime : option Z;
  sp_FirstByteTime : option Z;
  sp_ResponseTime : option Z;
  sp_Sent : Z;
  sp_Received : Z;
  sp_Fails : Z;
  sp_Unavail : Z;
  sp_HealthChecks : healthCheckStats;
  sp_Downtime : Z;
  sp_Downstart : Z;
  sp_Selected : Z;
}.

Record streamUpstream : Type := {
  su_Peers : list streamPeer;
  su_Zombies : Z;
}.

Record stream : Type := {
  st_ServerZones : gmap string streamZone;
  st_Upstreams : gmap string streamUpstream;
}.

Record status : Type := {
  Version : Z;
  NginxVersion : string;
  Address : string;
  Generation : option Z;
  LoadTimestamp : option Z;
  Timestamp : Z;
  Pid : option Z;
  Processes : option processes;
  Connections : connections;
  Ssl : option ssl;
  Requests : requests;
  ServerZones : gmap string serverZone;
  Upstreams : gmap string upstream;
  Caches : gmap string cache;
  Stream : stream;
}.

(** A load through a pointer: a nil pointer is a run-time panic. *)
Definition deref {A} (p : option A) : Run A :=
  match p with
  | Some a => ret a
  | None => panic
  end.

(** [for k, v := range m]: the entries of the map, in the order the
    loop visits them. *)
Definition range {V} (m : gmap string V) : list (string * V) := map_to_list m.

(** *** The eight sections *)

Definition gatherProcessesMetrics (s : status) (tags : gmap string string) : Run unit :=
  let respawned := 0 in
  let* p := deref (Processes s) in
  let respawned :=
    match pr_Respawned p with
    | Some r => r
    | None => respawned
    end in
  AddFields "nginx_plus_processes"
    (mapLit [("respawned", VInt respawned)])
    tags.

Definition gatherConnectionsMetrics (s : status) (tags : gmap string string) : Run unit :=
  AddFields "nginx_plus_connections"
    (mapLit [("accepted", VInt64 (cn_Accepted (Connections s)));
             ("dropped", VInt64 (cn_Dropped (Connections s)));
             ("active", VInt64 (cn_Active (Connections s)));
             ("idle", VInt64 (cn_Idle (Connections s)))])
    tags.

Definition gatherSslMetrics (s : status) (tags : gmap string string) : Run unit :=
  let* p := deref (Ssl s) in
  AddFields "nginx_plus_ssl"
    (mapLit [("handshakes", VInt64 (ssl_Handshakes p));
             ("handshakes_failed", VInt64 (ssl_HandshakesFailed p));
             ("session_reuses", VInt64 (ssl_SessionReuses p))])
    tags.

Definition gatherRequestMetrics (s : status) (tags : gmap string string) : Run unit :=
  AddFields "nginx_plus_requests"
    (mapLit [("total", VInt64 (rq_Total (Requests s)));
             ("current", VInt (rq_Current (Requests s)))])
    tags.

Definition zoneFields (zone : serverZone) : gmap string value :=
  let result :=
    mapLit [("processing", VInt (sz_Processing zone));
            ("requests", VInt64 (sz_Requests zone));
            ("responses_1xx", VInt64 (rs_Responses1xx (sz_Responses zone)));
            ("responses_2xx", VInt64 (rs_Responses2xx (sz_Responses zone)));
            ("responses_3xx", VInt64 (rs_Responses3xx (sz_Responses zone)));
            ("responses_4xx", VInt64 (rs_Responses4xx (sz_Responses zone)));
            ("responses_5xx", VInt64 (rs_Responses5xx (sz_Responses zone)));
            ("responses_total", VInt64 (rs_Total (sz_Responses zone)));
            ("received", VInt64 (sz_Received zone));
            ("sent", VInt64 (sz_Sent zone))] in
  setIf "discarded" (VInt64 <$> sz_Discarded zone) result.

Definition gatherZoneMetrics (s : status) (tags : gmap string string) : Run unit :=
  forM_ (range (ServerZones s)) (λ '(zoneName, zone),
    let zoneTags := copyMap tags in
    let zoneTags := <["zone" := zoneName]> zoneTags in
    AddFields "nginx_plus_zone" (zoneFields zone) zoneTags).

Definition upstreamFields (upstream : upstream) : gmap string value :=
  let upstreamFields :=
    mapLit [("keepalive", VInt (u_Keepalive upstream));
            ("zombies", VInt (u_Zombies upstream))] in
  match u_Queue upstream with
  | Some q =>
      <["queue_overflows" := VInt64 (q_Overflows q)]>
        (<["queue_max_size" := VInt (q_MaxSize q)]>
          (<["queue_size" := VInt (q_Size q)]> upstreamFields))
  | None => upstreamFields
  end.

Definition peerFields (peer : upstreamPeer) : gmap string value :=
  let selected := 0 in
  let selected :=
    match up_Selected peer with
    | Some v => v
    | None => selected
    end in
  let peerFields :=
    mapLit [("backup", VBool (up_Backup peer));
            ("weight", VInt (up_Weight peer));
            ("state", VString (up_State peer));
            ("active", VInt (up_Active peer));
            ("requests", VInt64 (up_Requests peer));
            ("responses_1xx", VInt64 (rs_Responses1xx (up_Responses peer)));
            ("responses_2xx", VInt64 (rs_Responses2xx (up_Responses peer)));
            ("responses_3xx", VInt64 (rs_Responses3xx (up_Responses peer)));
            ("responses_4xx", VInt64 (rs_Responses4xx (up_Responses peer)));
            ("responses_5xx", VInt64 (rs_Responses5xx (up_Responses peer)));
            ("responses_total", VInt64 (rs_Total (up_Responses peer)));
            ("sent", VInt64 (up_Sent peer));
            ("received", VInt64 (up_Received peer));
            ("fails", VInt64 (up_Fails peer));
            ("unavail", VInt64 (up_Unavail peer));
            ("healthchecks_checks", VInt64 (hc_Checks (up_HealthChecks peer)));
            ("healthchecks_fails", VInt64 (hc_Fails (up_HealthChecks peer)));
            ("healthchecks_unhealthy", VInt64 (hc_Unhealthy (up_HealthChecks peer)));
            ("downtime", VInt64 (up_Downtime peer));
            ("downstart", VInt64 (up_Downstart peer));
            ("selected", VInt64 selected)] in
  let peerFields :=
    setIf "healthchecks_last_passed" (VBool <$> hc_LastPassed (up_HealthChecks peer))
      peerFields in
  let peerFields := setIf "header_time" (VInt64 <$> up_HeaderTime peer) peerFields in
  let peerFields := setIf "response_time" (VInt64 <$> up_ResponseTime peer) peerFields in
  let peerFields := setIf "max_conns" (VInt <$> up_MaxConns peer) peerFields in
  peerFields.

Definition peerTags (upstreamTags : gmap string string) (peer : upstreamPeer)
    : gmap string string :=
  let peerTags := copyMap upstreamTags in
  let peerTags := <["upstream_address" := up_Server peer]> peerTags in
  setIf "id" (Itoa <$> up_ID peer) peerTags.

Definition gatherUpstreamMetrics (s : status) (tags : gmap string string) : Run unit :=
  forM_ (range (Upstreams s)) (λ '(upstreamName, upstream),
    let upstreamTags := copyMap tags in
    let upstreamTags := <["upstream" := upstreamName]> upstreamTags in
    let* _ := AddFields "nginx_plus_upstream" (upstreamFields upstream) upstreamTags in
    forM_ (u_Peers upstream) (λ peer,
      AddFields "nginx_plus_upstream_peer" (peerFields peer) (peerTags upstreamTags peer))).

(** The map literal of a cache: [cache.Revalidated.Responses] and
    [cache.Revalidated.Bytes] load through the pointer while the literal is
    built, before [AddFields] is called. *)
Definition cacheFields (cache : cache) : Run (gmap string value) :=
  let* revalidated := deref (c_Revalidated cache) in
  ret (mapLit
    [("size", VInt64 (c_Size cache));
     ("max_size", VInt64 (c_MaxSize cache));
     ("cold", VBool (c_Cold cache));
     ("hit_responses", VInt64 (bh_Responses (c_Hit cache)));
     ("hit_bytes", VInt64 (bh_Bytes (c_Hit cache)));
     ("stale_responses", VInt64 (bh_Responses (c_Stale cache)));
     ("stale_bytes", VInt64 (bh_Bytes (c_Stale cache)));
     ("updating_responses", VInt64 (bh_Responses (c_Updating cache)));
     ("updating_bytes", VInt64 (bh_Bytes (c_Updating cache)));
     ("revalidated_responses", VInt64 (bh_Responses revalidated));
     ("revalidated_bytes", VInt64 (bh_Bytes revalidated));
     ("miss_responses", VInt64 (bh_Responses (eh_basicHitStats (c_Miss cache))));
     ("miss_bytes", VInt64 (bh_Bytes (eh_basicHitStats (c_Miss cache))));
     ("miss_responses_written", VInt64 (eh_ResponsesWritten (c_Miss cache)));
     ("miss_bytes_written", VInt64 (eh_BytesWritten (c_Miss cache)));
     ("expired_responses", VInt64 (bh_Responses (eh_basicHitStats (c_Expired cache))));
     ("expired_bytes", VInt64 (bh_Bytes (eh_basicHitStats (c_Expired cache))));
     ("expired_responses_written", VInt64 (eh_ResponsesWritten (c_Expired cache)));
     ("expired_bytes_written", VInt64 (eh_BytesWritten (c_Expired cache)));
     ("bypass_responses", VInt64 (bh_Responses (eh_basicHitStats (c_Bypass cache))));
     ("bypass_bytes", VInt64 (bh_Bytes (eh_basicHitStats (c_Bypass cache))));
     ("bypass_responses_written", VInt64 (eh_ResponsesWritten (c_Bypass cache)));
     ("bypass_bytes_written", VInt64 (eh_BytesWritten (c_Bypass cache)))]).

Definition gatherCacheMetrics (s : status) (tags : gmap string string) : Run unit :=
  forM_ (range (Caches s)) (λ '(cacheName, cache),
    let cacheTags := copyMap tags in
    let cacheTags := <["cache" := cacheName]> cacheTags in
    let* fs := cacheFields cache in
    AddFields "nginx_plus_cache" fs cacheTags).

Definition streamZoneFields (zone : streamZone) : gmap string value :=
  mapLit [("processing", VInt (stz_Processing zone));
          ("connections", VInt (stz_Connections zone));
          ("received", VInt64 (stz_Received zone));
          ("sent", VInt64 (stz_Sent zone))].

Definition streamPeerFields (peer : streamPeer) : gmap string value :=
  let peerFields :=
    mapLit [("backup", VBool (sp_Backup peer));
            ("weight", VInt (sp_Weight peer));
            ("state", VString (sp_State peer));
            ("active", VInt (sp_Active peer));
            ("connections", VInt64 (sp_Connections peer));
            ("sent", VInt64 (sp_Sent peer));
            ("received", VInt64 (sp_Received peer));
            ("fails", VInt64 (sp_Fails peer));
            ("unavail", VInt64 (sp_Unavail peer));
            ("healthchecks_checks", VInt64 (hc_Checks (sp_HealthChecks peer)));
            ("healthchecks_fails", VInt64 (hc_Fails (sp_HealthChecks peer)));
            ("healthchecks_unhealthy", VInt64 (hc_Unhealthy (sp_HealthChecks peer)));
            ("downtime", VInt64 (sp_Downtime peer));
            ("downstart", VInt64 (sp_Downstart peer));
            ("selected", VInt64 (sp_Selected peer))] in
  let peerFields :=
    setIf "healthchecks_last_passed" (VBool <$> hc_LastPassed (sp_HealthChecks peer))
      peerFields in
  let peerFields := setIf "connect_time" (VInt <$> sp_ConnectTime peer) peerFields in
  let peerFields := setIf "first_byte_time" (VInt <$> sp_FirstByteTime peer) peerFields in
  let peerFields := setIf "response_time" (VInt <$> sp_ResponseTime peer) peerFields in
  peerFields.

Definition streamPeerTags (upstreamTags : gmap string string) (peer : streamPeer)
    : gmap string string :=
  let peerTags := copyMap upstreamTags in
  let peerTags := <["upstream_address" := sp_Server peer]> peerTags in
  <["id" := Itoa (sp_ID peer)]> peerTags.

Definition gatherStreamMetrics (s : status) (tags : gmap string string) : Run unit :=
  let* _ := forM_ (range (st_ServerZones (Stream s))) (λ '(zoneName, zone),
    let zoneTags := copyMap tags in
    let zoneTags := <["zone" := zoneName]> zoneTags in
    AddFields "nginx.stream.zone" (streamZoneFields zone) zoneTags) in
  forM_ (range (st_Upstreams (Stream s))) (λ '(upstreamName, upstream),
    let upstreamTags := copyMap tags in
    let upstreamTags := <["upstream" := upstreamName]> upstreamTags in
    let* _ := AddFields "nginx_plus_stream_upstream"
                (mapLit [("zombies", VInt (su_Zombies upstream))]) upstreamTags in
    forM_ (su_Peers upstream) (λ peer,
      AddFields "nginx_plus_stream_upstream_peer" (streamPeerFields peer)
        (streamPeerTags upstreamTags peer))).

Definition gather (s : status) (tags : gmap string string) : Run unit :=
  let* _ := gatherProcessesMetrics s tags in
  let* _ := gatherConnectionsMetrics s tags in
  let* _ := gatherSslMetrics s tags in
  let* _ := gatherRequestMetrics s tags in
  let* _ := gatherZoneMetrics s tags in
  let* _ := gatherUpstreamMetrics s tags in
  let* _ := gatherCacheMetrics s tags in
  gatherStreamMetrics s tags.

(** *** Addresses and tags *)

(** The two fields of [url.URL] the plugin reads. *)
Record URL : Type := {
  Scheme : string;
  Host : string;
}.

Definition getTags (addr : URL) : gmap string string :=
  let h := Host addr in
  let '(host, port, err) := SplitHostPort h in
  let '(host, port) :=
    match err with
    | Some _ =>
        let host := Host addr in
        if String.eqb (Scheme addr) "http" then (host, "80")
        else if String.eqb (Scheme addr) "https" then (host, "443")
        else (host, EmptyString)
    | None => (host, port)
    end in
  mapLit [("server", host); ("port", port)].

(** *** Fetching one address *)

Record Response : Type := {
  StatusCode : Z;
  Status : string;
  ContentType : string;      (* resp.Header.Get("Content-Type") *)
  Body : string;
}.

Definition StatusOK : Z := 200.

(** [time.Second], in nanoseconds. *)
Definition Second : Z := 1000000000.

Section collaborators.

(** What the plugin reaches through other packages: the TLS settings
    and their [TLSConfig] method, [url.Parse] and [URL.String], the GET
    request of the HTTP client, and the JSON decoder. *)
Context {ClientConfig TLSClientConfig : Type}.
Variable TLSConfig : ClientConfig → TLSClientConfig + error.
Variable url_Parse : string → URL + error.
Variable URL_String : URL → string.

Record Client : Type := {
  Transport : TLSClientConfig;
  Timeout : Z;
}.

Variable client_Get : Client → string → Response + error.
Variable json_Decode : string → option status.

Record NginxPlus : Type := {
  Urls : list string;
  ResponseTimeout : Z;
  TLS : ClientConfig;
  client : option Client;
}.

Definition gatherStatusURL (r : string) (tags : gmap string string)
    : Run (option error) :=
  match json_Decode r with
  | None => ret (Some (ErrMsg "error while decoding JSON response"))
  | Some status =>
      let* _ := gather status tags in
      ret None
  end.

Definition gatherURL (n : NginxPlus) (addr : URL) : Run (option error) :=
  let* c := deref (client n) in
  match client_Get c (URL_String addr) with
  | inr err => ret (Some (ErrMakingRequest (URL_String addr) err))
  | inl resp =>
      if negb (StatusCode resp =? StatusOK) then
        ret (Some (ErrHTTPStatus (URL_String addr) (Status resp)))
      else
        let contentType := nth 0 (Split ";" (ContentType resp)) EmptyString in
        if String.eqb contentType "application/json" then
          gatherStatusURL (Body resp) (getTags addr)
        else
          ret (Some (ErrContentType (URL_String addr) contentType))
  end.

(** The method updates [n.ResponseTimeout] in place: the receiver is
    returned with the result. *)
Definition createHTTPClient (n : NginxPlus) : NginxPlus * option Client * option error :=
  let n :=
    if ResponseTimeout n <? Second then
      {| Urls := Urls n; ResponseTimeout := Second * 5; TLS := TLS n; client := client n |}
    else n in
  match TLSConfig (TLS n) with
  | inr err => (n, None, Some err)
  | inl tlsConfig =>
      (n, Some {| Transport := tlsConfig; Timeout := ResponseTimeout n |}, None)
  end.

(** *** Gather

    The part of [Gather] before the loop: the client is created when
    the stored one is nil, and an error of the creation is returned. *)
Definition Gather_client (n : NginxPlus) : NginxPlus * option error :=
  match client n with
  | Some _ => (n, None)
  | None =>
      let '(n, c, err) := createHTTPClient n in
      match err with
      | Some e => (n, Some e)
      | None =>
          ({| Urls := Urls n; ResponseTimeout := ResponseTimeout n; TLS := TLS n;
              client := c |}, None)
      end
  end.

(** The goroutine started for one address. *)
Definition goroutine (n : NginxPlus) (addr : URL) : Run unit :=
  let* e := gatherURL n addr in
  AddError e.

(** The loop and its goroutines, step by step: the addresses the loop
    has still to visit, what each started goroutine has still to do (the
    calls it has not made yet, and whether it then returns or panics),
    and the calls the accumulator has received. *)
Record config : Type := Cfg {
  todo : list string;
  running : list (Run unit);
  received : list call;
}.

Inductive step (n : NginxPlus) : config → config → Prop :=
| step_parse_error u us rs t err :
    url_Parse u = inr err →
    step n (Cfg (u :: us) rs t)
           (Cfg us rs (t ++ [CallAddError (Some (ErrUnableToParseAddress u err))]))
| step_go u us rs t addr :
    url_Parse u = inl addr →
    step n (Cfg (u :: us) rs t) (Cfg us (rs ++ [goroutine n addr]) t)
| step_call us rs1 c cs r rs2 t :
    step n (Cfg us (rs1 ++ (c :: cs, r) :: rs2) t)
           (Cfg us (rs1 ++ (cs, r) :: rs2) (t ++ [c])).

(** [Gather] returns once the loop is over and [wg.Wait] has seen every
    goroutine return; a goroutine that panics stops the process. *)
Inductive outcome : Type :=
| Returned (e : option error)
| Crashed.

Inductive final : config → outcome → Prop :=
| final_return rs t :
    Forall (λ r, r = ([], Some ())) rs →
    final (Cfg [] rs t) (Returned None)
| final_crash us rs t :
    ([], None) ∈ rs →
    final (Cfg us rs t) Crashed.

(** [Gather n n' t out]: a call of [Gather] on [n] leaves the plugin as
    [n'], makes the calls [t] and ends as [out]. *)
Inductive Gather (n : NginxPlus) : NginxPlus → list call → outcome → Prop :=
| Gather_no_client n' e :
    Gather_client n = (n', Some e) →
    Gather n n' [] (Returned (Some e))
| Gather_urls n' c out :
    Gather_client n = (n', None) →
    rtc (step n') (Cfg (Urls n') [] []) c →
    final c out →
    Gather n n' (received c) out.

End collaborators.

End nginx_plus.

(** * What the plugins are expected to emit

    The statements below compare the code with these descriptions. *)

Module regex_spec.

(** The words of a pattern, with the groups they fill: [derives r w caps
    caps'] says that [w] is a word of [r] and that reading it turns the
    submatches [caps] into [caps']. *)
Fixpoint all_in (cl : cclass) (w : string) : bool :=
  match w with
  | EmptyString => true
  | String c w' => cls_mem cl c && all_in cl w'
  end.

Inductive derives : regex → string → list string → list string → Prop :=
| derives_eps caps :
    derives Eps EmptyString caps caps
| derives_chr cl c caps :
    cls_mem cl c = true →
    derives (Chr cl) (String c EmptyString) caps caps
| derives_star greedy cl w caps :
    all_in cl w = true →
    derives (Star greedy cl) w caps caps
| derives_cat r1 r2 w1 w2 caps caps1 caps2 :
    derives r1 w1 caps caps1 →
    derives r2 w2 caps1 caps2 →
    derives (Cat r1 r2) (w1 +:+ w2) caps caps2
| derives_grp i r w caps caps1 :
    derives r w caps caps1 →
    derives (Grp i r) w caps (<[i := w]> caps1).

(** A non-empty run of characters of one class. *)
Definition some_of (cl : cclass) (w : string) : Prop :=
  w ≠ EmptyString ∧ all_in cl w = true.

(** The number a string of decimal digits denotes. *)
Fixpoint decimal_from (s : string) (n : Z) : Z :=
  match s with
  | EmptyString => n
  | String c s' => decimal_from s' (n * 10 + digit_val c)
  end.

Definition decimal (s : string) : Z := decimal_from s 0.

End regex_spec.

Module iptables_spec.

Import iptables.

(** The metric of one rule line: the line matches the counters pattern
    and its two counters are unsigned 64-bit numbers. *)
Definition rule_metric (table chain line : string) : option Metric :=
  match FindStringSubmatch valuesRe line with
  | Some [_; pkts; bytes; target; comment] =>
      match ParseUint pkts, ParseUint bytes with
      | Some p, Some b =>
          Some (mkMetric "iptables"
                  {[ "pkts" := VUint64 p; "bytes" := VUint64 b ]}
                  {[ "table" := table; "chain" := chain;
                     "target" := target; "ruleid" := comment ]})
      | _, _ => None
      end
  | _ => None
  end.

(** The error one chain contributes: the error of the lister, or else
    the error of parsing what it listed. *)
Definition chain_error (ipt : Iptables) (chain : string) : option error :=
  match lister ipt (Table ipt) chain with
  | (_, Some e) => Some e
  | (data, None) => default None (parseAndGather ipt data).2
  end.

(** The metrics one chain contributes. *)
Definition chain_metrics (ipt : Iptables) (chain : string) : list Metric :=
  match lister ipt (Table ipt) chain with
  | (_, Some e) => []
  | (data, None) => metrics_of (parseAndGather ipt data).1
  end.

(** Everything one chain makes happen: the lister is invoked, and
    then its error, or the metrics and the error of the parse. *)
Definition chain_calls (ipt : Iptables) (chain : string) : list call :=
  CallLister (Table ipt) chain ::
  match lister ipt (Table ipt) chain with
  | (_, Some e) => [CallAddError (Some e)]
  | (data, None) =>
      (CallAddFields <$> chain_metrics ipt chain)
      ++ (CallAddError ∘ Some <$> option_list (chain_error ipt chain))
  end.

(** A configuration the plugin can be started with, and the listing of
    a chain of three rules: one counted, one without a comment, one whose
    packet counter exceeds 64 bits. *)
Definition NL : string := String LF EmptyString.

Definition sample_listing : string :=
  "Chain INPUT (policy DROP 0 packets, 0 bytes)" +:+ NL +:+
  "    pkts      bytes target     prot opt in     out     source               destination" +:+ NL +:+
  "      57     4520 RETURN     tcp  --  *      *       0.0.0.0/0            0.0.0.0/0            /* foobar */ tcp dpt:22" +:+ NL +:+
  "     100     4520 RETURN     tcp  --  *      *       0.0.0.0/0            0.0.0.0/0 " +:+ NL +:+
  "99999999999999999999 1 ACCEPT all /* big */" +:+ NL.

(** A listing whose second line is not the header of the counters. *)
Definition headless_listing : string :=
  "Chain INPUT (policy DROP 0 packets, 0 bytes)" +:+ NL +:+
  "target     prot opt source               destination" +:+ NL +:+
  "ACCEPT     all  --  0.0.0.0/0            0.0.0.0/0" +:+ NL.

Definition sample_ipt : Iptables :=
  {| UseSudo := false; UseLock := false; Binary := EmptyString;
     Table := "filter"; Chains := ["INPUT"; "FORWARD"];
     lister := λ _ chain,
       if String.eqb chain "INPUT" then (sample_listing, None)
       else (EmptyString, Some (ErrExternal "exit status 1")) |}.

(** *** Rule lines and the command of [chainList] *)

(** Whether [p] occurs in [s]. *)
Fixpoint occurs (p s : string) : bool :=
  String.prefix p s
  || match s with
     | EmptyString => false
     | String _ s' => occurs p s'
     end.

(** The metric of a counted rule of the table [table]: two counters
    that fit in 64 bits, and the four tags. *)
Definition counted (table : string) (m : Metric) : Prop :=
  ∃ pkts bytes chain target comment,
    m = mkMetric "iptables"
          {[ "pkts" := VUint64 pkts; "bytes" := VUint64 bytes ]}
          {[ "table" := table; "chain" := chain;
             "target" := target; "ruleid" := comment ]}
    ∧ 0 ≤ pkts ≤ maxUint64 ∧ 0 ≤ bytes ≤ maxUint64
    ∧ regex_spec.some_of ClsWord target ∧ comment ≠ EmptyString.

(** The name [chainList] looks up. *)
Definition binary_name (ipt : Iptables) : string :=
  if bool_decide (Binary ipt ≠ EmptyString) then Binary ipt else "iptables".

(** A system where no binary is found, and one where every binary is
    found under /usr/sbin and only sudo may list the chains. *)
Definition no_LookPath (_ : string) : string * option error :=
  (EmptyString, Some (ErrExternal "executable file not found in $PATH")).

Definition sample_LookPath (file : string) : string * option error :=
  ("/usr/sbin/" +:+ file, None).

Definition sample_Output (name : string) (_ : list string) : string * option error :=
  if String.eqb name "sudo" then (sample_listing, None)
  else (EmptyString, Some (ErrExternal "exit status 3")).

Definition sample_sudo_ipt : Iptables :=
  {| UseSudo := true; UseLock := true; Binary := "ip6tables";
     Table := "filter"; Chains := ["INPUT"];
     lister := λ _ _, (EmptyString, None) |}.

(** Three rule lines: one without a comment, one whose comment is
    followed by blanks, and one to add at the end of a listing. *)
Definition bare_rule : string :=
  "   42   2048 ACCEPT     tcp  --  *      *       0.0.0.0/0  0.0.0.0/0  tcp dpt:22".

Definition padded_rule : string :=
  "   57     4520 RETURN     tcp  --  *      *  1.3.5.7  0.0.0.0/0  /* foo bar   */".

Definition late_rule : string := "   7   512 DROP   all  /* late */".

Definition big_rule : string := "99999999999999999999 1 ACCEPT all /* big */".

End iptables_spec.

Module nginx_plus_spec.

Import nginx_plus.

(** What [encoding/json] decodes the document [{}] to: every number is
    zero, every map is empty and every pointer is nil.  A status document of
    an API version below 5 has no processes section either. *)
Definition no_responses : responseStats :=
  {| rs_Responses1xx := 0; rs_Responses2xx := 0; rs_Responses3xx := 0;
     rs_Responses4xx := 0; rs_Responses5xx := 0; rs_Total := 0 |}.

Definition no_hits : basicHitStats := {| bh_Responses := 0; bh_Bytes := 0 |}.

Definition no_hits_written : extendedHitStats :=
  {| eh_basicHitStats := no_hits; eh_ResponsesWritten := 0; eh_BytesWritten := 0 |}.

Definition empty_status : status :=
  {| Version := 0; NginxVersion := EmptyString; Address := EmptyString;
     Generation := None; LoadTimestamp := None; Timestamp := 0; Pid := None;
     Processes := None;
     Connections := {| cn_Accepted := 0; cn_Dropped := 0; cn_Active := 0; cn_Idle := 0 |};
     Ssl := None;
     Requests := {| rq_Total := 0; rq_Current := 0 |};
     ServerZones := ∅; Upstreams := ∅; Caches := ∅;
     Stream := {| st_ServerZones := ∅; st_Upstreams := ∅ |} |}.

(** A version 5 document: a processes section and no ssl section. *)
Definition status_without_ssl : status :=
  {| Version := 5; NginxVersion := "1.9.13"; Address := "127.0.0.1";
     Generation := Some 1; LoadTimestamp := Some 1451606400000;
     Timestamp := 1451606400000; Pid := None;
     Processes := Some {| pr_Respawned := Some 0 |};
     Connections := {| cn_Accepted := 7; cn_Dropped := 0; cn_Active := 1; cn_Idle := 2 |};
     Ssl := None;
     Requests := {| rq_Total := 11; rq_Current := 1 |};
     ServerZones := ∅; Upstreams := ∅; Caches := ∅;
     Stream := {| st_ServerZones := ∅; st_Upstreams := ∅ |} |}.

(** A document with both sections and a cache as API version 2 reports
    it, without the revalidated block. *)
Definition cache_v2 : cache :=
  {| c_Size := 4096; c_MaxSize := 1048576; c_Cold := false;
     c_Hit := no_hits; c_Stale := no_hits; c_Updating := no_hits;
     c_Revalidated := None;
     c_Miss := no_hits_written; c_Expired := no_hits_written;
     c_Bypass := no_hits_written |}.

Definition status_cache_v2 : status :=
  {| Version := 6; NginxVersion := "1.9.13"; Address := "127.0.0.1";
     Generation := Some 1; LoadTimestamp := Some 1451606400000;
     Timestamp := 1451606400000; Pid := Some 9122;
     Processes := Some {| pr_Respawned := Some 0 |};
     Connections := {| cn_Accepted := 7; cn_Dropped := 0; cn_Active := 1; cn_Idle := 2 |};
     Ssl := Some {| ssl_Handshakes := 3; ssl_HandshakesFailed := 0; ssl_SessionReuses := 1 |};
     Requests := {| rq_Total := 11; rq_Current := 1 |};
     ServerZones := ∅; Upstreams := ∅;
     Caches := {[ "http_cache" := cache_v2 ]};
     Stream := {| st_ServerZones := ∅; st_Upstreams := ∅ |} |}.

Definition sample_addr : URL := {| Scheme := "http"; Host := "localhost:8080" |}.

Definition sample_tags : gmap string string :=
  {[ "server" := "localhost"; "port" := "8080" ]}.

(** The records of one status document: which record is emitted for
    which part of the document. *)
Inductive emitted (s : status) (tags : gmap string string) : Metric → Prop :=
| em_processes p :
    Processes s = Some p →
    emitted s tags
      (mkMetric "nginx_plus_processes"
         (mapLit [("respawned", VInt (default 0 (pr_Respawned p)))]) tags)
| em_connections :
    emitted s tags
      (mkMetric "nginx_plus_connections"
         (mapLit [("accepted", VInt64 (cn_Accepted (Connections s)));
                  ("dropped", VInt64 (cn_Dropped (Connections s)));
                  ("active", VInt64 (cn_Active (Connections s)));
                  ("idle", VInt64 (cn_Idle (Connections s)))]) tags)
| em_ssl l :
    Ssl s = Some l →
    emitted s tags
      (mkMetric "nginx_plus_ssl"
         (mapLit [("handshakes", VInt64 (ssl_Handshakes l));
                  ("handshakes_failed", VInt64 (ssl_HandshakesFailed l));
                  ("session_reuses", VInt64 (ssl_SessionReuses l))]) tags)
| em_requests :
    emitted s tags
      (mkMetric "nginx_plus_requests"
         (mapLit [("total", VInt64 (rq_Total (Requests s)));
                  ("current", VInt (rq_Current (Requests s)))]) tags)
| em_zone name zone :
    ServerZones s !! name = Some zone →
    emitted s tags
      (mkMetric "nginx_plus_zone" (zoneFields zone) (<["zone" := name]> tags))
| em_upstream name u :
    Upstreams s !! name = Some u →
    emitted s tags
      (mkMetric "nginx_plus_upstream" (upstreamFields u) (<["upstream" := name]> tags))
| em_upstream_peer name u peer :
    Upstreams s !! name = Some u →
    peer ∈ u_Peers u →
    emitted s tags
      (mkMetric "nginx_plus_upstream_peer" (peerFields peer)
         (peerTags (<["upstream" := name]> tags) peer))
| em_cache name c fs :
    Caches s !! name = Some c →
    cacheFields c = ret fs →
    emitted s tags (mkMetric "nginx_plus_cache" fs (<["cache" := name]> tags))
| em_stream_zone name zone :
    st_ServerZones (Stream s) !! name = Some zone →
    emitted s tags
      (mkMetric "nginx.stream.zone" (streamZoneFields zone) (<["zone" := name]> tags))
| em_stream_upstream name u :
    st_Upstreams (Stream s) !! name = Some u →
    emitted s tags
      (mkMetric "nginx_plus_stream_upstream"
         (mapLit [("zombies", VInt (su_Zombies u))]) (<["upstream" := name]> tags))
| em_stream_peer name u peer :
    st_Upstreams (Stream s) !! name = Some u →
    peer ∈ su_Peers u →
    emitted s tags
      (mkMetric "nginx_plus_stream_upstream_peer" (streamPeerFields peer)
         (streamPeerTags (<["upstream" := name]> tags) peer)).

(** A version 6 document with one server zone and one upstream of one
    peer, and the record of its server zone. *)
Definition sample_zone : serverZone :=
  {| sz_Processing := 1; sz_Requests := 31070465;
     sz_Responses := {| rs_Responses1xx := 0; rs_Responses2xx := 30664839;
                        rs_Responses3xx := 262924; rs_Responses4xx := 100790;
                        rs_Responses5xx := 6143; rs_Total := 31034696 |};
     sz_Discarded := Some 35768; sz_Received := 1179520071; sz_Sent := 8536826551 |}.

Definition sample_peer : upstreamPeer :=
  {| up_ID := Some 0; up_Server := "10.0.0.1:8080"; up_Backup := false; up_Weight := 1;
     up_State := "up"; up_Active := 0; up_Keepalive := None; up_MaxConns := None;
     up_Requests := 667231; up_Responses := no_responses; up_Sent := 251946292;
     up_Received := 19222475454; up_Fails := 0; up_Unavail := 0;
     up_HealthChecks := {| hc_Checks := 26214; hc_Fails := 0; hc_Unhealthy := 0;
                           hc_LastPassed := Some true |};
     up_Downtime := 0; up_Downstart := 0; up_Selected := Some 1451606400000;
     up_HeaderTime := Some 20; up_ResponseTime := None |}.

Definition sample_status : status :=
  {| Version := 6; NginxVersion := "1.9.13"; Address := "127.0.0.1";
     Generation := Some 1; LoadTimestamp := Some 1451606400000;
     Timestamp := 1451606400000; Pid := Some 9122;
     Processes := Some {| pr_Respawned := Some 0 |};
     Connections := {| cn_Accepted := 7; cn_Dropped := 0; cn_Active := 1; cn_Idle := 2 |};
     Ssl := Some {| ssl_Handshakes := 3; ssl_HandshakesFailed := 0; ssl_SessionReuses := 1 |};
     Requests := {| rq_Total := 11; rq_Current := 1 |};
     ServerZones := {[ "example.com" := sample_zone ]};
     Upstreams := {[ "backend" := {| u_Peers := [sample_peer]; u_Keepalive := 0;
                                      u_Zombies := 0; u_Queue := None |} ]};
     Caches := ∅;
     Stream := {| st_ServerZones := ∅; st_Upstreams := ∅ |} |}.

Definition sample_zone_metric : Metric :=
  mkMetric "nginx_plus_zone" (zoneFields sample_zone)
    (<["zone" := "example.com"]> sample_tags).

(** *** The records of a document whose optional sections are present

    The flat list [gather] is expected to emit: one record for each of the
    four fixed sections, then one for each server zone, each upstream and
    each of its peers, each cache, each stream server zone, each stream
    upstream and each of its peers.  The entries of a map come in the order
    the loop visits them. *)
Definition zone_records (s : status) (tags : gmap string string) : list Metric :=
  (λ kv, mkMetric "nginx_plus_zone" (zoneFields kv.2) (<["zone" := kv.1]> tags))
    <$> range (ServerZones s).

Definition upstream_records (s : status) (tags : gmap string string) : list Metric :=
  concat ((λ kv,
    mkMetric "nginx_plus_upstream" (upstreamFields kv.2) (<["upstream" := kv.1]> tags)
    :: ((λ peer, mkMetric "nginx_plus_upstream_peer" (peerFields peer)
                   (peerTags (<["upstream" := kv.1]> tags) peer))
          <$> u_Peers kv.2))
    <$> range (Upstreams s)).

Definition cache_records (s : status) (tags : gmap string string) : list Metric :=
  (λ kv, mkMetric "nginx_plus_cache" (default ∅ (cacheFields kv.2).2)
           (<["cache" := kv.1]> tags))
    <$> range (Caches s).

Definition stream_zone_records (s : status) (tags : gmap string string) : list Metric :=
  (λ kv, mkMetric "nginx.stream.zone" (streamZoneFields kv.2) (<["zone" := kv.1]> tags))
    <$> range (st_ServerZones (Stream s)).

Definition stream_upstream_records (s : status) (tags : gmap string string)
    : list Metric :=
  concat ((λ kv,
    mkMetric "nginx_plus_stream_upstream" (mapLit [("zombies", VInt (su_Zombies kv.2))])
      (<["upstream" := kv.1]> tags)
    :: ((λ peer, mkMetric "nginx_plus_stream_upstream_peer" (streamPeerFields peer)
                   (streamPeerTags (<["upstream" := kv.1]> tags) peer))
          <$> su_Peers kv.2))
    <$> range (st_Upstreams (Stream s))).

Definition records (s : status) (tags : gmap string string) (p : processes) (l : ssl)
    : list Metric :=
  [ mkMetric "nginx_plus_processes"
      (mapLit [("respawned", VInt (default 0 (pr_Respawned p)))]) tags;
    mkMetric "nginx_plus_connections"
      (mapLit [("accepted", VInt64 (cn_Accepted (Connections s)));
               ("dropped", VInt64 (cn_Dropped (Connections s)));
               ("active", VInt64 (cn_Active (Connections s)));
               ("idle", VInt64 (cn_Idle (Connections s)))]) tags;
    mkMetric "nginx_plus_ssl"
      (mapLit [("handshakes", VInt64 (ssl_Handshakes l));
               ("handshakes_failed", VInt64 (ssl_HandshakesFailed l));
               ("session_reuses", VInt64 (ssl_SessionReuses l))]) tags;
    mkMetric "nginx_plus_requests"
      (mapLit [("total", VInt64 (rq_Total (Requests s)));
               ("current", VInt (rq_Current (Requests s)))]) tags ]
  ++ zone_records s tags ++ upstream_records s tags ++ cache_records s tags
  ++ stream_zone_records s tags ++ stream_upstream_records s tags.

(** The records with a given name. *)
Definition named (name : string) (ms : list Metric) : list Metric :=
  filter (λ m, m_name m = name) ms.

(** The sample document with a cache that has its revalidated block. *)
Definition cache_v3 : cache :=
  {| c_Size := 4096; c_MaxSize := 1048576; c_Cold := false;
     c_Hit := no_hits; c_Stale := no_hits; c_Updating := no_hits;
     c_Revalidated := Some {| bh_Responses := 5; bh_Bytes := 640 |};
     c_Miss := no_hits_written; c_Expired := no_hits_written;
     c_Bypass := no_hits_written |}.

Definition status_with_cache : status :=
  {| Version := 6; NginxVersion := "1.9.13"; Address := "127.0.0.1";
     Generation := Some 1; LoadTimestamp := Some 1451606400000;
     Timestamp := 1451606400000; Pid := Some 9122;
     Processes := Some {| pr_Respawned := Some 0 |};
     Connections := {| cn_Accepted := 7; cn_Dropped := 0; cn_Active := 1; cn_Idle := 2 |};
     Ssl := Some {| ssl_Handshakes := 3; ssl_HandshakesFailed := 0; ssl_SessionReuses := 1 |};
     Requests := {| rq_Total := 11; rq_Current := 1 |};
     ServerZones := ServerZones sample_status;
     Upstreams := Upstreams sample_status;
     Caches := {[ "http_cache" := cache_v3 ]};
     Stream := {| st_ServerZones := ∅; st_Upstreams := ∅ |} |}.

(** *** The host of an address

    [free_of cs s]: none of the characters [cs] occurs in [s]. *)
Definition free_of (cs : list ascii) (s : string) : Prop :=
  Forall (λ c, IndexByte s c = None) cs.

(** The hosts that [getTags] splits, on the host string: a port free
    of colons and brackets stands after a colon, and before that colon
    stands either a host free of colons and brackets, or a host free of
    brackets written between brackets. *)
Definition host_with_port (h host port : string) : Prop :=
  free_of [":"; "["; "]"]%char port
  ∧ ((h = host +:+ ":" +:+ port ∧ free_of [":"; "["; "]"]%char host)
     ∨ (h = "[" +:+ host +:+ "]:" +:+ port ∧ free_of ["["; "]"]%char host)).

Definition default_port (scheme : string) : string :=
  if String.eqb scheme "http" then "80"
  else if String.eqb scheme "https" then "443" else EmptyString.

(** The tags as the specification words them.  The host of a URL
    contains an explicit port when a port that is not empty, a run of
    digits, follows its last colon; the split host is then what stands
    before that colon, without the brackets of an address in brackets.
    Otherwise server is the full host and port is the default of the
    scheme. *)
Definition strip_brackets (h : string) : string :=
  match h with
  | String "[" r =>
      match String.get (String.length r - 1) r with
      | Some "]"%char => substring 0 (String.length r - 1) r
      | _ => h
      end
  | _ => h
  end.

Definition explicit_port (host : string) : option (string * string) :=
  match LastIndexByte host ":" with
  | Some i =>
      let port := slice_from host (S i) in
      if bool_decide (port ≠ EmptyString) && regex_spec.all_in ClsDigit port
      then Some (strip_brackets (slice host 0 i), port)
      else None
  | None => None
  end.

Definition claimed_tags (addr : URL) : gmap string string :=
  match explicit_port (Host addr) with
  | Some (host, port) => {[ "server" := host; "port" := port ]}
  | None => {[ "server" := Host addr; "port" := default_port (Scheme addr) ]}
  end.

(** The tags the sections add to the tags of the address. *)
Definition added_tags : list string :=
  ["zone"; "upstream"; "cache"; "upstream_address"; "id"].

(** *** The field-mapping table

    The part of the document a record is built from, the name of the
    record, the fields every such record has, and the optional fields and
    tags with the decoded datum each one carries. *)
Inductive source : Type :=
| FromProcesses
| FromConnections
| FromSsl
| FromRequests
| FromZone (zone : serverZone)
| FromUpstream (u : upstream)
| FromUpstreamPeer (peer : upstreamPeer)
| FromCache (c : cache)
| FromStreamZone (zone : streamZone)
| FromStreamUpstream (u : streamUpstream)
| FromStreamPeer (peer : streamPeer).

Definition in_status (s : status) (src : source) : Prop :=
  match src with
  | FromProcesses => is_Some (Processes s)
  | FromConnections => True
  | FromSsl => is_Some (Ssl s)
  | FromRequests => True
  | FromZone zone => ∃ name, ServerZones s !! name = Some zone
  | FromUpstream u => ∃ name, Upstreams s !! name = Some u
  | FromUpstreamPeer peer => ∃ name u, Upstreams s !! name = Some u ∧ peer ∈ u_Peers u
  | FromCache c => ∃ name, Caches s !! name = Some c
  | FromStreamZone zone => ∃ name, st_ServerZones (Stream s) !! name = Some zone
  | FromStreamUpstream u => ∃ name, st_Upstreams (Stream s) !! name = Some u
  | FromStreamPeer peer =>
      ∃ name u, st_Upstreams (Stream s) !! name = Some u ∧ peer ∈ su_Peers u
  end.

Definition record_name (src : source) : string :=
  match src with
  | FromProcesses => "nginx_plus_processes"
  | FromConnections => "nginx_plus_connections"
  | FromSsl => "nginx_plus_ssl"
  | FromRequests => "nginx_plus_requests"
  | FromZone _ => "nginx_plus_zone"
  | FromUpstream _ => "nginx_plus_upstream"
  | FromUpstreamPeer _ => "nginx_plus_upstream_peer"
  | FromCache _ => "nginx_plus_cache"
  | FromStreamZone _ => "nginx.stream.zone"
  | FromStreamUpstream _ => "nginx_plus_stream_upstream"
  | FromStreamPeer _ => "nginx_plus_stream_upstream_peer"
  end.

Definition always_fields (src : source) : list string :=
  match src with
  | FromProcesses => ["respawned"]
  | FromConnections => ["accepted"; "dropped"; "active"; "idle"]
  | FromSsl => ["handshakes"; "handshakes_failed"; "session_reuses"]
  | FromRequests => ["total"; "current"]
  | FromZone _ =>
      ["processing"; "requests"; "responses_1xx"; "responses_2xx"; "responses_3xx";
       "responses_4xx"; "responses_5xx"; "responses_total"; "received"; "sent"]
  | FromUpstream _ => ["keepalive"; "zombies"]
  | FromUpstreamPeer _ =>
      ["backup"; "weight"; "state"; "active"; "requests"; "responses_1xx";
       "responses_2xx"; "responses_3xx"; "responses_4xx"; "responses_5xx";
       "responses_total"; "sent"; "received"; "fails"; "unavail";
       "healthchecks_checks"; "healthchecks_fails"; "healthchecks_unhealthy";
       "downtime"; "downstart"; "selected"]
  | FromCache _ =>
      ["size"; "max_size"; "cold"; "hit_responses"; "hit_bytes"; "stale_responses";
       "stale_bytes"; "updating_responses"; "updating_bytes"; "revalidated_responses";
       "revalidated_bytes"; "miss_responses"; "miss_bytes"; "miss_responses_written";
       "miss_bytes_written"; "expired_responses"; "expired_bytes";
       "expired_responses_written"; "expired_bytes_written"; "bypass_responses";
       "bypass_bytes"; "bypass_responses_written"; "bypass_bytes_written"]
  | FromStreamZone _ => ["processing"; "connections"; "received"; "sent"]
  | FromStreamUpstream _ => ["zombies"]
  | FromStreamPeer _ =>
      ["backup"; "weight"; "state"; "active"; "connections"; "sent"; "received";
       "fails"; "unavail"; "healthchecks_checks"; "healthchecks_fails";
       "healthchecks_unhealthy"; "downtime"; "downstart"; "selected"]
  end.

Definition optional_fields (src : source) : list (string * option value) :=
  match src with
  | FromZone zone => [("discarded", VInt64 <$> sz_Discarded zone)]
  | FromUpstream u =>
      [("queue_size", VInt ∘ q_Size <$> u_Queue u);
       ("queue_max_size", VInt ∘ q_MaxSize <$> u_Queue u);
       ("queue_overflows", VInt64 ∘ q_Overflows <$> u_Queue u)]
  | FromUpstreamPeer peer =>
      [("max_conns", VInt <$> up_MaxConns peer);
       ("header_time", VInt64 <$> up_HeaderTime peer);
       ("response_time", VInt64 <$> up_ResponseTime peer);
       ("healthchecks_last_passed", VBool <$> hc_LastPassed (up_HealthChecks peer))]
  | FromStreamPeer peer =>
      [("connect_time", VInt <$> sp_ConnectTime peer);
       ("first_byte_time", VInt <$> sp_FirstByteTime peer);
       ("response_time", VInt <$> sp_ResponseTime peer);
       ("healthchecks_last_passed", VBool <$> hc_LastPassed (sp_HealthChecks peer))]
  | _ => []
  end.

Definition optional_tags (src : source) : list (string * option string) :=
  match src with
  | FromUpstreamPeer peer => [("id", Itoa <$> up_ID peer)]
  | _ => []
  end.

Definition always_tags (src : source) : list string :=
  ["server"; "port"] ++
  match src with
  | FromZone _ | FromStreamZone _ => ["zone"]
  | FromUpstream _ | FromStreamUpstream _ => ["upstream"]
  | FromUpstreamPeer _ => ["upstream"; "upstream_address"]
  | FromCache _ => ["cache"]
  | FromStreamPeer _ => ["upstream"; "upstream_address"; "id"]
  | _ => []
  end.

(** The names of the optional data that are present. *)
Definition present {V} (l : list (string * option V)) : list string :=
  omap (λ kv, match kv.2 with Some _ => Some kv.1 | None => None end) l.

(** *** One collection round

    A plugin configured with one address, whose server answers 200 with
    content type application/json and the body [{}]. *)
Definition sample_url : string := "http://localhost:8080/status".

Definition sample_TLSConfig (_ : unit) : unit + error := inl ().
Definition sample_url_Parse (_ : string) : URL + error := inl sample_addr.
Definition sample_URL_String (_ : URL) : string := sample_url.

Definition sample_Get (_ : @Client unit) (_ : string) : Response + error :=
  inl {| StatusCode := 200; Status := "200 OK";
         ContentType := "application/json; charset=utf-8"; Body := "{}" |}.

Definition sample_Decode (body : string) : option status :=
  if String.eqb body "{}" then Some empty_status else None.

Definition sample_plugin : @NginxPlus unit unit :=
  {| Urls := [sample_url]; ResponseTimeout := 0; TLS := (); client := None |}.

(** The same server answering 404, and answering with a page. *)
Definition sample_Get_404 (_ : @Client unit) (_ : string) : Response + error :=
  inl {| StatusCode := 404; Status := "404 Not Found";
         ContentType := "application/json"; Body := "{}" |}.

Definition sample_Get_html (_ : @Client unit) (_ : string) : Response + error :=
  inl {| StatusCode := 200; Status := "200 OK";
         ContentType := "text/html; charset=utf-8"; Body := "<html></html>" |}.

(** The plugin once the client is stored. *)
Definition sample_started : @NginxPlus unit unit :=
  {| Urls := [sample_url]; ResponseTimeout := 5 * Second; TLS := ();
     client := Some {| Transport := (); Timeout := 5 * Second |} |}.

(** The values [AddError] was called with, nil included. *)
Definition reports (t : list call) : list (option error) :=
  omap (λ c, match c with CallAddError e => Some e | _ => None end) t.

(** What one address contributes to a round: the error of an address
    that does not parse, or the calls of its goroutine. *)
Section round.

Context {ClientConfig TLSClientConfig : Type}.
Variable url_Parse : string → URL + error.
Variable URL_String : URL → string.
Variable client_Get : @Client TLSClientConfig → string → Response + error.
Variable json_Decode : string → option status.

Definition url_calls (n : @NginxPlus ClientConfig TLSClientConfig) (u : string)
    : list call :=
  match url_Parse u with
  | inr err => [CallAddError (Some (ErrUnableToParseAddress u err))]
  | inl addr => (goroutine URL_String client_Get json_Decode n addr).1
  end.

(** The calls of a round that have been made or are still to come. *)
Definition all_calls (n : @NginxPlus ClientConfig TLSClientConfig) (c : config)
    : list call :=
  received c ++ concat (fst <$> running c) ++ concat (url_calls n <$> todo c).

(** The addresses still to visit are addresses of the plugin, and no
    goroutine that was started panics. *)
Definition sound (n : @NginxPlus ClientConfig TLSClientConfig) (c : config) : Prop :=
  todo c ⊆ Urls n ∧ Forall (λ r : Run unit, r.2 = Some ()) (running c).

(** No goroutine of the round panics. *)
Definition no_panic (n : @NginxPlus ClientConfig TLSClientConfig) : Prop :=
  ∀ u addr,
    u ∈ Urls n → url_Parse u = inl addr →
    (goroutine URL_String client_Get json_Decode n addr).2 = Some ().

(** What is reported for one address once its goroutine has returned:
    the error of an address that does not parse, or what [gatherURL]
    returned, nil included. *)
Definition url_report (n : @NginxPlus ClientConfig TLSClientConfig) (u : string)
    : option error :=
  match url_Parse u with
  | inr err => Some (ErrUnableToParseAddress u err)
  | inl addr => default None (gatherURL URL_String client_Get json_Decode n addr).2
  end.

End round.

End nginx_plus_spec.

(** * Properties *)

(** ** Runs *)

Lemma bind_calls {A B} (m : Run A) (f : A → Run B) (a : A) :
  m.2 = Some a → bind m f = (m.1 ++ (f a).1, (f a).2).
Proof. intros H. unfold bind. by rewrite H. Qed.

Lemma bind_panic {A B} (m : Run A) (f : A → Run B) :
  m.2 = None → bind m f = (m.1, None).
Proof. intros H. unfold bind. by rewrite H. Qed.

Lemma bind_ret {A B} (a : A) (f : A → Run B) : bind (ret a) f = f a.
Proof. unfold bind, ret. simpl. by destruct (f a). Qed.

(** A call made by [bind m f] is made by [m], or by [f] after [m] has
    returned. *)
Lemma elem_of_bind {A B} (c : call) (m : Run A) (f : A → Run B) :
  c ∈ (bind m f).1 ↔ c ∈ m.1 ∨ ∃ a, m.2 = Some a ∧ c ∈ (f a).1.
Proof.
  unfold bind. destruct m as [t [a|]]; simpl.
  - rewrite elem_of_app. split.
    + intros [?|?]; [by left | right; eauto].
    + intros [?|(a' & [= <-] & ?)]; [by left | by right].
  - split; [by left | by intros [?|(? & ? & _)]].
Qed.

(** A loop whose body always returns makes the calls of each round in
    turn, and returns. *)
Lemma forM__returns {A} (l : list A) (body : A → Run unit) :
  (∀ x, x ∈ l → (body x).2 = Some ()) →
  forM_ l body = (concat ((λ x, (body x).1) <$> l), Some ()).
Proof.
  induction l as [|x l IH]; intros Hb; [done|].
  simpl. rewrite (bind_calls _ _ ()); [|apply Hb; left].
  rewrite IH; [done|]. intros y Hy. apply Hb. by right.
Qed.

(** Whether or not it panics, a loop only makes calls of its body. *)
Lemma elem_of_forM_ {A} (c : call) (l : list A) (body : A → Run unit) :
  c ∈ (forM_ l body).1 → ∃ x, x ∈ l ∧ c ∈ (body x).1.
Proof.
  induction l as [|x l IH]; simpl.
  - by intros ?%elem_of_nil.
  - intros [H|(_ & _ & H)]%elem_of_bind.
    + exists x. split; [left | done].
    + destruct (IH H) as (y & ? & ?). exists y. split; [by right | done].
Qed.

(** ** Regular expressions *)

Lemma star_match_inv {R} greedy cl s (k : string → option R) res :
  star_match greedy cl s k = Some res → ∃ s', k s' = Some res.
Proof.
  induction s as [|c s IH]; simpl; [eauto|].
  destruct (cls_mem cl c); [|eauto].
  destruct greedy.
  - destruct (star_match true cl s k) eqn:E; [|eauto].
    intros [= <-]. by apply IH.
  - destruct (k (String c s)) eqn:E; [|eauto].
    intros [= <-]. eauto.
Qed.

(** The submatches are as many as the groups when the match ends. *)
Lemma re_match_length r : ∀ s caps k res (n : nat),
  re_match r s caps k = Some res →
  length caps = n →
  (∀ s' caps' res', k s' caps' = Some res' → length caps' = n → length res' = n) →
  length res = n.
Proof.
  induction r as [|cl|g cl|r1 IH1 r2 IH2|i r IH]; simpl; intros s caps k res n Hm Hn Hk.
  - by eapply Hk.
  - destruct s as [|c s]; [done|]. destruct (cls_mem cl c); [by eapply Hk|done].
  - apply star_match_inv in Hm as [s' Hm]. by eapply Hk.
  - eapply IH1; [exact Hm|exact Hn|]. intros s' caps' res' Hm' Hn'.
    eapply IH2; [exact Hm'|exact Hn'|exact Hk].
  - eapply IH; [exact Hm|exact Hn|]. intros s' caps' res' Hm' Hn'.
    eapply Hk; [exact Hm'|]. by rewrite length_insert.
Qed.

Lemma FindStringSubmatch_length r s m :
  FindStringSubmatch r s = Some m → length m = S (num_groups r).
Proof.
  unfold FindStringSubmatch. intros H.
  eapply re_match_length; [exact H| by rewrite length_replicate |].
  intros s' caps' res' [= <-] Hn. by rewrite length_insert.
Qed.

(** *** The matcher finds the words of the pattern *)

Import regex_spec.

Lemma append_cons (x : ascii) (a b : string) : String x a +:+ b = String x (a +:+ b).
Proof. reflexivity. Qed.

Lemma append_assoc (a b c : string) : (a +:+ b) +:+ c = a +:+ (b +:+ c).
Proof. induction a as [|x a IH]; [done|]. by rewrite !append_cons, IH. Qed.

Lemma append_nil_r (a : string) : a +:+ EmptyString = a.
Proof. induction a as [|x a IH]; [done|]. by rewrite append_cons, IH. Qed.

Lemma length_append (a b : string) :
  String.length (a +:+ b) = (String.length a + String.length b)%nat.
Proof. induction a as [|x a IH]; [done|]. rewrite append_cons. simpl. by rewrite IH. Qed.

Lemma substring_prefix (a b : string) : substring 0 (String.length a) (a +:+ b) = a.
Proof.
  induction a as [|x a IH]; [by destruct b|].
  rewrite append_cons. simpl. by rewrite IH.
Qed.

Lemma consumed_append (w s' : string) : consumed (w +:+ s') s' = w.
Proof.
  unfold consumed. rewrite length_append.
  replace (String.length w + String.length s' - String.length s')%nat
    with (String.length w) by lia.
  apply substring_prefix.
Qed.

Lemma star_match_sound {R} greedy cl s (k : string → option R) res :
  star_match greedy cl s k = Some res →
  ∃ w s', s = w +:+ s' ∧ all_in cl w = true ∧ k s' = Some res.
Proof.
  induction s as [|c s IH]; simpl.
  { intros H. by exists EmptyString, EmptyString. }
  destruct (cls_mem cl c) eqn:Hc; [|intros H; by exists EmptyString, (String c s)].
  assert (star_match greedy cl s k = Some res →
          ∃ w s', String c s = w +:+ s' ∧ all_in cl w = true ∧ k s' = Some res) as Hlong.
  { intros (w & s' & -> & Hw & Hk)%IH. exists (String c w), s'. simpl. by rewrite Hc. }
  destruct greedy.
  - destruct (star_match true cl s k) eqn:E.
    + intros [= <-]. by apply Hlong.
    + intros H. by exists EmptyString, (String c s).
  - destruct (k (String c s)) eqn:E.
    + intros [= <-]. by exists EmptyString, (String c s).
    + done.
Qed.

Lemma re_match_sound r : ∀ s caps k res,
  re_match r s caps k = Some res →
  ∃ w s' caps', s = w +:+ s' ∧ derives r w caps caps' ∧ k s' caps' = Some res.
Proof.
  induction r as [|cl|g cl|r1 IH1 r2 IH2|i r IH]; simpl; intros s caps k res Hm.
  - exists EmptyString, s, caps. split; [done|]. split; [constructor|done].
  - destruct s as [|c s]; [done|]. destruct (cls_mem cl c) eqn:Hc; [|done].
    exists (String c EmptyString), s, caps. split; [done|]. split; [by constructor|done].
  - apply star_match_sound in Hm as (w & s' & -> & Hw & Hk).
    exists w, s', caps. split; [done|]. split; [by constructor|done].
  - apply IH1 in Hm as (w1 & s1 & caps1 & -> & H1 & Hm).
    apply IH2 in Hm as (w2 & s2 & caps2 & -> & H2 & Hm).
    exists (w1 +:+ w2), s2, caps2. rewrite append_assoc.
    split; [done|]. split; [by econstructor|done].
  - apply IH in Hm as (w & s' & caps1 & -> & H1 & Hm).
    rewrite consumed_append in Hm.
    exists w, s', (<[i := w]> caps1). split; [done|]. split; [by constructor|done].
Qed.

Lemma star_match_complete {R} greedy cl w s' (k : string → option R) :
  all_in cl w = true → is_Some (k s') → is_Some (star_match greedy cl (w +:+ s') k).
Proof.
  intros Hw Hk. induction w as [|c w IH]; simpl in *.
  - destruct s' as [|c s']; simpl; [done|].
    destruct (cls_mem cl c); [|done].
    destruct greedy.
    + by destruct (star_match true cl s' k).
    + by destruct Hk as [? ->].
  - apply andb_true_iff in Hw as [-> Hw]. specialize (IH Hw).
    destruct greedy.
    + by destruct IH as [? ->].
    + by destruct (k (String c (w +:+ s'))).
Qed.

Lemma re_match_complete r w caps0 caps0' :
  derives r w caps0 caps0' →
  ∀ s' caps k, (∀ caps', is_Some (k s' caps')) → is_Some (re_match r (w +:+ s') caps k).
Proof.
  induction 1 as [caps0|cl c caps0 Hc|g cl w caps0 Hw
                 |r1 r2 w1 w2 caps0 caps1 caps2 _ IH1 _ IH2|i r w caps0 caps1 _ IH];
    intros s' caps k Hk; simpl.
  - apply Hk.
  - rewrite Hc. apply Hk.
  - by apply star_match_complete.
  - rewrite append_assoc. apply IH1. intros caps'. by apply IH2.
  - apply IH. intros caps'. apply Hk.
Qed.

(** A match is a word of the pattern at the start of the text, and the
    submatches are the parts of the word the groups have read; the pattern
    matches exactly the texts that start with one of its words. *)
Lemma FindStringSubmatch_sound r s m :
  FindStringSubmatch r s = Some m →
  ∃ w rest caps,
    s = w +:+ rest
    ∧ derives r w (replicate (S (num_groups r)) EmptyString) caps
    ∧ m = <[0%nat := w]> caps.
Proof.
  unfold FindStringSubmatch.
  intros (w & s' & caps & -> & Hd & [= <-])%re_match_sound.
  rewrite consumed_append. by exists w, s', caps.
Qed.

Lemma MatchString_iff r s :
  MatchString r s = true ↔ ∃ w rest caps caps', s = w +:+ rest ∧ derives r w caps caps'.
Proof.
  unfold MatchString. rewrite bool_decide_eq_true. split.
  - intros [m (w & rest & caps & -> & Hd & _)%FindStringSubmatch_sound].
    by exists w, rest, (replicate (S (num_groups r)) EmptyString), caps.
  - intros (w & rest & caps & caps' & -> & Hd).
    unfold FindStringSubmatch. by eapply re_match_complete.
Qed.

Lemma derives_star g cl w caps caps' :
  derives (Star g cl) w caps caps' ↔ caps' = caps ∧ all_in cl w = true.
Proof.
  split.
  - inversion 1; by subst.
  - intros [-> H]. by constructor.
Qed.

Lemma derives_plus g cl w caps caps' :
  derives (Plus g cl) w caps caps' ↔ caps' = caps ∧ some_of cl w.
Proof.
  unfold Plus, some_of. split.
  - inversion 1 as [| | |r1 r2 w1 w2 c0 c1 c2 H1 H2|]; subst.
    inversion H1; subst. apply derives_star in H2 as [-> Hw].
    rewrite append_cons. simpl. split; [done|]. split; [done|].
    by apply andb_true_iff.
  - intros (-> & Hne & Hw). destruct w as [|c w]; [done|].
    simpl in Hw. apply andb_true_iff in Hw as [Hc Hw].
    change (String c w) with (String c EmptyString +:+ w).
    econstructor; by constructor.
Qed.

Lemma derives_lit s w caps caps' :
  derives (Lit s) w caps caps' ↔ caps' = caps ∧ w = s.
Proof.
  revert w caps caps'. induction s as [|c s IH]; intros w caps caps'; simpl.
  - split; [inversion 1; by subst|]. intros [-> ->]. constructor.
  - split.
    + inversion 1 as [| | |r1 r2 w1 w2 c0 c1 c2 H1 H2|]; subst.
      inversion H1 as [|cl c' ? Hc| | |]; subst. apply IH in H2 as [-> ->].
      simpl in Hc. apply Ascii.eqb_eq in Hc as ->. by rewrite append_cons.
    + intros [-> ->]. change (String c s) with (String c EmptyString +:+ s).
      econstructor; [constructor; simpl; apply Ascii.eqb_refl|]. by apply IH.
Qed.

Lemma derives_grp i r w caps caps' :
  derives (Grp i r) w caps caps' ↔ ∃ caps1, derives r w caps caps1 ∧ caps' = <[i := w]> caps1.
Proof.
  split.
  - inversion 1; subst. eauto.
  - intros (caps1 & H & ->). by constructor.
Qed.

Lemma derives_cat r1 r2 w caps caps' :
  derives (Cat r1 r2) w caps caps' ↔
  ∃ w1 w2 caps1, w = w1 +:+ w2 ∧ derives r1 w1 caps caps1 ∧ derives r2 w2 caps1 caps'.
Proof.
  split.
  - inversion 1; subst. eauto 10.
  - intros (w1 & w2 & caps1 & -> & H1 & H2). by econstructor.
Qed.

Tactic Notation "split_word" hyp(H) "as" ident(w) ident(Hw) :=
  apply derives_cat in H as (w & ? & ? & -> & Hw & H).

Tactic Notation "split_word" hyp(H) "as" ident(w) ident(Hw) "and" ident(r) :=
  apply derives_cat in H as (w & r & ? & -> & Hw & H).

Ltac read_word H :=
  repeat first
    [ apply derives_grp in H as (? & H & ->)
    | apply derives_plus in H as (-> & H)
    | apply derives_star in H as (-> & H)
    | apply derives_lit in H as (-> & ->) ].

(** *** The three patterns of the iptables plugin, part by part *)

Lemma valuesRe_submatches line m :
  FindStringSubmatch iptables.valuesRe line = Some m →
  ∃ ws0 pkts ws1 bytes ws2 target mid ws3 comment ws4 ws5 rest,
    line = ws0 +:+ pkts +:+ ws1 +:+ bytes +:+ ws2 +:+ target +:+ mid +:+ "/*"
           +:+ ws3 +:+ comment +:+ ws4 +:+ "*/" +:+ ws5 +:+ rest
    ∧ m = [ws0 +:+ pkts +:+ ws1 +:+ bytes +:+ ws2 +:+ target +:+ mid +:+ "/*"
           +:+ ws3 +:+ comment +:+ ws4 +:+ "*/" +:+ ws5;
           pkts; bytes; target; comment]
    ∧ all_in ClsSpace ws0 = true ∧ some_of ClsDigit pkts
    ∧ some_of ClsSpace ws1 ∧ some_of ClsDigit bytes
    ∧ some_of ClsSpace ws2 ∧ some_of ClsWord target
    ∧ all_in ClsAny mid = true ∧ all_in ClsSpace ws3 = true
    ∧ some_of ClsAny comment ∧ all_in ClsSpace ws4 = true
    ∧ all_in ClsSpace ws5 = true.
Proof.
  intros (w & rest & caps & -> & Hd & ->)%FindStringSubmatch_sound.
  unfold iptables.valuesRe in Hd.
  split_word Hd as ws0 H0. split_word Hd as pkts H1. split_word Hd as ws1 H2.
  split_word Hd as bytes H3. split_word Hd as ws2 H4. split_word Hd as target H5.
  split_word Hd as mid H6. split_word Hd as open H7. split_word Hd as ws3 H8.
  split_word Hd as comment H9. split_word Hd as ws4 H10. split_word Hd as close H11 and ws5.
  read_word H0. read_word H1. read_word H2. read_word H3. read_word H4. read_word H5.
  read_word H6. read_word H7. read_word H8. read_word H9. read_word H10.
  read_word H11. read_word Hd.
  exists ws0, pkts, ws1, bytes, ws2, target, mid, ws3, comment, ws4, ws5, rest.
  split; [by rewrite !append_assoc|]. split; [reflexivity|].
  repeat (split; [assumption|]); assumption.
Qed.

(** Conversely every line made of such parts is matched. *)
Lemma valuesRe_matches ws0 pkts ws1 bytes ws2 target mid ws3 comment ws4 ws5 rest :
  all_in ClsSpace ws0 = true → some_of ClsDigit pkts →
  some_of ClsSpace ws1 → some_of ClsDigit bytes →
  some_of ClsSpace ws2 → some_of ClsWord target →
  all_in ClsAny mid = true → all_in ClsSpace ws3 = true →
  some_of ClsAny comment → all_in ClsSpace ws4 = true →
  all_in ClsSpace ws5 = true →
  MatchString iptables.valuesRe
    (ws0 +:+ pkts +:+ ws1 +:+ bytes +:+ ws2 +:+ target +:+ mid +:+ "/*"
     +:+ ws3 +:+ comment +:+ ws4 +:+ "*/" +:+ ws5 +:+ rest) = true.
Proof.
  intros. apply MatchString_iff.
  exists (ws0 +:+ pkts +:+ ws1 +:+ bytes +:+ ws2 +:+ target +:+ mid +:+ "/*"
          +:+ ws3 +:+ comment +:+ ws4 +:+ "*/" +:+ ws5), rest, [].
  eexists. split; [by rewrite !append_assoc|]. unfold iptables.valuesRe.
  repeat (apply derives_cat; do 3 eexists; split; [reflexivity|]; split);
    repeat first
      [ apply derives_grp; eexists; split; [|reflexivity]
      | by apply derives_plus
      | by apply derives_star
      | by apply derives_lit ].
Qed.

Lemma chainNameRe_submatches line m :
  FindStringSubmatch iptables.chainNameRe line = Some m →
  ∃ ws name rest,
    line = "Chain" +:+ ws +:+ name +:+ rest
    ∧ m = ["Chain" +:+ ws +:+ name; name]
    ∧ some_of ClsSpace ws ∧ some_of ClsNotSpace name.
Proof.
  intros (w & rest & caps & -> & Hd & ->)%FindStringSubmatch_sound.
  unfold iptables.chainNameRe in Hd.
  split_word Hd as chain H0. split_word Hd as ws H1 and name.
  read_word H0. read_word H1. read_word Hd.
  exists ws, name, rest.
  split; [by rewrite !append_assoc|]. split; [reflexivity|]. by split.
Qed.

Lemma fieldsHeaderRe_matches line :
  MatchString iptables.fieldsHeaderRe line = true ↔
  ∃ ws0 ws1 ws2 rest,
    line = ws0 +:+ "pkts" +:+ ws1 +:+ "bytes" +:+ ws2 +:+ "target" +:+ rest
    ∧ all_in ClsSpace ws0 = true ∧ some_of ClsSpace ws1 ∧ some_of ClsSpace ws2.
Proof.
  rewrite MatchString_iff. unfold iptables.fieldsHeaderRe. split.
  - intros (w & rest & caps & caps' & -> & Hd).
    split_word Hd as ws0 H0. split_word Hd as pkts H1. split_word Hd as ws1 H2.
    split_word Hd as bytes H3. split_word Hd as ws2 H4 and target.
    read_word H0. read_word H1. read_word H2. read_word H3. read_word H4. read_word Hd.
    exists ws0, ws1, ws2, rest. split; [by rewrite !append_assoc|].
    split; [assumption|]. split; assumption.
  - intros (ws0 & ws1 & ws2 & rest & -> & H0 & H1 & H2).
    exists (ws0 +:+ "pkts" +:+ ws1 +:+ "bytes" +:+ ws2 +:+ "target"), rest, [].
    eexists. split; [by rewrite !append_assoc|].
    repeat (apply derives_cat; do 3 eexists; split; [reflexivity|]; split);
      repeat first
        [ by apply derives_plus
        | by apply derives_star
        | by apply derives_lit ].
Qed.

(** *** Decimal numbers *)

Lemma digit_val_range c : is_digit c = true → 0 ≤ digit_val c ≤ 9.
Proof.
  unfold is_digit, digit_val. intros [H1 H2]%andb_true_iff.
  apply Nat.leb_le in H1, H2. lia.
Qed.

Lemma decimal_from_ge s n : all_in ClsDigit s = true → 0 ≤ n → n ≤ decimal_from s n.
Proof.
  revert n. induction s as [|c s IH]; intros n Hs Hn; simpl in *; [lia|].
  apply andb_true_iff in Hs as [Hc Hs]. apply digit_val_range in Hc.
  etrans; [|apply IH; [done|lia]]. lia.
Qed.

Lemma parse_digits_spec s n v :
  0 ≤ n ≤ maxUint64 →
  parse_digits s n = Some v ↔
  all_in ClsDigit s = true ∧ decimal_from s n = v ∧ v ≤ maxUint64.
Proof.
  revert n. induction s as [|c s IH]; intros n Hn; simpl.
  { split; [intros [= <-]; split; [done|lia]|]. by intros (_ & <- & _). }
  destruct (is_digit c) eqn:Hc; [|split; [done|by intros [? _]]]. simpl.
  pose proof (digit_val_range c Hc) as Hd.
  unfold cutoff64, maxUint64 in *.
  destruct (Z.leb_spec (((2 ^ 64 - 1) / 10) + 1) n) as [Hcut|Hcut].
  { split; [done|]. intros (Hs & <- & Hle).
    pose proof (decimal_from_ge s (n * 10 + digit_val c) Hs ltac:(lia)).
    change ((2 ^ 64 - 1) / 10) with 1844674407370955161 in Hcut. lia. }
  change ((2 ^ 64 - 1) / 10) with 1844674407370955161 in Hcut.
  destruct (Z.lt_ge_cases (n * 10 + digit_val c) (2 ^ 64)) as [Hsmall|Hbig].
  - rewrite Z.mod_small by lia.
    destruct (Z.ltb_spec (n * 10 + digit_val c) (n * 10)); [lia|].
    destruct (Z.ltb_spec (2 ^ 64 - 1) (n * 10 + digit_val c)); [lia|]. simpl.
    apply IH. lia.
  - assert ((n * 10 + digit_val c) mod 2 ^ 64 = n * 10 + digit_val c - 2 ^ 64) as ->.
    { symmetry. apply (Z.mod_unique _ _ 1); lia. }
    destruct (Z.ltb_spec (n * 10 + digit_val c - 2 ^ 64) (n * 10)); [|lia]. simpl.
    split; [done|]. intros (Hs & <- & Hle).
    pose proof (decimal_from_ge s (n * 10 + digit_val c) Hs ltac:(lia)). lia.
Qed.

(** [ParseUint] accepts exactly the non-empty strings of decimal digits
    whose value fits in 64 bits, and returns that value. *)
Lemma ParseUint_spec s v :
  ParseUint s = Some v ↔ some_of ClsDigit s ∧ decimal s = v ∧ v ≤ maxUint64.
Proof.
  unfold ParseUint, some_of, decimal. destruct s as [|c s].
  - split; [done|]. by intros [[? _] _].
  - rewrite parse_digits_spec by (unfold maxUint64; lia).
    split; [intros (? & ? & ?)|intros ((_ & ?) & ? & ?)]; by repeat split.
Qed.

Lemma MatchString_true r s : MatchString r s = true ↔ is_Some (FindStringSubmatch r s).
Proof. unfold MatchString. apply bool_decide_eq_true. Qed.

Lemma MatchString_false r s : MatchString r s = false ↔ FindStringSubmatch r s = None.
Proof.
  unfold MatchString. rewrite bool_decide_eq_false, <- eq_None_not_Some. done.
Qed.

(** ** The iptables plugin *)

Section iptables_properties.

Import iptables iptables_spec.

Lemma chainNameRe_submatch line m :
  FindStringSubmatch chainNameRe line = Some m → ∃ whole name, m = [whole; name].
Proof.
  intros H%FindStringSubmatch_length.
  destruct m as [|w [|c [|? ?]]]; try done. eauto.
Qed.

Lemma valuesRe_submatch line m :
  FindStringSubmatch valuesRe line = Some m →
  ∃ whole pkts bytes target comment, m = [whole; pkts; bytes; target; comment].
Proof.
  intros H%FindStringSubmatch_length.
  destruct m as [|w [|p [|b [|t [|c [|? ?]]]]]]; try done. eauto 6.
Qed.

(** One round of the loop over the rule lines emits the metric of the
    line, or nothing, and goes on. *)
Lemma parseAndGather_line_spec ipt mchain line :
  parseAndGather_line ipt mchain line =
    (CallAddFields <$> option_list (rule_metric (Table ipt) (nth 1 mchain EmptyString) line),
     Some ()).
Proof.
  unfold parseAndGather_line, rule_metric.
  destruct (FindStringSubmatch valuesRe line) as [m|] eqn:E; [|done].
  apply valuesRe_submatch in E as (w & p & b & t & c & ->). simpl.
  destruct (ParseUint p) as [pv|]; [|done].
  destruct (ParseUint b) as [bv|]; [|done].
  unfold AddFields, measurement, mapLit. simpl. reflexivity.
Qed.

Lemma concat_option_list {X Y} (f : X → option Y) (g : Y → call) (l : list X) :
  concat ((λ x, g <$> option_list (f x)) <$> l) = g <$> omap f l.
Proof.
  induction l as [|x l IH]; [done|].
  rewrite fmap_cons, concat_cons, IH. simpl. by destruct (f x).
Qed.

(** [parseAndGather], branch by branch. *)
Lemma parseAndGather_cases ipt data :
  parseAndGather ipt data =
    let lines := Split LF data in
    if (length lines <? 3)%nat then ([], Some None)
    else
      match FindStringSubmatch chainNameRe (nth 0 lines EmptyString) with
      | None => ([], Some (Some errParse))
      | Some mchain =>
          if MatchString fieldsHeaderRe (nth 1 lines EmptyString) then
            (CallAddFields <$>
               omap (rule_metric (Table ipt) (nth 1 mchain EmptyString)) (drop 2 lines),
             Some None)
          else ([], Some (Some errParse))
      end.
Proof.
  unfold parseAndGather. simpl.
  destruct (length (Split LF data) <? 3)%nat; [done|].
  destruct (FindStringSubmatch chainNameRe _) as [mchain|]; [|done].
  destruct (MatchString fieldsHeaderRe _); [|done]. simpl.
  rewrite forM__returns by (intros; by rewrite parseAndGather_line_spec).
  unfold bind, ret. simpl. rewrite app_nil_r. f_equal.
  rewrite <- concat_option_list. f_equal. apply list_fmap_ext.
  intros _ line _. by rewrite parseAndGather_line_spec.
Qed.

(** C3: on an input of at least three lines whose first line matches
    the chain-name pattern and whose second line matches the fields header,
    [parseAndGather] returns nil and emits, in order, one iptables metric
    for each later line that matches the counters pattern and whose two
    counters parse as unsigned 64-bit integers, with the tags table, chain,
    target and ruleid and the fields pkts and bytes; every other line is
    skipped. *)
Theorem parseAndGather_emits_rule_metrics ipt data :
  let lines := Split LF data in
  (3 ≤ length lines)%nat →
  MatchString chainNameRe (nth 0 lines EmptyString) = true →
  MatchString fieldsHeaderRe (nth 1 lines EmptyString) = true →
  ∃ whole chain,
    FindStringSubmatch chainNameRe (nth 0 lines EmptyString) = Some [whole; chain] ∧
    parseAndGather ipt data =
      (CallAddFields <$> omap (rule_metric (Table ipt) chain) (drop 2 lines), Some None).
Proof.
  intros lines Hlen [m Hm]%MatchString_true Hhdr.
  destruct (chainNameRe_submatch _ _ Hm) as (whole & chain & ->).
  exists whole, chain. split; [done|].
  rewrite parseAndGather_cases. simpl. fold lines.
  destruct (Nat.ltb_spec (length lines) 3); [lia|].
  by rewrite Hm, Hhdr.
Qed.

Lemma parseAndGather_emits_rule_metrics_witness :
  ∃ whole chain,
    FindStringSubmatch chainNameRe (nth 0 (Split LF sample_listing) EmptyString)
      = Some [whole; chain] ∧
    parseAndGather sample_ipt sample_listing =
      (CallAddFields <$>
         omap (rule_metric (Table sample_ipt) chain) (drop 2 (Split LF sample_listing)),
       Some None).
Proof.
  apply (parseAndGather_emits_rule_metrics sample_ipt sample_listing).
  - vm_compute. lia.
  - vm_compute. reflexivity.
  - vm_compute. reflexivity.
Defined.

(** C4: [parseAndGather] returns the parse error exactly when its input
    has at least three lines and the first line does not match the
    chain-name pattern or the second does not match the fields header; on
    fewer than three lines it returns nil and emits nothing.  It returns no
    other error, and it emits nothing when it returns the parse error. *)
Theorem parseAndGather_error_iff ipt data :
  let lines := Split LF data in
  ((parseAndGather ipt data).2 = Some (Some errParse) ↔
     (3 ≤ length lines)%nat ∧
     (MatchString chainNameRe (nth 0 lines EmptyString) = false ∨
      MatchString fieldsHeaderRe (nth 1 lines EmptyString) = false))
  ∧ ((length lines < 3)%nat → parseAndGather ipt data = ([], Some None))
  ∧ ((parseAndGather ipt data).2 = Some None ∨
     parseAndGather ipt data = ([], Some (Some errParse))).
Proof.
  intros lines. rewrite parseAndGather_cases. simpl. fold lines.
  rewrite MatchString_false.
  destruct (Nat.ltb_spec (length lines) 3) as [Hlt|Hge].
  { split; [|split; [done|by left]]. split; [done|lia]. }
  destruct (FindStringSubmatch chainNameRe _) as [m|].
  - destruct (MatchString fieldsHeaderRe _).
    + split; [|split; [lia|by left]].
      split; [done|]. by intros [_ [?|?]].
    + split; [|split; [lia|by right]].
      split; [|done]. intros _. split; [lia|by right].
  - split; [|split; [lia|by right]].
    split; [|done]. intros _. split; [lia|by left].
Qed.

(** The metric of a rule line, in full: the line is two decimal numbers
    that fit in 64 bits, a target word and a comment, separated as the
    pattern says, and the metric carries the two numbers and, as tags, the
    table, the chain, the target and the comment. *)
Lemma rule_metric_shape table chain line m :
  rule_metric table chain line = Some m →
  ∃ ws0 pkts ws1 bytes ws2 target mid ws3 comment ws4 ws5 rest,
    line = ws0 +:+ pkts +:+ ws1 +:+ bytes +:+ ws2 +:+ target +:+ mid +:+ "/*"
           +:+ ws3 +:+ comment +:+ ws4 +:+ "*/" +:+ ws5 +:+ rest
    ∧ all_in ClsSpace ws0 = true ∧ some_of ClsDigit pkts
    ∧ some_of ClsSpace ws1 ∧ some_of ClsDigit bytes
    ∧ some_of ClsSpace ws2 ∧ some_of ClsWord target
    ∧ some_of ClsAny comment
    ∧ decimal pkts ≤ maxUint64 ∧ decimal bytes ≤ maxUint64
    ∧ m = mkMetric "iptables"
            {[ "pkts" := VUint64 (decimal pkts); "bytes" := VUint64 (decimal bytes) ]}
            {[ "table" := table; "chain" := chain;
               "target" := target; "ruleid" := comment ]}.
Proof.
  unfold rule_metric.
  destruct (FindStringSubmatch valuesRe line) as [ms|] eqn:E; [|done].
  apply valuesRe_submatches in E
    as (ws0 & pkts & ws1 & bytes & ws2 & target & mid & ws3 & comment & ws4 & ws5 & rest
        & -> & -> & H0 & H1 & H2 & H3 & H4 & H5 & H6 & H7 & H8 & H9 & H10).
  destruct (ParseUint pkts) as [p|] eqn:Hp; [|done].
  destruct (ParseUint bytes) as [b|] eqn:Hb; [|done].
  apply ParseUint_spec in Hp as (_ & <- & Hp), Hb as (_ & <- & Hb).
  intros [= <-].
  exists ws0, pkts, ws1, bytes, ws2, target, mid, ws3, comment, ws4, ws5, rest.
  by repeat (split; [assumption||reflexivity|]).
Qed.

(** On the sample listing only the first rule is counted: the second
    has no comment and the packet counter of the third is out of range. *)
Example parseAndGather_sample :
  parseAndGather sample_ipt sample_listing =
    ([CallAddFields
        (mkMetric "iptables"
           {[ "pkts" := VUint64 57; "bytes" := VUint64 4520 ]}
           {[ "table" := "filter"; "chain" := "INPUT";
              "target" := "RETURN"; "ruleid" := "foobar" ]})],
     Some None).
Proof. vm_compute. reflexivity. Qed.

Lemma metrics_of_app t1 t2 : metrics_of (t1 ++ t2) = metrics_of t1 ++ metrics_of t2.
Proof. apply omap_app. Qed.

Lemma errors_of_app t1 t2 : errors_of (t1 ++ t2) = errors_of t1 ++ errors_of t2.
Proof. apply omap_app. Qed.

Lemma listed_of_app t1 t2 : listed_of (t1 ++ t2) = listed_of t1 ++ listed_of t2.
Proof. apply omap_app. Qed.

Lemma metrics_of_AddFields ms : metrics_of (CallAddFields <$> ms) = ms.
Proof.
  unfold metrics_of. induction ms as [|m ms IH]; [done|]. simpl. f_equal. exact IH.
Qed.

Lemma errors_of_AddFields ms : errors_of (CallAddFields <$> ms) = [].
Proof. by induction ms. Qed.

Lemma listed_of_AddFields ms : listed_of (CallAddFields <$> ms) = [].
Proof. by induction ms. Qed.

Lemma metrics_of_AddError es : metrics_of (CallAddError ∘ Some <$> es) = [].
Proof. by induction es. Qed.

Lemma errors_of_AddError es : errors_of (CallAddError ∘ Some <$> es) = es.
Proof.
  unfold errors_of. induction es as [|e es IH]; [done|]. simpl. f_equal. exact IH.
Qed.

Lemma listed_of_AddError es : listed_of (CallAddError ∘ Some <$> es) = [].
Proof. by induction es. Qed.

(** [parseAndGather] always returns, with the parse error only when it
    has emitted nothing, and all it calls is [AddFields]. *)
Lemma parseAndGather_returns ipt data :
  ∃ ms e, parseAndGather ipt data = (CallAddFields <$> ms, Some e).
Proof.
  rewrite parseAndGather_cases. simpl.
  destruct (_ <? _)%nat; [by exists [], None|].
  destruct (FindStringSubmatch chainNameRe _); [|by exists [], (Some errParse)].
  destruct (MatchString fieldsHeaderRe _); [|by exists [], (Some errParse)].
  eauto.
Qed.

(** One round of the loop over the chains. *)
Lemma Gather_round ipt chain :
  (let* r := call_lister ipt (Table ipt) chain in
   match r.2 with
   | Some e => AddError (Some e)
   | None =>
       let* e := parseAndGather ipt r.1 in
       match e with
       | Some e => AddError (Some e)
       | None => ret ()
       end
   end) = (chain_calls ipt chain, Some ()).
Proof.
  unfold call_lister, chain_calls, chain_metrics, chain_error, bind. simpl.
  destruct (lister ipt (Table ipt) chain) as [data [e|]]; simpl; [done|].
  destruct (parseAndGather_returns ipt data) as (ms & e & ->). simpl.
  rewrite metrics_of_AddFields. by destruct e.
Qed.

Lemma iptables_Gather_calls ipt :
  Gather ipt =
    (if bool_decide (Table ipt = EmptyString) || (length (Chains ipt) =? 0)%nat then []
     else concat (chain_calls ipt <$> Chains ipt),
     Some None).
Proof.
  unfold Gather.
  destruct (bool_decide _ || _); [done|].
  rewrite forM__returns by (intros chain _; exact (f_equal snd (Gather_round ipt chain))).
  unfold bind at 1. unfold ret. simpl. rewrite app_nil_r. do 2 f_equal.
  apply list_fmap_ext. intros _ chain _. exact (f_equal fst (Gather_round ipt chain)).
Qed.

Lemma listed_of_chain_calls ipt chain :
  listed_of (chain_calls ipt chain) = [(Table ipt, chain)].
Proof.
  unfold chain_calls. simpl. f_equal.
  destruct (lister ipt (Table ipt) chain) as [data [e|]]; [done|].
  by rewrite listed_of_app, listed_of_AddFields, listed_of_AddError.
Qed.

Lemma errors_of_chain_calls ipt chain :
  errors_of (chain_calls ipt chain) = option_list (chain_error ipt chain).
Proof.
  unfold chain_calls. simpl. unfold chain_error.
  destruct (lister ipt (Table ipt) chain) as [data [e|]]; [done|].
  by rewrite errors_of_app, errors_of_AddFields, errors_of_AddError.
Qed.

Lemma metrics_of_chain_calls ipt chain :
  metrics_of (chain_calls ipt chain) = chain_metrics ipt chain.
Proof.
  unfold chain_calls. simpl. unfold chain_metrics.
  destruct (lister ipt (Table ipt) chain) as [data [e|]]; [done|].
  by rewrite metrics_of_app, metrics_of_AddFields, metrics_of_AddError, app_nil_r.
Qed.

Lemma omap_concat {X Y} (f : X → option Y) (ls : list (list X)) :
  omap f (concat ls) = concat ((λ l : list X, omap f l) <$> ls).
Proof.
  induction ls as [|l ls IH]; [done|]. simpl. by rewrite omap_app, IH.
Qed.

Lemma listed_of_concat ts : listed_of (concat ts) = concat (listed_of <$> ts).
Proof. apply omap_concat. Qed.

Lemma errors_of_concat ts : errors_of (concat ts) = concat (errors_of <$> ts).
Proof. apply omap_concat. Qed.

Lemma metrics_of_concat ts : metrics_of (concat ts) = concat (metrics_of <$> ts).
Proof. apply omap_concat. Qed.

Lemma concat_singletons {X Y} (f : X → Y) (l : list X) :
  concat ((λ x, [f x]) <$> l) = f <$> l.
Proof. induction l as [|x l IH]; [done|]. by rewrite !fmap_cons, concat_cons, IH. Qed.

Lemma concat_option_lists {X Y} (f : X → option Y) (l : list X) :
  concat ((λ x, option_list (f x)) <$> l) = omap f l.
Proof.
  induction l as [|x l IH]; [done|].
  rewrite fmap_cons, concat_cons, IH. simpl. by destruct (f x).
Qed.

(** C9: with an empty table name or no chain, [Gather] returns nil at
    once: the lister is not invoked and the accumulator receives nothing.
    Otherwise it returns nil as well, after invoking the lister for every
    configured chain in turn; the errors the accumulator receives are the
    listing or parsing error of each chain that has one, and the metrics
    are those of the chains that were listed, so an error of one chain
    does not keep the later chains from being processed. *)
Theorem iptables_Gather_best_effort ipt :
  ((Table ipt = EmptyString ∨ Chains ipt = []) → Gather ipt = ([], Some None))
  ∧ (Gather ipt).2 = Some None
  ∧ (Table ipt ≠ EmptyString →
       listed_of (Gather ipt).1 = (λ chain, (Table ipt, chain)) <$> Chains ipt
       ∧ errors_of (Gather ipt).1 = omap (chain_error ipt) (Chains ipt)
       ∧ metrics_of (Gather ipt).1 = concat (chain_metrics ipt <$> Chains ipt)).
Proof.
  rewrite iptables_Gather_calls. cbn [fst snd]. split; [|split; [done|]].
  - intros [H|H]; rewrite H; [done|]. simpl. by rewrite orb_true_r.
  - intros Hne. rewrite bool_decide_eq_false_2 by done. rewrite orb_false_l.
    destruct (length (Chains ipt) =? 0)%nat eqn:E.
    { apply Nat.eqb_eq, nil_length_inv in E. by rewrite E. }
    rewrite listed_of_concat, errors_of_concat, metrics_of_concat, <- !list_fmap_compose.
    split; [|split].
    + rewrite <- (concat_singletons (λ chain, (Table ipt, chain))).
      f_equal. apply list_fmap_ext.
      intros _ chain _. apply listed_of_chain_calls.
    + rewrite <- (concat_option_lists (chain_error ipt)).
      f_equal. apply list_fmap_ext.
      intros _ chain _. apply errors_of_chain_calls.
    + f_equal. apply list_fmap_ext.
      intros _ chain _. apply metrics_of_chain_calls.
Qed.

(** The sample configuration: the first chain is listed and counted,
    the listing of the second fails, and both have been visited. *)
Example iptables_Gather_sample :
  listed_of (Gather sample_ipt).1 = [("filter", "INPUT"); ("filter", "FORWARD")]
  ∧ errors_of (Gather sample_ipt).1 = [ErrExternal "exit status 1"]
  ∧ length (metrics_of (Gather sample_ipt).1) = 1%nat
  ∧ (Gather sample_ipt).2 = Some None.
Proof. vm_compute. done. Qed.

Lemma parseAndGather_error_iff_witness :
  (parseAndGather sample_ipt headless_listing).2 = Some (Some errParse)
  ∧ parseAndGather sample_ipt "Chain INPUT (policy ACCEPT)" = ([], Some None).
Proof.
  split.
  - apply (proj1 (parseAndGather_error_iff sample_ipt headless_listing)).
    split; [vm_compute; lia|]. right. vm_compute. reflexivity.
  - apply (proj1 (proj2 (parseAndGather_error_iff sample_ipt "Chain INPUT (policy ACCEPT)"))).
    vm_compute. lia.
Defined.

Lemma iptables_Gather_best_effort_witness :
  Gather {| UseSudo := false; UseLock := false; Binary := EmptyString;
            Table := EmptyString; Chains := ["INPUT"];
            lister := lister sample_ipt |} = ([], Some None)
  ∧ listed_of (Gather sample_ipt).1
      = (λ chain, (Table sample_ipt, chain)) <$> Chains sample_ipt
  ∧ errors_of (Gather sample_ipt).1 = omap (chain_error sample_ipt) (Chains sample_ipt)
  ∧ metrics_of (Gather sample_ipt).1
      = concat (chain_metrics sample_ipt <$> Chains sample_ipt).
Proof.
  split.
  - apply (proj1 (iptables_Gather_best_effort _)). by left.
  - apply (proj2 (proj2 (iptables_Gather_best_effort sample_ipt))). discriminate.
Defined.

End iptables_properties.

(** ** The nginx_plus plugin: one status document *)

Section status_properties.

Import nginx_plus nginx_plus_spec.

Lemma copyMap_id {V} (m : gmap string V) : copyMap m = m.
Proof. apply list_to_map_to_list. Qed.

(** The three loads through a pointer that may be nil. *)
Lemma gather_panics_without_processes s tags :
  Processes s = None → gather s tags = ([], None).
Proof. intros H. unfold gather, gatherProcessesMetrics. by rewrite H. Qed.

Lemma gather_panics_without_ssl s tags p :
  Processes s = Some p → Ssl s = None →
  metrics_of (gather s tags).1 =
    [mkMetric "nginx_plus_processes"
       {[ "respawned" := VInt (default 0 (pr_Respawned p)) ]} tags;
     mkMetric "nginx_plus_connections"
       {[ "accepted" := VInt64 (cn_Accepted (Connections s));
          "dropped" := VInt64 (cn_Dropped (Connections s));
          "active" := VInt64 (cn_Active (Connections s));
          "idle" := VInt64 (cn_Idle (Connections s)) ]} tags]
  ∧ (gather s tags).2 = None.
Proof.
  intros Hp Hs. unfold gather, gatherProcessesMetrics, gatherSslMetrics.
  rewrite Hp, Hs. simpl. by destruct (pr_Respawned p).
Qed.

Lemma gatherCacheMetrics_panics s tags name c :
  Caches s !! name = Some c → c_Revalidated c = None →
  (gatherCacheMetrics s tags).2 = None.
Proof.
  intros Hc Hr. unfold gatherCacheMetrics, range.
  apply elem_of_map_to_list in Hc.
  induction (map_to_list (Caches s)) as [|[k c'] l IH]; [by apply elem_of_nil in Hc|].
  apply elem_of_cons in Hc as [[= <- <-]|Hc].
  - simpl. unfold cacheFields. by rewrite Hr.
  - simpl. unfold bind at 1.
    destruct (bind (cacheFields c') _).2; [|done]. simpl. by apply IH.
Qed.

(** C1: the three loads are not safe.  On the document [{}], which has
    no processes section, [gather] panics before it has emitted anything;
    on a document with a processes section and no ssl section it panics
    after the processes and connections metrics; on a document whose cache
    has no revalidated block it panics once it reaches the caches: the
    metrics of the eight sections are not emitted. *)
Theorem gather_nil_pointer_panics :
  gather empty_status sample_tags = ([], None)
  ∧ (length (gather status_without_ssl sample_tags).1 = 2%nat
     ∧ (gather status_without_ssl sample_tags).2 = None)
  ∧ (length (gather status_cache_v2 sample_tags).1 = 4%nat
     ∧ (gather status_cache_v2 sample_tags).2 = None).
Proof. vm_compute. done. Qed.

(** C2: on the document [{}] no record is emitted at all, so there is
    no nginx_plus_connections and no nginx_plus_requests metric. *)
Theorem gather_emits_nothing_without_processes :
  metrics_of (gather empty_status sample_tags).1 = []
  ∧ (gather empty_status sample_tags).2 = None.
Proof. vm_compute. done. Qed.

(** *** Every record [gather] emits is one of the records of the document *)

Lemma elem_of_AddFields c name fs ts :
  c ∈ (AddFields name fs ts).1 → c = CallAddFields (mkMetric name fs ts).
Proof. by intros ->%list_elem_of_singleton. Qed.

Lemma gatherZoneMetrics_emitted s tags c :
  c ∈ (gatherZoneMetrics s tags).1 → ∃ m, c = CallAddFields m ∧ emitted s tags m.
Proof.
  intros ([k z] & Hkz%elem_of_map_to_list & ->%elem_of_AddFields)%elem_of_forM_.
  eexists. split; [done|]. rewrite copyMap_id. by constructor.
Qed.

Lemma gatherUpstreamMetrics_emitted s tags c :
  c ∈ (gatherUpstreamMetrics s tags).1 → ∃ m, c = CallAddFields m ∧ emitted s tags m.
Proof.
  intros ([k u] & Hku%elem_of_map_to_list & Hc)%elem_of_forM_.
  rewrite copyMap_id in Hc.
  apply elem_of_bind in Hc as [->%elem_of_AddFields|(_ & _ & Hc)].
  - eexists. split; [done|]. by constructor.
  - apply elem_of_forM_ in Hc as (peer & Hp & ->%elem_of_AddFields).
    eexists. split; [done|]. by econstructor.
Qed.

Lemma gatherCacheMetrics_emitted s tags c :
  c ∈ (gatherCacheMetrics s tags).1 → ∃ m, c = CallAddFields m ∧ emitted s tags m.
Proof.
  intros ([k ch] & Hk%elem_of_map_to_list & Hc)%elem_of_forM_.
  rewrite copyMap_id in Hc.
  apply elem_of_bind in Hc as [Hc|(fs & Hfs & ->%elem_of_AddFields)].
  - unfold cacheFields in Hc. by destruct (c_Revalidated ch); apply elem_of_nil in Hc.
  - eexists. split; [done|]. econstructor; [done|].
    unfold cacheFields, deref in *. destruct (c_Revalidated ch); [|done].
    rewrite bind_ret in *. unfold ret in *. cbn [snd] in Hfs.
    apply (inj Some) in Hfs. by rewrite Hfs.
Qed.

Lemma gatherStreamMetrics_emitted s tags c :
  c ∈ (gatherStreamMetrics s tags).1 → ∃ m, c = CallAddFields m ∧ emitted s tags m.
Proof.
  intros [Hc|(_ & _ & Hc)]%elem_of_bind.
  - apply elem_of_forM_ in Hc as ([k z] & Hkz%elem_of_map_to_list & ->%elem_of_AddFields).
    eexists. split; [done|]. rewrite copyMap_id. by constructor.
  - apply elem_of_forM_ in Hc as ([k u] & Hku%elem_of_map_to_list & Hc).
    rewrite copyMap_id in Hc.
    apply elem_of_bind in Hc as [->%elem_of_AddFields|(_ & _ & Hc)].
    + eexists. split; [done|]. by constructor.
    + apply elem_of_forM_ in Hc as (peer & Hp & ->%elem_of_AddFields).
      eexists. split; [done|]. by econstructor.
Qed.

Lemma gather_emitted s tags c :
  c ∈ (gather s tags).1 → ∃ m, c = CallAddFields m ∧ emitted s tags m.
Proof.
  unfold gather.
  intros [Hc|(_ & _ & Hc)]%elem_of_bind.
  { unfold gatherProcessesMetrics in Hc.
    destruct (Processes s) as [p|] eqn:Hp; [|by apply elem_of_nil in Hc].
    unfold deref in Hc. rewrite bind_ret in Hc. apply elem_of_AddFields in Hc as ->.
    eexists. split; [done|].
    replace (match pr_Respawned p with Some r => r | None => 0 end)
      with (default 0 (pr_Respawned p)) by by destruct (pr_Respawned p).
    by constructor. }
  apply elem_of_bind in Hc as [->%elem_of_AddFields|(_ & _ & Hc)].
  { eexists. split; [done|]. by constructor. }
  apply elem_of_bind in Hc as [Hc|(_ & _ & Hc)].
  { unfold gatherSslMetrics in Hc.
    destruct (Ssl s) as [l|] eqn:Hl; [|by apply elem_of_nil in Hc].
    unfold deref in Hc. rewrite bind_ret in Hc. apply elem_of_AddFields in Hc as ->.
    eexists. split; [done|]. by constructor. }
  apply elem_of_bind in Hc as [->%elem_of_AddFields|(_ & _ & Hc)].
  { eexists. split; [done|]. by constructor. }
  apply elem_of_bind in Hc as [Hc|(_ & _ & Hc)]; [by apply gatherZoneMetrics_emitted|].
  apply elem_of_bind in Hc as [Hc|(_ & _ & Hc)]; [by apply gatherUpstreamMetrics_emitted|].
  apply elem_of_bind in Hc as [Hc|(_ & _ & Hc)]; [by apply gatherCacheMetrics_emitted|].
  by apply gatherStreamMetrics_emitted.
Qed.

Lemma getTags_shape addr :
  ∃ host port, getTags addr = {[ "server" := host; "port" := port ]}.
Proof.
  unfold getTags. destruct (SplitHostPort (Host addr)) as [[h p] [e|]]; [|eauto].
  repeat case_match; simplify_eq; eauto.
Qed.

(** Membership in a table of the mapping, entry by entry. *)
Ltac table_entry H :=
  repeat (apply elem_of_cons in H as [[= -> ->]|H]);
  [..|by apply elem_of_nil in H].



(** On the sample document seven records are emitted, and that of the
    peer carries the optional data that were decoded and no other. *)
Example gather_sample :
  (gather sample_status sample_tags).2 = Some ()
  ∧ m_name <$> metrics_of (gather sample_status sample_tags).1
      = ["nginx_plus_processes"; "nginx_plus_connections"; "nginx_plus_ssl";
         "nginx_plus_requests"; "nginx_plus_zone"; "nginx_plus_upstream";
         "nginx_plus_upstream_peer"]
  ∧ peerTags (<["upstream" := "backend"]> sample_tags) sample_peer
      = {[ "server" := "localhost"; "port" := "8080"; "upstream" := "backend";
           "upstream_address" := "10.0.0.1:8080"; "id" := "0" ]}
  ∧ peerFields sample_peer !! "header_time" = Some (VInt64 20)
  ∧ peerFields sample_peer !! "healthchecks_last_passed" = Some (VBool true)
  ∧ peerFields sample_peer !! "response_time" = None
  ∧ peerFields sample_peer !! "max_conns" = None.
Proof. compute_done. Qed.

(** *** What [gather] emits when no pointer it loads through is nil *)

Lemma forM__calls {X} (l : list X) (body : X → Run unit) (f : X → list Metric) :
  (∀ x, x ∈ l → body x = (CallAddFields <$> f x, Some ())) →
  forM_ l body = (CallAddFields <$> concat (f <$> l), Some ()).
Proof.
  induction l as [|x l IH]; intros Hb; [done|].
  simpl. rewrite (Hb x) by left. rewrite IH by (intros; apply Hb; by right).
  unfold bind. simpl. by rewrite fmap_app.
Qed.

Lemma forM__records {X} (l : list X) (body : X → Run unit) (f : X → Metric) :
  (∀ x, x ∈ l → body x = ([CallAddFields (f x)], Some ())) →
  forM_ l body = (CallAddFields <$> (f <$> l), Some ()).
Proof.
  intros Hb. rewrite (forM__calls l body (λ x, [f x])) by done.
  by rewrite concat_singletons.
Qed.

Lemma gatherZoneMetrics_returns s tags :
  gatherZoneMetrics s tags = (CallAddFields <$> zone_records s tags, Some ()).
Proof.
  unfold gatherZoneMetrics, zone_records.
  apply forM__records. intros [k z] _. by rewrite copyMap_id.
Qed.

Lemma gatherUpstreamMetrics_returns s tags :
  gatherUpstreamMetrics s tags = (CallAddFields <$> upstream_records s tags, Some ()).
Proof.
  unfold gatherUpstreamMetrics, upstream_records.
  apply forM__calls. intros [k u] _. rewrite copyMap_id.
  erewrite forM__records by (intros; reflexivity).
  reflexivity.
Qed.

Lemma gatherCacheMetrics_returns s tags :
  (∀ name c, Caches s !! name = Some c → is_Some (c_Revalidated c)) →
  gatherCacheMetrics s tags = (CallAddFields <$> cache_records s tags, Some ()).
Proof.
  intros Hrv. unfold gatherCacheMetrics, cache_records.
  apply forM__records. intros [k c] Hkc%elem_of_map_to_list. rewrite copyMap_id.
  destruct (Hrv k c Hkc) as [rv Hc]. unfold cacheFields, deref. cbn [fst snd]. rewrite Hc.
  rewrite !bind_ret. unfold ret. cbn [snd default]. reflexivity.
Qed.

Lemma gatherStreamMetrics_returns s tags :
  gatherStreamMetrics s tags =
    (CallAddFields <$> (stream_zone_records s tags ++ stream_upstream_records s tags),
     Some ()).
Proof.
  unfold gatherStreamMetrics, stream_zone_records, stream_upstream_records.
  rewrite (forM__records (range (st_ServerZones (Stream s))) _
             (λ kv, mkMetric "nginx.stream.zone" (streamZoneFields kv.2)
                      (<["zone" := kv.1]> tags)))
    by (intros [k z] _; by rewrite copyMap_id).
  rewrite (forM__calls (range (st_Upstreams (Stream s))) _
             (λ kv,
                mkMetric "nginx_plus_stream_upstream"
                  (mapLit [("zombies", VInt (su_Zombies kv.2))])
                  (<["upstream" := kv.1]> tags)
                :: ((λ peer, mkMetric "nginx_plus_stream_upstream_peer"
                               (streamPeerFields peer)
                               (streamPeerTags (<["upstream" := kv.1]> tags) peer))
                      <$> su_Peers kv.2))).
  - unfold bind. cbn [fst snd]. by rewrite fmap_app.
  - intros [k u] _. rewrite copyMap_id.
    erewrite forM__records by (intros; reflexivity).
    reflexivity.
Qed.

(** When the processes section, the ssl section and the revalidated
    block of every cache are present, [gather] returns and has emitted the
    records of the document, each once. *)
Lemma gather_flattens s tags p l :
  Processes s = Some p →
  Ssl s = Some l →
  (∀ name c, Caches s !! name = Some c → is_Some (c_Revalidated c)) →
  gather s tags = (CallAddFields <$> records s tags p l, Some ()).
Proof.
  intros Hp Hl Hrv. unfold gather, gatherProcessesMetrics, gatherSslMetrics, deref.
  rewrite Hp, Hl, !bind_ret.
  rewrite gatherZoneMetrics_returns, gatherUpstreamMetrics_returns,
    (gatherCacheMetrics_returns _ _ Hrv), gatherStreamMetrics_returns.
  unfold records, bind, AddFields, gatherConnectionsMetrics, gatherRequestMetrics, AddFields.
  cbn [fst snd]. rewrite !fmap_app, !fmap_cons. cbn [app]. by repeat f_equal.
Qed.

End status_properties.

(** ** The nginx_plus plugin: addresses *)

Section address_properties.

Import nginx_plus nginx_plus_spec.

Lemma substring_all (s : string) : substring 0 (String.length s) s = s.
Proof. rewrite <- (append_nil_r s) at 2. apply substring_prefix. Qed.

Lemma IndexByte_split s c i :
  IndexByte s c = Some i →
  s = slice s 0 i +:+ String c (slice_from s (S i)) ∧ IndexByte (slice s 0 i) c = None.
Proof.
  unfold slice, slice_from. revert i. induction s as [|d s IH]; intros i; simpl; [done|].
  destruct (Ascii.eqb_spec d c) as [->|Hne].
  - intros [= <-]. simpl. rewrite Nat.sub_0_r, substring_all. by destruct s.
  - destruct (IndexByte s c) as [j|]; [|done]. intros [= <-].
    destruct (IH j eq_refl) as [IH1 IH2]. rewrite Nat.sub_0_r in *. simpl.
    rewrite append_cons, <- IH1. split; [done|].
    rewrite (proj2 (Ascii.eqb_neq _ _) Hne). by rewrite IH2.
Qed.

Lemma LastIndexByte_split s c i :
  LastIndexByte s c = Some i →
  s = slice s 0 i +:+ String c (slice_from s (S i)).
Proof.
  unfold slice, slice_from. revert i. induction s as [|d s IH]; intros i; simpl; [done|].
  destruct (LastIndexByte s c) as [j|].
  - intros [= <-]. simpl. rewrite append_cons. f_equal.
    specialize (IH j eq_refl). by rewrite Nat.sub_0_r in IH.
  - destruct (Ascii.eqb_spec d c) as [->|Hne]; [|done].
    intros [= <-]. simpl. rewrite Nat.sub_0_r, substring_all. by destruct s.
Qed.

Lemma substring_snoc (h : string) (e : nat) (c : ascii) (r : string) :
  h = substring 0 e h +:+ String c r →
  substring 0 (S e) h = substring 0 e h +:+ String c EmptyString.
Proof.
  revert h. induction e as [|e IH]; intros h.
  - destruct h as [|d h]; simpl; [done|]. intros [= -> _]. by destruct h.
  - destruct h as [|d h]; [done|]. simpl. rewrite append_cons. intros [= H].
    rewrite append_cons. f_equal. by apply IH.
Qed.

(** When [SplitHostPort] succeeds, the address is the host, bare or in
    brackets, a colon and the port. *)
Lemma SplitHostPort_shape hostport host port :
  SplitHostPort hostport = (host, port, None) →
  hostport = host +:+ ":" +:+ port ∨ hostport = "[" +:+ host +:+ "]:" +:+ port.
Proof.
  unfold SplitHostPort, addrErr.
  destruct (LastIndexByte hostport ":") as [i|] eqn:Hi; [|done].
  apply LastIndexByte_split in Hi.
  case_bool_decide as Hb.
  - destruct (IndexByte hostport "]") as [e|] eqn:He; [|done].
    destruct (Nat.eqb_spec (S e) (String.length hostport)); [done|].
    destruct (Nat.eqb_spec (S e) i) as [<-|]; [|by case_bool_decide].
    repeat case_bool_decide; try done. intros [= <- <-]. right.
    apply IndexByte_split in He as [He _].
    destruct hostport as [|c h]; [done|]. simpl in Hb. injection Hb as ->.
    destruct e as [|e]; [by injection He|].
    unfold slice, slice_from in *. simpl in *.
    rewrite Nat.sub_0_r in *. rewrite append_cons in He. injection He as He.
    rewrite (substring_snoc _ _ _ _ He) in Hi. rewrite Hi at 1.
    by rewrite !append_cons, append_assoc.
  - case_bool_decide; [done|]. repeat case_bool_decide; try done.
    intros [= <- <-]. by left.
Qed.

Example getTags_examples :
  getTags {| Scheme := "http"; Host := "localhost:8080" |}
    = {[ "server" := "localhost"; "port" := "8080" ]}
  ∧ getTags {| Scheme := "https"; Host := "[::1]:8443" |}
    = {[ "server" := "::1"; "port" := "8443" ]}
  ∧ getTags {| Scheme := "http"; Host := "example.com" |}
    = {[ "server" := "example.com"; "port" := "80" ]}
  ∧ getTags {| Scheme := "https"; Host := "[::1]" |}
    = {[ "server" := "[::1]"; "port" := "443" ]}
  ∧ getTags {| Scheme := "unix"; Host := "example.com" |}
    = {[ "server" := "example.com"; "port" := EmptyString ]}.
Proof. compute_done. Qed.

End address_properties.

(** ** The nginx_plus plugin: the client and one address *)

Section client_properties.

Import nginx_plus nginx_plus_spec.

Context {ClientConfig TLSClientConfig : Type}.
Variable TLSConfig : ClientConfig → TLSClientConfig + error.
Variable url_Parse : string → URL + error.
Variable URL_String : URL → string.
Variable client_Get : @Client TLSClientConfig → string → Response + error.
Variable json_Decode : string → option status.

Abbreviation NginxPlus := (@NginxPlus ClientConfig TLSClientConfig).
Abbreviation createHTTPClient := (createHTTPClient TLSConfig).
Abbreviation Gather_client := (Gather_client TLSConfig).
Abbreviation gatherStatusURL := (gatherStatusURL json_Decode).
Abbreviation gatherURL := (gatherURL (ClientConfig := ClientConfig) URL_String client_Get json_Decode).
Abbreviation Gather := (Gather TLSConfig url_Parse URL_String client_Get json_Decode).

(** What [createHTTPClient] does to the plugin and what it returns. *)
Lemma createHTTPClient_spec (n : NginxPlus) :
  let timeout := if ResponseTimeout n <? Second then 5 * Second else ResponseTimeout n in
  let n' := {| Urls := Urls n; ResponseTimeout := timeout; TLS := TLS n;
               client := client n |} in
  createHTTPClient n =
    match TLSConfig (TLS n) with
    | inl tls => (n', Some {| Transport := tls; Timeout := timeout |}, None)
    | inr e => (n', None, Some e)
    end.
Proof.
  unfold nginx_plus.createHTTPClient. destruct n as [us rt tl cl]. simpl.
  destruct (rt <? Second); simpl; by destruct (TLSConfig tl).
Qed.

(** C7: the client is created lazily and reused.  With a stored client
    [Gather] leaves the plugin as it is and nothing is created.  With none
    it calls [createHTTPClient], which first replaces a response timeout
    below one second by five seconds and then builds a client with the
    resulting timeout, which [Gather] stores; a failure to build is
    returned and nothing is stored.  After a [Gather] that got past the
    creation, the plugin holds a client and every later [Gather] leaves the
    plugin, and so the client, unchanged. *)
Theorem client_created_lazily_and_reused (n : NginxPlus) :
  (∀ c, client n = Some c → Gather_client n = (n, None))
  ∧ (ResponseTimeout n < Second →
       ResponseTimeout (createHTTPClient n).1.1 = 5 * Second
       ∧ (∀ c, (createHTTPClient n).1.2 = Some c → Timeout c = 5 * Second))
  ∧ (Second ≤ ResponseTimeout n →
       ResponseTimeout (createHTTPClient n).1.1 = ResponseTimeout n
       ∧ (∀ c, (createHTTPClient n).1.2 = Some c → Timeout c = ResponseTimeout n))
  ∧ (client n = None →
       match TLSConfig (TLS n) with
       | inl tls =>
           (createHTTPClient n).1.2
             = Some {| Transport := tls; Timeout := ResponseTimeout (createHTTPClient n).1.1 |}
           ∧ (Gather_client n).2 = None
           ∧ client (Gather_client n).1 = (createHTTPClient n).1.2
       | inr e =>
           (Gather_client n).2 = Some e ∧ client (Gather_client n).1 = None
       end)
  ∧ (∀ n1 t1 out1,
       Gather n n1 t1 out1 →
       (∀ e, out1 ≠ Returned (Some e)) →
       is_Some (client n1)
       ∧ ∀ n2 t2 out2, Gather n1 n2 t2 out2 → n2 = n1 ∧ ∀ e, out2 ≠ Returned (Some e)).
Proof.
  split; [|split; [|split; [|split]]].
  - intros c Hc. unfold nginx_plus.Gather_client. by rewrite Hc.
  - intros Hlt. rewrite createHTTPClient_spec. simpl.
    destruct (Z.ltb_spec (ResponseTimeout n) Second); [|lia].
    destruct (TLSConfig (TLS n)); simpl; (split; [done|]); by intros ? [= <-].
  - intros Hge. rewrite createHTTPClient_spec. simpl.
    destruct (Z.ltb_spec (ResponseTimeout n) Second); [lia|].
    destruct (TLSConfig (TLS n)); simpl; (split; [done|]); by intros ? [= <-].
  - intros Hc. unfold nginx_plus.Gather_client. rewrite Hc, createHTTPClient_spec. simpl.
    by destruct (TLSConfig (TLS n)).
  - intros n1 t1 out1 HG Hout.
    assert (Gather_client n = (n1, None)) as Hn1.
    { destruct HG as [n1 e H|n1 c out H _ _]; [by destruct (Hout e)|done]. }
    assert (is_Some (client n1)) as [c1 Hc1].
    { unfold nginx_plus.Gather_client in Hn1.
      destruct (client n) as [c|] eqn:Hc; [by simplify_eq; rewrite Hc|].
      rewrite createHTTPClient_spec in Hn1. simpl in Hn1.
      destruct (TLSConfig (TLS n)); simplify_eq. simpl. eauto. }
    split; [eauto|].
    intros n2 t2 out2 HG2.
    assert (Gather_client n1 = (n1, None)) as Hn2.
    { unfold nginx_plus.Gather_client. by rewrite Hc1. }
    destruct HG2 as [n2 e H|n2 c out H _ Hf]; rewrite Hn2 in H; simplify_eq.
    split; [done|]. intros e. by destruct Hf.
Qed.

(** The content type that is compared: what comes before the first
    semicolon of the header, the whole header when it has none. *)
Lemma Split_head sep s :
  let h := nth 0 (Split sep s) EmptyString in
  IndexByte h sep = None ∧ (s = h ∨ ∃ rest, s = h +:+ String sep rest).
Proof.
  induction s as [|c s [IH1 IH2]]; simpl; [by split; [|left]|].
  destruct (Ascii.eqb_spec c sep) as [->|Hne]; simpl.
  - split; [done|]. right. by exists s.
  - destruct (Split sep s) as [|h t]; simpl in *.
    + rewrite (proj2 (Ascii.eqb_neq _ _) Hne). split; [done|].
      destruct IH2 as [->|[rest ->]]; [by left|right; by exists rest].
    + rewrite (proj2 (Ascii.eqb_neq _ _) Hne), IH1. split; [done|].
      destruct IH2 as [->|[rest ->]]; [by left|right; by exists rest].
Qed.

(** C8: when the response is not 200 OK, or the content type before the
    first semicolon is not application/json, [gatherURL] returns an error
    and has made no call to the accumulator; when the body does not decode,
    [gatherStatusURL] returns an error and has made no call.  A metric that
    [gatherURL] emits comes from [gather] on a document that was decoded
    from a 200 response of content type application/json. *)
Theorem gatherURL_errors_emit_nothing (n : NginxPlus) addr :
  (∀ c resp,
     client n = Some c →
     client_Get c (URL_String addr) = inl resp →
     StatusCode resp ≠ StatusOK
     ∨ nth 0 (Split ";" (ContentType resp)) EmptyString ≠ "application/json" →
     ∃ e, gatherURL n addr = ([], Some (Some e)))
  ∧ (∀ r tags,
       json_Decode r = None →
       gatherStatusURL r tags
         = ([], Some (Some (ErrMsg "error while decoding JSON response"))))
  ∧ (∀ m,
       CallAddFields m ∈ (gatherURL n addr).1 →
       ∃ c resp st,
         client n = Some c
         ∧ client_Get c (URL_String addr) = inl resp
         ∧ StatusCode resp = StatusOK
         ∧ nth 0 (Split ";" (ContentType resp)) EmptyString = "application/json"
         ∧ json_Decode (Body resp) = Some st
         ∧ CallAddFields m ∈ (gather st (getTags addr)).1).
Proof.
  split; [|split].
  - intros c resp Hc Hget Hbad. unfold nginx_plus.gatherURL.
    rewrite Hc. unfold deref. rewrite bind_ret, Hget.
    destruct (Z.eqb_spec (StatusCode resp) StatusOK) as [Hok|Hno]; simpl; [|eauto].
    destruct (String.eqb_spec (nth 0 (Split ";" (ContentType resp)) EmptyString)
                "application/json") as [Hjs|Hnj]; [|eauto].
    by destruct Hbad.
  - intros r tags Hd. unfold nginx_plus.gatherStatusURL. by rewrite Hd.
  - intros m. unfold nginx_plus.gatherURL.
    destruct (client n) as [c|]; unfold deref; [|by intros ?%elem_of_nil].
    rewrite bind_ret.
    destruct (client_Get c (URL_String addr)) as [resp|e] eqn:Hget;
      [|by intros ?%elem_of_nil].
    destruct (Z.eqb_spec (StatusCode resp) StatusOK) as [Hok|Hno]; simpl;
      [|by intros ?%elem_of_nil].
    destruct (String.eqb_spec (nth 0 (Split ";" (ContentType resp)) EmptyString)
                "application/json") as [Hjs|Hnj]; [|by intros ?%elem_of_nil].
    unfold nginx_plus.gatherStatusURL.
    destruct (json_Decode (Body resp)) as [st|] eqn:Hd; [|by intros ?%elem_of_nil].
    intros [Hin|(_ & _ & Hin)]%elem_of_bind; [|by apply elem_of_nil in Hin].
    exists c, resp, st. by repeat split.
Qed.

End client_properties.

Lemma client_created_lazily_and_reused_witness :
  nginx_plus.ResponseTimeout
    (nginx_plus.createHTTPClient nginx_plus_spec.sample_TLSConfig
       nginx_plus_spec.sample_plugin).1.1 = 5 * nginx_plus.Second
  ∧ (∀ c, (nginx_plus.createHTTPClient nginx_plus_spec.sample_TLSConfig
             nginx_plus_spec.sample_plugin).1.2 = Some c →
          nginx_plus.Timeout c = 5 * nginx_plus.Second).
Proof.
  apply (proj1 (proj2 (client_created_lazily_and_reused
                         nginx_plus_spec.sample_TLSConfig nginx_plus_spec.sample_url_Parse
                         nginx_plus_spec.sample_URL_String nginx_plus_spec.sample_Get
                         nginx_plus_spec.sample_Decode nginx_plus_spec.sample_plugin))).
  reflexivity.
Defined.

Lemma gatherURL_errors_emit_nothing_witness :
  (∃ e, nginx_plus.gatherURL nginx_plus_spec.sample_URL_String
          nginx_plus_spec.sample_Get_404 nginx_plus_spec.sample_Decode
          nginx_plus_spec.sample_started nginx_plus_spec.sample_addr
        = ([], Some (Some e)))
  ∧ (∃ e, nginx_plus.gatherURL nginx_plus_spec.sample_URL_String
            nginx_plus_spec.sample_Get_html nginx_plus_spec.sample_Decode
            nginx_plus_spec.sample_started nginx_plus_spec.sample_addr
          = ([], Some (Some e))).
Proof.
  split.
  - eapply (proj1 (gatherURL_errors_emit_nothing
                     nginx_plus_spec.sample_URL_String nginx_plus_spec.sample_Get_404
                     nginx_plus_spec.sample_Decode nginx_plus_spec.sample_started
                     nginx_plus_spec.sample_addr)); [reflexivity|reflexivity|].
    left. discriminate.
  - eapply (proj1 (gatherURL_errors_emit_nothing
                     nginx_plus_spec.sample_URL_String nginx_plus_spec.sample_Get_html
                     nginx_plus_spec.sample_Decode nginx_plus_spec.sample_started
                     nginx_plus_spec.sample_addr)); [reflexivity|reflexivity|].
    right. vm_compute. discriminate.
Defined.

(** The two refusals, as they are returned. *)
Example gatherURL_refusals :
  nginx_plus.gatherURL nginx_plus_spec.sample_URL_String
    nginx_plus_spec.sample_Get_404 nginx_plus_spec.sample_Decode
    nginx_plus_spec.sample_started nginx_plus_spec.sample_addr
  = ([], Some (Some (ErrHTTPStatus nginx_plus_spec.sample_url "404 Not Found")))
  ∧ nginx_plus.gatherURL nginx_plus_spec.sample_URL_String
      nginx_plus_spec.sample_Get_html nginx_plus_spec.sample_Decode
      nginx_plus_spec.sample_started nginx_plus_spec.sample_addr
    = ([], Some (Some (ErrContentType nginx_plus_spec.sample_url "text/html"))).
Proof. vm_compute. done. Qed.

(** ** The nginx_plus plugin: a collection round *)

Section round_on_empty_document.

Import nginx_plus nginx_plus_spec.

Abbreviation sample_step :=
  (step sample_url_Parse sample_URL_String sample_Get sample_Decode).
Abbreviation sample_Gather :=
  (Gather sample_TLSConfig sample_url_Parse sample_URL_String sample_Get sample_Decode).

Lemma sample_Gather_client :
  Gather_client sample_TLSConfig sample_plugin = (sample_started, None).
Proof. reflexivity. Qed.

Lemma sample_goroutine :
  goroutine sample_URL_String sample_Get sample_Decode sample_started sample_addr
    = ([], None).
Proof. vm_compute. reflexivity. Qed.

(** The round has two states: the loop has not started, or the one
    goroutine is about to panic. *)
Lemma sample_reachable c :
  rtc (sample_step sample_started) (Cfg [sample_url] [] []) c →
  c = Cfg [sample_url] [] [] ∨ c = Cfg [] [([], None)] [].
Proof.
  intros H. apply rtc_nsteps in H as [k H]. revert c H.
  induction k as [|k IH]; intros c H.
  - inversion H; subst. by left.
  - apply nsteps_inv_r in H as (c' & H' & Hs).
    destruct (IH _ H') as [-> | ->];
      inversion Hs as [u us rs t err Hp|u us rs t addr Hp|us rs1 c0 cs r rs2 t]; subst.
    + done.
    + right. injection Hp as <-. simpl. by rewrite sample_goroutine.
    + by destruct rs1.
    + destruct rs1 as [|? [|? ?]]; simplify_eq.
Qed.

(** C6: the one address of the plugin serves the document [{}].  The
    client is created, the goroutine of the address is started and panics in
    [gather]: every run of [Gather] ends with the process stopped, none
    returns nil, and the accumulator has received neither a metric nor an
    error. *)
Theorem Gather_crashes_on_empty_document :
  (∃ n' t, sample_Gather sample_plugin n' t Crashed)
  ∧ (∀ n' t out, sample_Gather sample_plugin n' t out → out = Crashed ∧ t = []).
Proof.
  split.
  - exists sample_started, [].
    apply (Gather_urls _ _ _ _ _ _ _ (Cfg [] [([], None)] []) Crashed sample_Gather_client).
    + apply rtc_once. rewrite <- sample_goroutine.
      exact (step_go sample_url_Parse sample_URL_String sample_Get sample_Decode
               sample_started sample_url [] [] [] sample_addr eq_refl).
    + apply final_crash. by left.
  - intros n' t out HG.
    destruct HG as [n' e H|n' c out H Hsteps Hfin];
      rewrite sample_Gather_client in H; simplify_eq.
    apply sample_reachable in Hsteps as [-> | ->];
      inversion Hfin as [rs t Hall|us rs t Hin]; subst.
    + by apply elem_of_nil in Hin.
    + by apply Forall_cons_1 in Hall as [? _].
    + done.
Qed.

End round_on_empty_document.

Section round_properties.

Import nginx_plus nginx_plus_spec.

Context {ClientConfig TLSClientConfig : Type}.
Variable url_Parse : string → URL + error.
Variable URL_String : URL → string.
Variable client_Get : @Client TLSClientConfig → string → Response + error.
Variable json_Decode : string → option status.
Variable n : @NginxPlus ClientConfig TLSClientConfig.

Abbreviation step' := (step url_Parse URL_String client_Get json_Decode n).
Abbreviation url_calls' := (url_calls url_Parse URL_String client_Get json_Decode n).
Abbreviation all_calls' := (all_calls url_Parse URL_String client_Get json_Decode n).
Abbreviation goroutine' := (goroutine URL_String client_Get json_Decode n).
Abbreviation sound' := (sound n).

(** A step makes one of the calls that were still to come, or starts a
    goroutine: the calls of the round stay the same. *)
Lemma step_all_calls c c' : step' c c' → all_calls' c' ≡ₚ all_calls' c.
Proof.
  unfold all_calls, url_calls.
  destruct 1 as [u us rs t err Hp|u us rs t addr Hp|us rs1 c0 cs r rs2 t]; simpl.
  - rewrite Hp. simpl. rewrite <- !(assoc_L (++)). f_equiv. simpl.
    by rewrite Permutation_middle.
  - rewrite Hp. f_equiv. rewrite fmap_app, concat_app. simpl.
    by rewrite app_nil_r, <- (assoc_L (++)).
  - rewrite !fmap_app, !concat_app. simpl.
    rewrite <- !(assoc_L (++)). f_equiv. simpl.
    by rewrite <- Permutation_middle, <- (assoc_L (++)).
Qed.

Lemma steps_all_calls c c' : rtc step' c c' → all_calls' c' ≡ₚ all_calls' c.
Proof.
  induction 1 as [|c1 c2 c3 Hs _ IH]; [done|].
  by rewrite IH, (step_all_calls _ _ Hs).
Qed.

Hypothesis Hreturns : no_panic url_Parse URL_String client_Get json_Decode n.

Lemma step_sound c c' : step' c c' → sound' c → sound' c'.
Proof.
  destruct 1 as [u us rs t err Hp|u us rs t addr Hp|us rs1 c0 cs r rs2 t];
    intros [Hsub Hall]; simpl in *.
  - split; [|done]. set_solver.
  - split; [set_solver|]. apply Forall_app. split; [done|].
    apply Forall_singleton. apply (Hreturns u addr); [set_solver|done].
  - split; [done|]. apply Forall_app in Hall as [H1 [H2 H3]%Forall_cons].
    apply Forall_app. split; [done|]. by apply Forall_cons.
Qed.

Lemma steps_sound c c' : rtc step' c c' → sound' c → sound' c'.
Proof. induction 1; eauto using step_sound. Qed.

(** The loop can always go on to its end. *)
Lemma loop_ends us rs t :
  ∃ rs' t', rtc step' (Cfg us rs t) (Cfg [] rs' t').
Proof.
  revert rs t. induction us as [|u us IH]; intros rs t; [by exists rs, t|].
  destruct (url_Parse u) as [addr|err] eqn:Hp.
  - destruct (IH (rs ++ [goroutine' addr]) t) as (rs' & t' & H).
    exists rs', t'. eapply rtc_l; [by apply step_go|done].
  - destruct (IH rs (t ++ [CallAddError (Some (ErrUnableToParseAddress u err))]))
      as (rs' & t' & H).
    exists rs', t'. eapply rtc_l; [by apply step_parse_error|done].
Qed.

(** The goroutines that do not panic can always run to their end. *)
Lemma goroutines_end fin rs t :
  Forall (λ r : Run unit, r.2 = Some ()) rs →
  ∃ t', rtc step' (Cfg [] (fin ++ rs) t)
                  (Cfg [] (fin ++ ((λ _, ([], Some ())) <$> rs)) t').
Proof.
  revert fin t. induction rs as [|[cs r] rs IH]; intros fin t Hall.
  { by exists t. }
  apply Forall_cons in Hall as [Hr Hall]. simpl in Hr. subst r.
  revert t. induction cs as [|c0 cs IHcs]; intros t.
  - destruct (IH (fin ++ [([], Some ())]) t Hall) as [t' H].
    exists t'. simpl. by rewrite !(cons_middle _ fin), !(assoc_L (++)).
  - destruct (IHcs (t ++ [c0])) as [t' H].
    exists t'. eapply rtc_l; [apply step_call|done].
Qed.

(** When no goroutine panics, every run of the loop and its goroutines
    can be completed, [Gather] then returns nil, and by then the accumulator
    has received exactly the calls of the round: the error of each address
    that does not parse and the calls of the goroutine of each other
    address, its error included. *)
Lemma round_returns_nil c :
  rtc step' (Cfg (Urls n) [] []) c →
  (∃ c', rtc step' c c' ∧ final c' (Returned None))
  ∧ (∀ out, final c out →
       out = Returned None ∧ received c ≡ₚ concat (url_calls' <$> Urls n)).
Proof.
  intros Hsteps.
  assert (sound' c) as [Hsub Hall].
  { apply (steps_sound _ _ Hsteps). by split; [|apply Forall_nil]. }
  split.
  - destruct c as [us rs t].
    destruct (loop_ends us rs t) as (rs' & t' & H1).
    assert (sound' (Cfg [] rs' t')) as [_ Hall'].
    { apply (steps_sound _ _ H1). by split. }
    destruct (goroutines_end [] rs' t' Hall') as [t'' H2].
    eexists. split; [by etrans|].
    apply final_return. simpl. apply Forall_fmap. by apply Forall_true.
  - intros out Hfin. pose proof (steps_all_calls _ _ Hsteps) as Hperm.
    unfold all_calls in Hperm. simpl in Hperm.
    destruct Hfin as [rs t Hfin|us rs t Hin]; simpl in *.
    + split; [done|]. rewrite <- Hperm, app_nil_r.
      assert (concat (fst <$> rs) = []) as ->; [|by rewrite app_nil_r].
      clear -Hfin. induction Hfin as [|r rs -> _ IH]; [done|]. simpl. exact IH.
    + rewrite Forall_forall in Hall. by apply Hall in Hin.
Qed.

End round_properties.

Section Gather_properties.

Import nginx_plus nginx_plus_spec.

Context {ClientConfig TLSClientConfig : Type}.
Variable TLSConfig : ClientConfig → TLSClientConfig + error.
Variable url_Parse : string → URL + error.
Variable URL_String : URL → string.
Variable client_Get : @Client TLSClientConfig → string → Response + error.
Variable json_Decode : string → option status.

Abbreviation Gather' := (Gather TLSConfig url_Parse URL_String client_Get json_Decode).
Abbreviation no_panic' := (no_panic url_Parse URL_String client_Get json_Decode).

(** X18: apart from the panic, [Gather] does what is expected of it: it
    returns the error of the client creation and nothing else; once the
    client is there and no goroutine panics, it can always return, it returns
    nil, and it has then reported every address that does not parse and run
    the goroutine of every other address to its end. *)
Lemma Gather_returns_nil_unless_panic (n n' : @NginxPlus ClientConfig TLSClientConfig) :
  (∀ t e, Gather' n n' t (Returned (Some e)) →
     t = [] ∧ Gather_client TLSConfig n = (n', Some e))
  ∧ (Gather_client TLSConfig n = (n', None) →
     no_panic' n' →
     (∃ t, Gather' n n' t (Returned None))
     ∧ (∀ t out, Gather' n n' t out →
          out = Returned None
          ∧ t ≡ₚ concat (url_calls url_Parse URL_String client_Get json_Decode n' <$> Urls n'))).
Proof.
  split.
  - intros t e HG. inversion HG as [n1 e1 H|n1 c out H Hsteps Hfin]; subst; [done|].
    inversion Hfin.
  - intros Hc Hnp. split.
    + destruct (round_returns_nil url_Parse URL_String client_Get json_Decode n' Hnp
                  (Cfg (Urls n') [] []) (rtc_refl _ _)) as [(c' & Hsteps & Hfin) _].
      exists (received c'). by eapply Gather_urls.
    + intros t out HG.
      destruct HG as [n1 e1 H|n1 c out H Hsteps Hfin]; [congruence|].
      by apply (round_returns_nil url_Parse URL_String client_Get json_Decode n1 Hnp c).
Qed.

End Gather_properties.

(** ** The iptables plugin: rule lines *)

Section rule_properties.

Import iptables iptables_spec.

Lemma decimal_nonneg s : all_in ClsDigit s = true → 0 ≤ decimal s.
Proof. intros H. unfold decimal. by apply decimal_from_ge. Qed.

Lemma rule_metric_counted table chain line m :
  rule_metric table chain line = Some m → counted table m.
Proof.
  intros Hm. apply rule_metric_shape in Hm
    as (ws0 & pkts & ws1 & bytes & ws2 & target & mid & ws3 & comment & ws4 & ws5 & rest
        & _ & _ & [_ Hp] & _ & [_ Hb] & _ & Ht & [Hc _] & Hpm & Hbm & ->).
  exists (decimal pkts), (decimal bytes), chain, target, comment.
  split; [done|]. split; [split; [by apply decimal_nonneg|done]|].
  split; [split; [by apply decimal_nonneg|done]|]. done.
Qed.

Lemma length_omap_le {X Y} (f : X → option Y) (l : list X) :
  (length (omap f l) ≤ length l)%nat.
Proof.
  induction l as [|x l IH]; [done|]. unfold omap in *. simpl.
  destruct (f x); simpl; lia.
Qed.

Lemma parseAndGather_counted ipt data m :
  m ∈ metrics_of (parseAndGather ipt data).1 → counted (Table ipt) m.
Proof.
  rewrite parseAndGather_cases. cbv zeta.
  destruct (length (Split LF data) <? 3)%nat; [by intros ?%elem_of_nil|].
  destruct (FindStringSubmatch chainNameRe _) as [mchain|]; [|by intros ?%elem_of_nil].
  destruct (MatchString fieldsHeaderRe _); [|by intros ?%elem_of_nil].
  cbn [fst]. rewrite metrics_of_AddFields.
  intros (line & _ & Hm)%list_elem_of_omap. by eapply rule_metric_counted.
Qed.

(** X1: all [parseAndGather] sends to the accumulator is metrics of
    counted rules: each is named iptables, has the two fields pkts and bytes,
    unsigned and within 64 bits, and the four tags table, chain, target and
    ruleid, where table is the configured table, target is a non-empty word
    and ruleid is not empty.  There is at most one for each line after the
    two header lines. *)
Theorem parseAndGather_emits_only_counters ipt data :
  (∀ c, c ∈ (parseAndGather ipt data).1 →
     ∃ m, c = CallAddFields m ∧ counted (Table ipt) m)
  ∧ (length (parseAndGather ipt data).1 ≤ length (Split LF data) - 2)%nat.
Proof.
  split.
  - intros c Hc. destruct (parseAndGather_returns ipt data) as (ms & e & Hrun).
    rewrite Hrun in Hc. cbn [fst] in Hc.
    apply list_elem_of_fmap in Hc as (m & -> & Hm). exists m. split; [done|].
    apply (parseAndGather_counted ipt data). rewrite Hrun. cbn [fst].
    by rewrite metrics_of_AddFields.
  - rewrite parseAndGather_cases. cbv zeta.
    destruct (length (Split LF data) <? 3)%nat; [simpl; lia|].
    destruct (FindStringSubmatch chainNameRe _) as [mchain|]; [|simpl; lia].
    destruct (MatchString fieldsHeaderRe _); [|simpl; lia].
    cbn [fst]. rewrite length_fmap. etrans; [apply length_omap_le|].
    by rewrite length_drop.
Qed.

Lemma prefix_append (p b : string) : String.prefix p (p +:+ b) = true.
Proof.
  induction p as [|c p IH]; [by destruct b|].
  rewrite append_cons. simpl. destruct (ascii_dec c c); [exact IH|done].
Qed.

Lemma occurs_append (p a b : string) : occurs p (a +:+ p +:+ b) = true.
Proof.
  induction a as [|c a IH].
  - change (EmptyString +:+ p +:+ b) with (p +:+ b).
    pose proof (prefix_append p b) as H.
    destruct (p +:+ b); cbn [occurs]; by rewrite H.
  - rewrite append_cons. cbn [occurs]. rewrite IH. apply orb_true_r.
Qed.

(** X2: a rule line in which no comment opens, or no comment closes,
    is not counted: the round of the loop for it sends nothing to the
    accumulator and goes on to the next line. *)
Theorem rule_without_comment_is_skipped ipt mchain line :
  occurs "/*" line = false ∨ occurs "*/" line = false →
  parseAndGather_line ipt mchain line = ([], Some ()).
Proof.
  intros Hno. rewrite parseAndGather_line_spec.
  destruct (rule_metric _ _ line) as [m|] eqn:E; [|done].
  apply rule_metric_shape in E
    as (ws0 & pkts & ws1 & bytes & ws2 & target & mid & ws3 & comment & ws4 & ws5 & rest
        & -> & _).
  destruct Hno as [Hno|Hno].
  - replace (ws0 +:+ pkts +:+ ws1 +:+ bytes +:+ ws2 +:+ target +:+ mid +:+ "/*"
             +:+ ws3 +:+ comment +:+ ws4 +:+ "*/" +:+ ws5 +:+ rest)
      with ((ws0 +:+ pkts +:+ ws1 +:+ bytes +:+ ws2 +:+ target +:+ mid) +:+ "/*"
            +:+ ws3 +:+ comment +:+ ws4 +:+ "*/" +:+ ws5 +:+ rest) in Hno
      by (by rewrite !append_assoc).
    by rewrite occurs_append in Hno.
  - replace (ws0 +:+ pkts +:+ ws1 +:+ bytes +:+ ws2 +:+ target +:+ mid +:+ "/*"
             +:+ ws3 +:+ comment +:+ ws4 +:+ "*/" +:+ ws5 +:+ rest)
      with ((ws0 +:+ pkts +:+ ws1 +:+ bytes +:+ ws2 +:+ target +:+ mid +:+ "/*"
             +:+ ws3 +:+ comment +:+ ws4) +:+ "*/" +:+ ws5 +:+ rest) in Hno
      by (by rewrite !append_assoc).
    by rewrite occurs_append in Hno.
Qed.

Lemma rule_without_comment_is_skipped_witness :
  parseAndGather_line sample_ipt ["Chain INPUT"; "INPUT"] bare_rule = ([], Some ()).
Proof.
  apply (rule_without_comment_is_skipped sample_ipt). left. vm_compute. reflexivity.
Defined.

(** X3: a rule line that matches the counters pattern is skipped
    exactly when the number its packet counter or its byte counter
    denotes does not fit in 64 bits; no error is reported for it. *)
Theorem counter_out_of_range_is_skipped ipt mchain line whole pkts bytes target comment :
  FindStringSubmatch valuesRe line = Some [whole; pkts; bytes; target; comment] →
  parseAndGather_line ipt mchain line = ([], Some ())
  ↔ maxUint64 < decimal pkts ∨ maxUint64 < decimal bytes.
Proof.
  intros Hm. rewrite parseAndGather_line_spec. unfold rule_metric. rewrite Hm.
  apply valuesRe_submatches in Hm
    as (ws0 & pkts' & ws1 & bytes' & ws2 & target' & mid & ws3 & comment' & ws4 & ws5 & rest
        & _ & [= _ <- <- _ _] & _ & Hp & _ & Hb & _).
  destruct (ParseUint pkts) as [p|] eqn:Ep.
  - apply ParseUint_spec in Ep as (_ & <- & Hpm).
    destruct (ParseUint bytes) as [b|] eqn:Eb.
    + apply ParseUint_spec in Eb as (_ & <- & Hbm). split; [done|lia].
    + split; [intros _; right|done].
      destruct (Z.le_gt_cases (decimal bytes) maxUint64) as [Hle|Hgt]; [|lia].
      assert (ParseUint bytes = Some (decimal bytes)) by by apply ParseUint_spec.
      congruence.
  - split; [intros _; left|done].
    destruct (Z.le_gt_cases (decimal pkts) maxUint64) as [Hle|Hgt]; [|lia].
    assert (ParseUint pkts = Some (decimal pkts)) by by apply ParseUint_spec.
    congruence.
Qed.

Lemma counter_out_of_range_is_skipped_witness :
  parseAndGather_line sample_ipt ["Chain INPUT"; "INPUT"] big_rule = ([], Some ())
  ↔ maxUint64 < decimal "99999999999999999999" ∨ maxUint64 < decimal "1".
Proof.
  apply (counter_out_of_range_is_skipped sample_ipt ["Chain INPUT"; "INPUT"] big_rule
           "99999999999999999999 1 ACCEPT all /* big */"
           "99999999999999999999" "1" "ACCEPT" "big").
  vm_compute. reflexivity.
Defined.

(** A lazy repetition stops at the first place from which what
    follows matches. *)
Lemma star_match_lazy_first {R} cl s (k : string → option R) res :
  star_match false cl s k = Some res →
  ∃ w s', s = w +:+ s' ∧ all_in cl w = true ∧ k s' = Some res
    ∧ ∀ w1 w2, w = w1 +:+ w2 → w2 ≠ EmptyString → k (w2 +:+ s') = None.
Proof.
  induction s as [|c s IH]; simpl.
  { intros H. exists EmptyString, EmptyString. repeat split; [done|].
    intros [|? ?] [|? ?]; done. }
  assert (k (String c s) = Some res →
          ∃ w s', String c s = w +:+ s' ∧ all_in cl w = true ∧ k s' = Some res
            ∧ ∀ w1 w2, w = w1 +:+ w2 → w2 ≠ EmptyString → k (w2 +:+ s') = None) as Hstop.
  { intros H. exists EmptyString, (String c s). repeat split; [done|].
    intros [|? ?] [|? ?]; done. }
  destruct (cls_mem cl c) eqn:Hc; [|exact Hstop].
  destruct (k (String c s)) as [r|] eqn:Hk; [intros [= <-]; by apply Hstop|].
  intros (w & s' & -> & Hw & Hres & Hmin)%IH.
  exists (String c w), s'. rewrite append_cons. simpl. rewrite Hc, Hw.
  repeat split; [done|].
  intros [|c1 w1] w2 Hsplit Hne.
  - change (String c w = w2) in Hsplit. subst w2. by rewrite append_cons.
  - rewrite append_cons in Hsplit. injection Hsplit as _ Hsplit. by apply Hmin with w1.
Qed.

Ltac peel H w Hw :=
  match type of H with
  | re_match (Cat ?a ?X) ?s ?caps ?k = Some ?res =>
      change (re_match a s caps (λ s' caps', re_match X s' caps' k) = Some res) in H;
      apply re_match_sound in H as (w & ? & ? & -> & Hw & H)
  end.

(** X4: the rule id read from a rule line has no blank at its end,
    unless it is a single character: the blanks between the comment text
    and the end of the comment are left out. *)
Theorem ruleid_has_no_trailing_blank line m body c :
  FindStringSubmatch valuesRe line = Some m →
  nth 4 m EmptyString = body +:+ String c EmptyString →
  body ≠ EmptyString →
  is_space c = false.
Proof.
  intros Hm Hcomment Hbody.
  destruct (valuesRe_submatch _ _ Hm) as (whole & p & b & t & comment & ->).
  simpl in Hcomment. subst comment.
  unfold FindStringSubmatch, valuesRe in Hm.
  peel Hm ws0 H0. peel Hm pkts H1. peel Hm ws1 H2. peel Hm bytes H3. peel Hm ws2 H4.
  peel Hm target H5. peel Hm mid H6. peel Hm open H7. peel Hm ws3 H8.
  match type of Hm with
  | re_match (Cat (Grp 4 (Plus false ClsAny)) ?X) ?s ?caps ?k = Some ?res =>
      change (match s with
              | String c0 s1 =>
                  if cls_mem ClsAny c0
                  then star_match false ClsAny s1
                         (λ s', re_match X s' (<[4%nat := consumed s s']> caps) k)
                  else None
              | EmptyString => None
              end = Some res) in Hm
  end.
  match type of Hm with
  | match ?s with _ => _ end = _ => destruct s as [|c0 s1] eqn:Hs; [done|]
  end.
  destruct (cls_mem ClsAny c0) eqn:Hc0; [|done].
  apply star_match_lazy_first in Hm as (w & s' & -> & Hw & Hres & Hmin).
  change (String c0 (w +:+ s')) with (String c0 w +:+ s') in Hres, Hmin.
  pose proof Hres as Hres'.
  apply re_match_sound in Hres' as (wt & s'' & caps' & -> & Ht & [= Hwhole]).
  split_word Ht as ws4 H10. split_word Ht as close H11 and ws5.
  read_word H10. read_word H11. read_word Ht.
  rewrite consumed_append in Hwhole.
  match type of Hwhole with
  | <[0%nat := _]> (<[4%nat := _]> ?caps) = _ =>
      assert (length caps = 5%nat) as Hlen
        by (apply (f_equal length) in Hwhole; by rewrite !length_insert in Hwhole)
  end.
  apply (f_equal (λ l, l !! 4%nat)) in Hwhole.
  rewrite list_lookup_insert_ne, list_lookup_insert_eq in Hwhole by lia.
  injection Hwhole as Hwhole.
  destruct body as [|c1 body]; [done|].
  rewrite append_cons in Hwhole. injection Hwhole as _ ->.
  destruct (is_space c) eqn:Hsp; [exfalso|done].
  specialize (Hmin body (String c EmptyString) eq_refl ltac:(done)).
  apply eq_None_not_Some in Hmin. apply Hmin.
  apply (re_match_complete _ (String c ws4 +:+ "*/" +:+ ws5) [] []); [|by eauto].
  apply derives_cat. exists (String c ws4), ("*/" +:+ ws5), [].
  split; [done|]. split; [apply derives_star; split; [done|]; simpl; by rewrite Hsp|].
  apply derives_cat. exists "*/", ws5, [].
  split; [done|]. split; [by apply derives_lit|by apply derives_star].
Qed.

Lemma ruleid_has_no_trailing_blank_witness :
  FindStringSubmatch valuesRe padded_rule
    = Some [padded_rule; "57"; "4520"; "RETURN"; "foo bar"]
  ∧ is_space "r" = false.
Proof.
  split; [vm_compute; reflexivity|].
  apply (ruleid_has_no_trailing_blank padded_rule
           [padded_rule; "57"; "4520"; "RETURN"; "foo bar"] "foo ba" "r").
  - vm_compute. reflexivity.
  - reflexivity.
  - discriminate.
Defined.

(** X5: the lines the three patterns accept.  The chain-name pattern
    accepts a line that starts with Chain, one or more blanks and a name
    of one or more characters that are not blanks; the header pattern
    accepts a line that starts, after any blanks, with pkts, bytes and
    target separated by blanks; the counters pattern accepts a line made
    of two decimal numbers and a word, separated by blanks, then any text
    on the same line up to a comment that is not empty.  They accept no
    other line. *)
Theorem patterns_accept line :
  (MatchString chainNameRe line = true ↔
     ∃ ws name rest,
       line = "Chain" +:+ ws +:+ name +:+ rest
       ∧ some_of ClsSpace ws ∧ some_of ClsNotSpace name)
  ∧ (MatchString fieldsHeaderRe line = true ↔
     ∃ ws0 ws1 ws2 rest,
       line = ws0 +:+ "pkts" +:+ ws1 +:+ "bytes" +:+ ws2 +:+ "target" +:+ rest
       ∧ all_in ClsSpace ws0 = true ∧ some_of ClsSpace ws1 ∧ some_of ClsSpace ws2)
  ∧ (MatchString valuesRe line = true ↔
     ∃ ws0 pkts ws1 bytes ws2 target mid ws3 comment ws4 ws5 rest,
       line = ws0 +:+ pkts +:+ ws1 +:+ bytes +:+ ws2 +:+ target +:+ mid +:+ "/*"
              +:+ ws3 +:+ comment +:+ ws4 +:+ "*/" +:+ ws5 +:+ rest
       ∧ all_in ClsSpace ws0 = true ∧ some_of ClsDigit pkts
       ∧ some_of ClsSpace ws1 ∧ some_of ClsDigit bytes
       ∧ some_of ClsSpace ws2 ∧ some_of ClsWord target
       ∧ all_in ClsAny mid = true ∧ all_in ClsSpace ws3 = true
       ∧ some_of ClsAny comment ∧ all_in ClsSpace ws4 = true
       ∧ all_in ClsSpace ws5 = true).
Proof.
  split; [|split; [apply fieldsHeaderRe_matches|]].
  - split.
    + intros [m Hm]%MatchString_true.
      apply chainNameRe_submatches in Hm as (ws & name & rest & -> & _ & Hws & Hname).
      by exists ws, name, rest.
    + intros (ws & name & rest & -> & Hws & Hname). apply MatchString_iff.
      exists ("Chain" +:+ ws +:+ name), rest, [].
      eexists. split; [by rewrite !append_assoc|]. unfold chainNameRe.
      repeat (apply derives_cat; do 3 eexists; split; [reflexivity|]; split);
        repeat first
          [ apply derives_grp; eexists; split; [|reflexivity]
          | by apply derives_plus
          | by apply derives_lit ].
  - split.
    + intros [m Hm]%MatchString_true.
      apply valuesRe_submatches in Hm
        as (ws0 & pkts & ws1 & bytes & ws2 & target & mid & ws3 & comment & ws4 & ws5 & rest
            & -> & _ & H).
      by exists ws0, pkts, ws1, bytes, ws2, target, mid, ws3, comment, ws4, ws5, rest.
    + intros (ws0 & pkts & ws1 & bytes & ws2 & target & mid & ws3 & comment & ws4 & ws5 & rest
              & -> & H0 & H1 & H2 & H3 & H4 & H5 & H6 & H7 & H8 & H9 & H10).
      by apply valuesRe_matches.
Qed.

Lemma Split_nonempty sep s : Split sep s ≠ [].
Proof.
  destruct s as [|c s]; simpl; [done|].
  destruct (Ascii.eqb c sep); [done|]. by destruct (Split sep s).
Qed.

Lemma Split_line line : all_in ClsAny line = true → Split LF line = [line].
Proof.
  induction line as [|c line IH]; [done|]. simpl.
  intros [Hc Hl]%andb_true_iff. apply negb_true_iff in Hc. by rewrite Hc, IH.
Qed.

Lemma Split_snoc data line :
  all_in ClsAny line = true →
  Split LF (data +:+ String LF line) = Split LF data ++ [line].
Proof.
  intros Hl. induction data as [|c data IH].
  - change (EmptyString +:+ String LF line) with (String LF line).
    simpl. by rewrite Split_line.
  - rewrite append_cons. simpl. rewrite IH.
    destruct (Ascii.eqb c LF); [done|].
    pose proof (Split_nonempty LF data). by destruct (Split LF data).
Qed.

(** X6: rules are counted one by one.  When a listing of at least
    three lines is parsed without error, parsing it with one more line at
    its end sends the same metrics and then what the round of the loop for
    that line sends, and returns nil as well. *)
Theorem parseAndGather_appended_rule ipt data line :
  (3 ≤ length (Split LF data))%nat →
  (parseAndGather ipt data).2 = Some None →
  all_in ClsAny line = true →
  ∃ whole chain,
    FindStringSubmatch chainNameRe (nth 0 (Split LF data) EmptyString) = Some [whole; chain]
    ∧ parseAndGather ipt (data +:+ NL +:+ line)
      = ((parseAndGather ipt data).1
         ++ (parseAndGather_line ipt [whole; chain] line).1,
         Some None).
Proof.
  intros Hlen Hok Hline. revert Hok. rewrite !parseAndGather_cases. cbv zeta.
  unfold NL. change (String LF EmptyString +:+ line) with (String LF line).
  rewrite (Split_snoc data line Hline).
  destruct (Split LF data) as [|l0 [|l1 [|l2 rules]]] eqn:E; simpl in Hlen; try lia.
  cbn [length app nth drop Nat.ltb Nat.leb].
  destruct (FindStringSubmatch chainNameRe l0) as [mchain|] eqn:Hc; [|done].
  destruct (chainNameRe_submatch _ _ Hc) as (whole & chain & ->).
  destruct (MatchString fieldsHeaderRe l1); [|done]. intros _.
  exists whole, chain. split; [done|]. cbn [fst]. f_equal.
  rewrite parseAndGather_line_spec. cbn [fst nth].
  change (l2 :: rules ++ [line]) with ((l2 :: rules) ++ [line]).
  rewrite omap_app, fmap_app. by f_equal.
Qed.

Lemma parseAndGather_appended_rule_witness :
  ∃ whole chain,
    FindStringSubmatch chainNameRe (nth 0 (Split LF sample_listing) EmptyString)
      = Some [whole; chain]
    ∧ parseAndGather sample_ipt (sample_listing +:+ NL +:+ late_rule)
      = ((parseAndGather sample_ipt sample_listing).1
         ++ (parseAndGather_line sample_ipt [whole; chain] late_rule).1,
         Some None).
Proof.
  apply (parseAndGather_appended_rule sample_ipt sample_listing).
  - vm_compute. lia.
  - vm_compute. reflexivity.
  - vm_compute. reflexivity.
Defined.

End rule_properties.

(** ** The iptables plugin: a round and its command *)

Section iptables_round_properties.

Import iptables iptables_spec.

Lemma elem_of_concat {X} (x : X) (ls : list (list X)) :
  x ∈ concat ls ↔ ∃ l, l ∈ ls ∧ x ∈ l.
Proof.
  induction ls as [|l ls IH]; simpl.
  - split; [by intros ?%elem_of_nil|]. by intros (l & ?%elem_of_nil & _).
  - rewrite elem_of_app, IH. split.
    + intros [H|(l' & H1 & H2)]; [exists l; split; [left|done]|exists l'; split; [by right|done]].
    + intros (l' & [->|H1]%elem_of_cons & H2); [by left|right; by exists l'].
Qed.

(** X7: what a round of the plugin does.  The lister is only invoked
    for the configured table and a configured chain; [AddError] is never
    called with nil, and at most once for each chain; every metric is that
    of a counted rule of the configured table. *)
Theorem iptables_Gather_sends ipt :
  (∀ c, c ∈ (Gather ipt).1 →
     match c with
     | CallLister table chain => table = Table ipt ∧ chain ∈ Chains ipt
     | CallAddError e => is_Some e
     | CallAddFields m => counted (Table ipt) m
     end)
  ∧ (length (errors_of (Gather ipt).1) ≤ length (Chains ipt))%nat.
Proof.
  rewrite iptables_Gather_calls. cbn [fst].
  destruct (bool_decide _ || _); [split; [by intros c ?%elem_of_nil|simpl; lia]|].
  split.
  - intros c (calls & (chain & -> & Hchain)%list_elem_of_fmap & Hc)%elem_of_concat.
    unfold chain_calls in Hc. apply elem_of_cons in Hc as [->|Hc]; [done|].
    unfold chain_metrics, chain_error in Hc.
    destruct (lister ipt (Table ipt) chain) as [data [e|]].
    { apply list_elem_of_singleton in Hc as ->. by eexists. }
    apply elem_of_app in Hc
      as [(m & -> & Hm)%list_elem_of_fmap|(e & -> & He)%list_elem_of_fmap].
    + by eapply parseAndGather_counted.
    + by eexists.
  - induction (Chains ipt) as [|chain chains IH]; [done|].
    rewrite fmap_cons, concat_cons, errors_of_app, length_app, errors_of_chain_calls.
    cbn [length]. destruct (chain_error ipt chain); simpl; lia.
Qed.

Variable LookPath : string → string * option error.
Variable Output : string → list string → string * option error.

(** X8: the plugin as it is registered, on a system where the binary
    is not found: no command is run, and a round with a table name calls
    the lister and reports the error of the lookup once for each chain,
    sends no metric and returns nil. *)
Theorem Gather_without_binary ipt e :
  (LookPath (binary_name ipt)).2 = Some e →
  Table ipt ≠ EmptyString →
  (∀ table chain, (chainList LookPath Output ipt table chain).1 = [])
  ∧ Gather (registered LookPath Output ipt)
    = (concat ((λ chain, [CallLister (Table ipt) chain; CallAddError (Some e)])
                 <$> Chains ipt),
       Some None).
Proof.
  intros Hlook Htable.
  assert (∀ table chain,
            chainList LookPath Output ipt table chain = ([], (EmptyString, Some e))) as Hlist.
  { intros table chain. unfold chainList. fold (binary_name ipt).
    destruct (LookPath (binary_name ipt)) as [path err]. simpl in Hlook. by subst err. }
  split; [intros table chain; by rewrite Hlist|].
  rewrite iptables_Gather_calls.
  change (Table (registered LookPath Output ipt)) with (Table ipt).
  change (Chains (registered LookPath Output ipt)) with (Chains ipt).
  rewrite bool_decide_eq_false_2 by done. rewrite orb_false_l. f_equal.
  destruct (Chains ipt) as [|chain chains] eqn:E; [done|]. rewrite <- E.
  replace (length (Chains ipt) =? 0)%nat with false by (by rewrite E).
  f_equal. apply list_fmap_ext. intros _ ch _.
  unfold chain_calls.
  change (Table (registered LookPath Output ipt)) with (Table ipt).
  change (lister (registered LookPath Output ipt) (Table ipt) ch)
    with (chainList LookPath Output ipt (Table ipt) ch).2.
  by rewrite Hlist.
Qed.

(** X9: when the binary is found, [chainList] runs one command and
    returns its output and its error.  The command is the binary, or sudo
    with the binary as its first argument when sudo is configured; then
    come the two arguments of the lock option when the lock is configured,
    and then the request to list the chain of the table with exact
    counters. *)
Theorem chainList_command ipt table chain path :
  LookPath (binary_name ipt) = (path, None) →
  ∃ name args,
    chainList LookPath Output ipt table chain = ([(name, args)], Output name args)
    ∧ name = (if UseSudo ipt then "sudo" else path)
    ∧ args = (if UseSudo ipt then [path] else [])
             ++ (if UseLock ipt then ["-w"; "5"] else [])
             ++ ["-nvL"; chain; "-t"; table; "-x"].
Proof.
  intros Hlook. unfold chainList. fold (binary_name ipt). rewrite Hlook.
  destruct (UseSudo ipt), (UseLock ipt); eauto.
Qed.

End iptables_round_properties.

Lemma Gather_without_binary_witness :
  (∀ table chain,
     (iptables.chainList iptables_spec.no_LookPath iptables_spec.sample_Output
        iptables_spec.sample_ipt table chain).1 = [])
  ∧ iptables.Gather
      (iptables.registered iptables_spec.no_LookPath iptables_spec.sample_Output
         iptables_spec.sample_ipt)
    = (concat ((λ chain,
                  [CallLister (iptables.Table iptables_spec.sample_ipt) chain;
                   CallAddError
                     (Some (ErrExternal "executable file not found in $PATH"))])
                 <$> iptables.Chains iptables_spec.sample_ipt),
       Some None).
Proof.
  apply (Gather_without_binary iptables_spec.no_LookPath iptables_spec.sample_Output
           iptables_spec.sample_ipt
           (ErrExternal "executable file not found in $PATH")).
  - reflexivity.
  - discriminate.
Defined.

Lemma chainList_command_witness :
  ∃ name args,
    iptables.chainList iptables_spec.sample_LookPath iptables_spec.sample_Output
      iptables_spec.sample_sudo_ipt "filter" "INPUT"
    = ([(name, args)], iptables_spec.sample_Output name args)
    ∧ name = "sudo"
    ∧ args = ["/usr/sbin/ip6tables"; "-w"; "5"; "-nvL"; "INPUT"; "-t"; "filter"; "-x"].
Proof.
  apply (chainList_command iptables_spec.sample_LookPath iptables_spec.sample_Output
           iptables_spec.sample_sudo_ipt "filter" "INPUT" "/usr/sbin/ip6tables").
  reflexivity.
Defined.

(** ** The nginx_plus plugin: the records of a document *)

Section record_properties.

Import nginx_plus nginx_plus_spec.

(** X10: when the processes section, the ssl section and the
    revalidated block of every cache are present, [gather] returns, and
    what it has sent is the records of the document, each once and in this
    order: processes, connections, ssl, requests, then every server zone,
    every upstream followed by its peers, every cache, every stream server
    zone and every stream upstream followed by its peers. *)
Theorem gather_emits_records s tags p l :
  Processes s = Some p →
  Ssl s = Some l →
  (∀ name c, Caches s !! name = Some c → is_Some (c_Revalidated c)) →
  gather s tags = (CallAddFields <$> records s tags p l, Some ()).
Proof. apply gather_flattens. Qed.

Lemma cache_v3_revalidated name c :
  Caches status_with_cache !! name = Some c → is_Some (c_Revalidated c).
Proof.
  change (Caches status_with_cache) with ({[ "http_cache" := cache_v3 ]} : gmap string cache).
  intros [_ <-]%lookup_singleton_Some. by eexists.
Qed.

Lemma gather_emits_records_witness :
  gather status_with_cache sample_tags
  = (CallAddFields <$>
       records status_with_cache sample_tags
         {| pr_Respawned := Some 0 |}
         {| ssl_Handshakes := 3; ssl_HandshakesFailed := 0; ssl_SessionReuses := 1 |},
     Some ()).
Proof.
  apply (gather_emits_records status_with_cache sample_tags
           {| pr_Respawned := Some 0 |}
           {| ssl_Handshakes := 3; ssl_HandshakesFailed := 0; ssl_SessionReuses := 1 |});
    [reflexivity|reflexivity|exact cache_v3_revalidated].
Defined.

Lemma named_app name l1 l2 : named name (l1 ++ l2) = named name l1 ++ named name l2.
Proof. apply filter_app. Qed.

Lemma length_named_cons name m l :
  length (named name (m :: l))
  = ((if decide (m_name m = name) then 1 else 0) + length (named name l))%nat.
Proof. unfold named. rewrite filter_cons. by case_decide. Qed.

Lemma length_named_fmap {X} name (f : X → Metric) (l : list X) this :
  (∀ x, m_name (f x) = this) →
  length (named name (f <$> l)) = if decide (this = name) then length l else 0%nat.
Proof.
  intros Hf. induction l as [|x l IH]; [by case_decide|].
  rewrite fmap_cons, length_named_cons, Hf, IH. case_decide; simpl; lia.
Qed.

Lemma length_named_groups {X Y} name (head : X → Metric) (items : X → list Y)
    (item : X → Y → Metric) (l : list X) this that :
  (∀ x, m_name (head x) = this) →
  (∀ x y, m_name (item x y) = that) →
  length (named name (concat ((λ x, head x :: (item x <$> items x)) <$> l)))
  = ((if decide (this = name) then length l else 0)
     + (if decide (that = name) then sum_list ((λ x, length (items x)) <$> l) else 0))%nat.
Proof.
  intros Hh Hi. induction l as [|x l IH]; [by repeat case_decide|].
  rewrite !fmap_cons, concat_cons, named_app, length_app, IH, length_named_cons, Hh.
  rewrite (length_named_fmap name (item x) (items x) that (Hi x)).
  repeat case_decide; simpl; lia.
Qed.

Lemma gather_counts_sum s tags p l name :
  Processes s = Some p →
  Ssl s = Some l →
  (∀ name c, Caches s !! name = Some c → is_Some (c_Revalidated c)) →
  length (named name (metrics_of (gather s tags).1)) =
    ((if decide ("nginx_plus_processes" = name) then 1 else 0)
     + ((if decide ("nginx_plus_connections" = name) then 1 else 0)
     + ((if decide ("nginx_plus_ssl" = name) then 1 else 0)
     + ((if decide ("nginx_plus_requests" = name) then 1 else 0)
     + ((if decide ("nginx_plus_zone" = name) then length (range (ServerZones s)) else 0)
     + (((if decide ("nginx_plus_upstream" = name) then length (range (Upstreams s)) else 0)
        + (if decide ("nginx_plus_upstream_peer" = name)
           then sum_list ((λ kv, length (u_Peers kv.2)) <$> range (Upstreams s)) else 0))
     + ((if decide ("nginx_plus_cache" = name) then length (range (Caches s)) else 0)
     + ((if decide ("nginx.stream.zone" = name)
         then length (range (st_ServerZones (Stream s))) else 0)
     + ((if decide ("nginx_plus_stream_upstream" = name)
         then length (range (st_Upstreams (Stream s))) else 0)
        + (if decide ("nginx_plus_stream_upstream_peer" = name)
           then sum_list ((λ kv, length (su_Peers kv.2)) <$> range (st_Upstreams (Stream s)))
           else 0))))))))))%nat.
Proof.
  intros Hp Hl Hrv.
  rewrite (gather_flattens s tags p l Hp Hl Hrv). cbn [fst].
  rewrite metrics_of_AddFields. unfold records.
  rewrite !named_app, !length_app.
  unfold zone_records, upstream_records, cache_records, stream_zone_records,
    stream_upstream_records.
  rewrite (length_named_fmap name _ _ "nginx_plus_zone") by done.
  rewrite (length_named_fmap name _ _ "nginx_plus_cache") by done.
  rewrite (length_named_fmap name _ _ "nginx.stream.zone") by done.
  rewrite (length_named_groups name _ _ _ _ "nginx_plus_upstream"
             "nginx_plus_upstream_peer") by done.
  rewrite (length_named_groups name _ _ _ _ "nginx_plus_stream_upstream"
             "nginx_plus_stream_upstream_peer") by done.
  rewrite !length_named_cons. cbn [m_name]. unfold named. rewrite filter_nil.
  cbn [length]. lia.
Qed.

Lemma length_range {V} (m : gmap string V) : length (range m) = size m.
Proof. unfold range. by rewrite length_map_to_list. Qed.

Ltac decide_names :=
  repeat match goal with
  | |- context [decide (?a = ?b)] =>
      first [ rewrite (decide_True (P := a = b)) by reflexivity
            | rewrite (decide_False (P := a = b)) by discriminate ]
  end.

(** X11: when no pointer [gather] loads through is nil, the records
    it has sent when it returns are one for each of the four fixed
    sections, one for each server zone, upstream, cache, stream server zone
    and stream upstream, and one for each peer of each upstream and of each
    stream upstream. *)
Theorem gather_one_record_per_part s tags p l :
  Processes s = Some p →
  Ssl s = Some l →
  (∀ name c, Caches s !! name = Some c → is_Some (c_Revalidated c)) →
  let count name := length (named name (metrics_of (gather s tags).1)) in
  (gather s tags).2 = Some ()
  ∧ count "nginx_plus_processes" = 1%nat
  ∧ count "nginx_plus_connections" = 1%nat
  ∧ count "nginx_plus_ssl" = 1%nat
  ∧ count "nginx_plus_requests" = 1%nat
  ∧ count "nginx_plus_zone" = size (ServerZones s)
  ∧ count "nginx_plus_upstream" = size (Upstreams s)
  ∧ count "nginx_plus_upstream_peer"
      = sum_list ((λ kv, length (u_Peers kv.2)) <$> range (Upstreams s))
  ∧ count "nginx_plus_cache" = size (Caches s)
  ∧ count "nginx.stream.zone" = size (st_ServerZones (Stream s))
  ∧ count "nginx_plus_stream_upstream" = size (st_Upstreams (Stream s))
  ∧ count "nginx_plus_stream_upstream_peer"
      = sum_list ((λ kv, length (su_Peers kv.2)) <$> range (st_Upstreams (Stream s))).
Proof.
  intros Hp Hl Hrv count. unfold count.
  split; [by rewrite (gather_flattens s tags p l Hp Hl Hrv)|].
  repeat split;
    rewrite (gather_counts_sum s tags p l _ Hp Hl Hrv); decide_names;
    rewrite ?length_range; lia.
Qed.

Lemma gather_one_record_per_part_witness :
  let count name :=
    length (named name (metrics_of (gather status_with_cache sample_tags).1)) in
  (gather status_with_cache sample_tags).2 = Some ()
  ∧ count "nginx_plus_processes" = 1%nat
  ∧ count "nginx_plus_connections" = 1%nat
  ∧ count "nginx_plus_ssl" = 1%nat
  ∧ count "nginx_plus_requests" = 1%nat
  ∧ count "nginx_plus_zone" = size (ServerZones status_with_cache)
  ∧ count "nginx_plus_upstream" = size (Upstreams status_with_cache)
  ∧ count "nginx_plus_upstream_peer"
      = sum_list ((λ kv, length (u_Peers kv.2)) <$> range (Upstreams status_with_cache))
  ∧ count "nginx_plus_cache" = size (Caches status_with_cache)
  ∧ count "nginx.stream.zone" = size (st_ServerZones (Stream status_with_cache))
  ∧ count "nginx_plus_stream_upstream" = size (st_Upstreams (Stream status_with_cache))
  ∧ count "nginx_plus_stream_upstream_peer"
      = sum_list ((λ kv, length (su_Peers kv.2))
                    <$> range (st_Upstreams (Stream status_with_cache))).
Proof.
  apply (gather_one_record_per_part status_with_cache sample_tags
           {| pr_Respawned := Some 0 |}
           {| ssl_Handshakes := 3; ssl_HandshakesFailed := 0; ssl_SessionReuses := 1 |});
    [reflexivity|reflexivity|exact cache_v3_revalidated].
Defined.

Lemma bind_snd_None {A B} (m : Run A) (f : A → Run B) :
  (bind m f).2 = None ↔ m.2 = None ∨ ∃ a, m.2 = Some a ∧ (f a).2 = None.
Proof.
  unfold bind. destruct m as [t [a|]]; simpl.
  - split; [eauto|]. by intros [?|(? & [= <-] & ?)].
  - split; [by left|done].
Qed.

(** X12: [gather] returns exactly when the document has a processes
    section and an ssl section and every cache has its revalidated block;
    on any other document it panics. *)
Theorem gather_returns_iff s tags :
  (gather s tags).2 = Some () ↔
  is_Some (Processes s) ∧ is_Some (Ssl s)
  ∧ ∀ name c, Caches s !! name = Some c → is_Some (c_Revalidated c).
Proof.
  split.
  - intros Hret.
    destruct (Processes s) as [p|] eqn:Hp;
      [|by rewrite (gather_panics_without_processes s tags Hp) in Hret].
    destruct (Ssl s) as [l|] eqn:Hl;
      [|by rewrite (proj2 (gather_panics_without_ssl s tags p Hp Hl)) in Hret].
    split; [done|]. split; [done|]. intros name c Hc.
    destruct (c_Revalidated c) eqn:Hrv; [done|]. exfalso.
    pose proof (gatherCacheMetrics_panics s tags name c Hc Hrv) as Hpanic.
    assert ((gather s tags).2 = None) as Hnone; [|by rewrite Hnone in Hret].
    unfold gather.
    repeat (apply bind_snd_None;
            match goal with
            | |- (gatherCacheMetrics _ _).2 = None ∨ _ => by left
            | |- ?m.2 = None ∨ _ =>
                destruct m.2 as [[]|] eqn:?; [right; eexists; split; [done|]|by left]
            end).
  - intros ([p Hp] & [l Hl] & Hrv). by rewrite (gather_flattens s tags p l).
Qed.

Lemma lookup_peerTags k tags peer :
  k ∉ added_tags → peerTags tags peer !! k = tags !! k.
Proof.
  intros Hk. unfold peerTags, setIf. rewrite copyMap_id.
  assert (k ≠ "id" ∧ k ≠ "upstream_address") as [? ?].
  { split; intros ->; apply Hk; unfold added_tags; set_solver. }
  destruct (up_ID peer); simpl; by rewrite ?lookup_insert_ne by done.
Qed.

Lemma lookup_streamPeerTags k tags peer :
  k ∉ added_tags → streamPeerTags tags peer !! k = tags !! k.
Proof.
  intros Hk. unfold streamPeerTags. rewrite copyMap_id.
  assert (k ≠ "id" ∧ k ≠ "upstream_address") as [? ?].
  { split; intros ->; apply Hk; unfold added_tags; set_solver. }
  by rewrite !lookup_insert_ne by done.
Qed.

(** X13: all [gather] sends is metrics, and each carries the tags
    [gather] was given: apart from the keys zone, upstream, cache,
    upstream_address and id, which the sections set, the tags of a record
    are those of the address, no more and no fewer, with their values. *)
Theorem gather_keeps_tags s tags c :
  c ∈ (gather s tags).1 →
  ∃ m, c = CallAddFields m ∧ ∀ k, k ∉ added_tags → m_tags m !! k = tags !! k.
Proof.
  intros (m & -> & Hm)%gather_emitted. exists m. split; [done|]. intros k Hk.
  assert (k ≠ "zone" ∧ k ≠ "upstream" ∧ k ≠ "cache") as (? & ? & ?).
  { repeat split; intros ->; apply Hk; unfold added_tags; set_solver. }
  destruct Hm; cbn [m_tags];
    rewrite ?lookup_peerTags, ?lookup_streamPeerTags by done;
    by rewrite ?lookup_insert_ne by done.
Qed.

Lemma gather_keeps_tags_witness :
  ∃ m, CallAddFields sample_zone_metric = CallAddFields m
       ∧ ∀ k, k ∉ added_tags → m_tags m !! k = sample_tags !! k.
Proof.
  apply (gather_keeps_tags sample_status sample_tags (CallAddFields sample_zone_metric)).
  apply (list_elem_of_lookup_2 _ 4%nat). vm_compute. reflexivity.
Defined.

End record_properties.

(** ** The nginx_plus plugin: the port of an address *)

Section port_properties.

Import nginx_plus nginx_plus_spec.

Lemma IndexByte_append_None a b c :
  IndexByte a c = None → IndexByte b c = None → IndexByte (a +:+ b) c = None.
Proof.
  intros Ha Hb. induction a as [|d a IH]; [done|].
  rewrite append_cons. simpl in *. destruct (Ascii.eqb d c); [done|].
  destruct (IndexByte a c); [done|]. by rewrite IH.
Qed.

Lemma LastIndexByte_None s c : IndexByte s c = None → LastIndexByte s c = None.
Proof.
  induction s as [|d s IH]; [done|]. simpl.
  destruct (Ascii.eqb d c); [done|]. destruct (IndexByte s c); [done|].
  intros _. by rewrite IH.
Qed.

Lemma LastIndexByte_append a b c :
  IndexByte b c = None →
  LastIndexByte (a +:+ String c b) c = Some (String.length a).
Proof.
  intros Hb. induction a as [|d a IH].
  - change (EmptyString +:+ String c b) with (String c b). simpl.
    by rewrite (LastIndexByte_None b c Hb), Ascii.eqb_refl.
  - rewrite append_cons. simpl. by rewrite IH.
Qed.

Lemma slice_from_append a b : slice_from (a +:+ b) (String.length a) = b.
Proof.
  unfold slice_from. rewrite length_append.
  replace (String.length a + String.length b - String.length a)%nat
    with (String.length b) by lia.
  induction a as [|d a IH]; [apply substring_all|]. by rewrite append_cons.
Qed.

Lemma slice_from_0 s : slice_from s 0 = s.
Proof. unfold slice_from. rewrite Nat.sub_0_r. apply substring_all. Qed.

(** [net.SplitHostPort] on a bare host followed by a colon and a port. *)
Lemma SplitHostPort_bare host port :
  IndexByte host ":" = None → IndexByte host "[" = None → IndexByte host "]" = None →
  IndexByte port ":" = None → IndexByte port "[" = None → IndexByte port "]" = None →
  SplitHostPort (host +:+ ":" +:+ port) = (host, port, None).
Proof.
  intros Hh1 Hh2 Hh3 Hp1 Hp2 Hp3. unfold SplitHostPort.
  change (host +:+ ":" +:+ port) with (host +:+ String ":" port).
  rewrite (LastIndexByte_append host port ":" Hp1).
  rewrite bool_decide_eq_false_2.
  2:{ destruct host as [|c host]; [done|]. rewrite append_cons. simpl.
      simpl in Hh2. intros [= ->]. done. }
  unfold slice. rewrite Nat.sub_0_r, substring_prefix.
  rewrite bool_decide_eq_false_2 by (rewrite Hh1; by intros [? ?]).
  rewrite slice_from_0.
  rewrite bool_decide_eq_false_2.
  2:{ rewrite IndexByte_append_None; [by intros [? ?]|done|]. simpl. by rewrite Hp2. }
  rewrite bool_decide_eq_false_2.
  2:{ rewrite IndexByte_append_None; [by intros [? ?]|done|]. simpl. by rewrite Hp3. }
  f_equal.
  change (host +:+ String ":" port) with (host +:+ String ":" EmptyString +:+ port).
  rewrite <- append_assoc.
  replace (S (String.length host)) with (String.length (host +:+ String ":" EmptyString))
    by (rewrite length_append; simpl; lia).
  by rewrite slice_from_append.
Qed.

(** X14: for a host name without a colon the scheme decides the port
    tag, 80 for http, 443 for https and the empty string for any other
    scheme, and the server tag is the host name.  When such a name free
    of brackets is followed by a colon and a port, the server tag is the
    name and the port tag is that port, empty or not, whatever the
    scheme. *)
Theorem getTags_port_choice scheme host :
  IndexByte host ":" = None →
  getTags {| Scheme := scheme; Host := host |}
  = {[ "server" := host;
       "port" := if String.eqb scheme "http" then "80"
                 else if String.eqb scheme "https" then "443" else EmptyString ]}
  ∧ ∀ port,
      IndexByte host "[" = None → IndexByte host "]" = None →
      IndexByte port ":" = None → IndexByte port "[" = None → IndexByte port "]" = None →
      getTags {| Scheme := scheme; Host := host +:+ ":" +:+ port |}
      = {[ "server" := host; "port" := port ]}.
Proof.
  intros Hh. split.
  - unfold getTags, SplitHostPort. cbn [Host Scheme].
    rewrite (LastIndexByte_None host ":" Hh). unfold addrErr.
    destruct (String.eqb scheme "http"); [done|].
    by destruct (String.eqb scheme "https").
  - intros. unfold getTags. cbn [Host]. by rewrite SplitHostPort_bare.
Qed.

Lemma getTags_port_choice_witness :
  getTags {| Scheme := "https"; Host := "example.com" |}
  = {[ "server" := "example.com"; "port" := "443" ]}
  ∧ getTags {| Scheme := "https"; Host := "example.com:8080" |}
    = {[ "server" := "example.com"; "port" := "8080" ]}.
Proof.
  destruct (getTags_port_choice "https" "example.com" eq_refl) as [H1 H2].
  split; [exact H1|]. exact (H2 "8080" eq_refl eq_refl eq_refl eq_refl eq_refl).
Defined.

End port_properties.

(** ** The nginx_plus plugin: the hosts that are split *)

Section host_properties.

Import nginx_plus nginx_plus_spec.

Lemma IndexByte_append a b c :
  IndexByte (a +:+ b) c = None ↔ IndexByte a c = None ∧ IndexByte b c = None.
Proof.
  induction a as [|d a IH]; [by split; [|intros [_ ?]]|].
  rewrite append_cons. simpl. destruct (Ascii.eqb d c); [by split; [|intros [? _]]|].
  rewrite !fmap_None. exact IH.
Qed.

Lemma IndexByte_Some s c e :
  IndexByte s c = Some e →
  ∃ a b, s = a +:+ String c b ∧ IndexByte a c = None ∧ e = String.length a.
Proof.
  revert e. induction s as [|d s IH]; intros e; simpl; [done|].
  destruct (Ascii.eqb_spec d c) as [->|Hne].
  - intros [= <-]. by exists EmptyString, s.
  - destruct (IndexByte s c) as [j|]; [|done]. intros [= <-].
    destruct (IH j eq_refl) as (a & b & -> & Ha & ->).
    exists (String d a), b. rewrite append_cons. simpl.
    by rewrite (proj2 (Ascii.eqb_neq _ _) Hne), Ha.
Qed.

Lemma IndexByte_first a b c :
  IndexByte a c = None → IndexByte (a +:+ String c b) c = Some (String.length a).
Proof.
  induction a as [|d a IH].
  - intros _. change (EmptyString +:+ String c b) with (String c b). simpl.
    by rewrite Ascii.eqb_refl.
  - rewrite append_cons. simpl. destruct (Ascii.eqb d c); [done|].
    destruct (IndexByte a c); [done|]. intros _. by rewrite IH.
Qed.

Lemma LastIndexByte_Some s c i :
  LastIndexByte s c = Some i →
  ∃ a b, s = a +:+ String c b ∧ IndexByte b c = None ∧ i = String.length a.
Proof.
  revert i. induction s as [|d s IH]; intros i; simpl; [done|].
  destruct (LastIndexByte s c) as [j|] eqn:Hj.
  - intros [= <-]. destruct (IH j eq_refl) as (a & b & -> & Hb & ->).
    by exists (String d a), b.
  - destruct (Ascii.eqb_spec d c) as [->|Hne]; [|done]. intros [= <-].
    exists EmptyString, s. split; [done|]. split; [|done].
    clear IH. induction s as [|d s IH]; [done|]. simpl in *.
    destruct (LastIndexByte s c); [done|].
    destruct (Ascii.eqb d c); [done|]. by rewrite IH.
Qed.

Lemma append_inv_length (a a' b b' : string) :
  a +:+ b = a' +:+ b' → String.length a = String.length a' → a = a' ∧ b = b'.
Proof.
  revert a'. induction a as [|c a IH]; intros [|c' a']; try done.
  rewrite !append_cons. intros [= -> H] [= Hl]. destruct (IH _ H Hl) as [-> ->]. done.
Qed.

Lemma free_of_3 c1 c2 c3 s :
  free_of [c1; c2; c3] s ↔
  IndexByte s c1 = None ∧ IndexByte s c2 = None ∧ IndexByte s c3 = None.
Proof.
  unfold free_of. rewrite !Forall_cons, Forall_nil. tauto.
Qed.

Lemma free_of_2 c1 c2 s :
  free_of [c1; c2] s ↔ IndexByte s c1 = None ∧ IndexByte s c2 = None.
Proof.
  unfold free_of. rewrite !Forall_cons, Forall_nil. tauto.
Qed.

Lemma not_is_Some_None {A} (o : option A) : ¬ is_Some o → o = None.
Proof. by intros ?%eq_None_not_Some. Qed.

Lemma slice_prefix a b : slice (a +:+ b) 0 (String.length a) = a.
Proof. unfold slice. rewrite Nat.sub_0_r. apply substring_prefix. Qed.

Lemma slice_from_colon a c b :
  slice_from (a +:+ String c b) (S (String.length a)) = b.
Proof.
  change (a +:+ String c b) with (a +:+ String c EmptyString +:+ b).
  rewrite <- append_assoc.
  replace (S (String.length a)) with (String.length (a +:+ String c EmptyString))
    by (rewrite length_append; simpl; lia).
  apply slice_from_append.
Qed.

Lemma IndexByte_cons_ne d s c : d ≠ c → IndexByte (String d s) c = None → IndexByte s c = None.
Proof.
  intros Hne. simpl. rewrite (proj2 (Ascii.eqb_neq _ _) Hne).
  by destruct (IndexByte s c).
Qed.

Lemma SplitHostPort_inv hostport host port :
  SplitHostPort hostport = (host, port, None) → host_with_port hostport host port.
Proof.
  unfold SplitHostPort, addrErr.
  destruct (LastIndexByte hostport ":") as [i|] eqn:Hi; [|done].
  apply LastIndexByte_Some in Hi as (a & b & -> & Hb & ->).
  rewrite slice_from_colon.
  case_bool_decide as H0.
  - destruct (IndexByte (a +:+ String ":" b) "]") as [e|] eqn:He; [|done].
    apply IndexByte_Some in He as (a' & b' & Heq & Ha' & ->).
    destruct (Nat.eqb_spec (S (String.length a')) (String.length (a +:+ String ":" b)));
      [done|].
    destruct (Nat.eqb_spec (S (String.length a')) (String.length a)) as [Hlen|];
      [|by case_bool_decide].
    change (a' +:+ String "]" b') with (a' +:+ String "]" EmptyString +:+ b') in Heq.
    rewrite <- append_assoc in Heq.
    apply append_inv_length in Heq as [-> <-];
      [|rewrite length_append; simpl; lia].
    destruct a' as [|c h]; [done|]. rewrite !append_cons in H0. simpl in H0.
    injection H0 as ->. clear Hlen.
    rewrite !append_cons.
    replace (slice_from (String "[" ((h +:+ "]") +:+ String ":" b)) 1)
      with ((h +:+ "]") +:+ String ":" b)
      by (unfold slice_from; simpl; by rewrite Nat.sub_0_r, substring_all).
    replace (slice_from (String "[" ((h +:+ "]") +:+ String ":" b))
               (S (String.length (String "[" h))))
      with (String ":" b).
    2:{ change (String "[" ((h +:+ "]") +:+ String ":" b))
          with ((String "[" h +:+ "]") +:+ String ":" b).
        replace (S (String.length (String "[" h)))
          with (String.length (String "[" h +:+ "]"))
          by (rewrite length_append; simpl; lia).
        by rewrite slice_from_append. }
    replace (slice (String "[" ((h +:+ "]") +:+ String ":" b)) 1
               (String.length (String "[" h)))
      with h.
    2:{ unfold slice. simpl. rewrite Nat.sub_0_r, append_assoc.
        by rewrite substring_prefix. }
    repeat case_bool_decide; try done. intros [= <- <-].
    repeat match goal with H : ¬ is_Some _ |- _ => apply not_is_Some_None in H end.
    repeat match goal with
           | H : IndexByte (_ +:+ _) _ = None |- _ => apply IndexByte_append in H as [? ?]
           end.
    split.
    + apply free_of_3. repeat split; [done| |].
      * by apply (IndexByte_cons_ne ":"%char).
      * by apply (IndexByte_cons_ne ":"%char).
    + right. split; [by rewrite !append_cons, append_assoc|].
      apply free_of_2. split; [done|]. by apply (IndexByte_cons_ne "["%char).
  - rewrite slice_prefix, slice_from_0.
    repeat case_bool_decide; try done. intros [= <- <-].
    repeat match goal with H : ¬ is_Some _ |- _ => apply not_is_Some_None in H end.
    repeat match goal with
           | H : IndexByte (_ +:+ _) _ = None |- _ => apply IndexByte_append in H as [? ?]
           end.
    split.
    + apply free_of_3. repeat split; [done| |]; by apply (IndexByte_cons_ne ":"%char).
    + left. split; [done|]. by apply free_of_3.
Qed.

Lemma SplitHostPort_bracketed host port :
  IndexByte host "[" = None → IndexByte host "]" = None →
  IndexByte port ":" = None → IndexByte port "[" = None → IndexByte port "]" = None →
  SplitHostPort ("[" +:+ host +:+ "]:" +:+ port) = (host, port, None).
Proof.
  intros Hh2 Hh3 Hp1 Hp2 Hp3.
  change ("[" +:+ host +:+ "]:" +:+ port)
    with (String "[" host +:+ String "]" (String ":" port)).
  assert (String "[" host +:+ String "]" (String ":" port)
          = (String "[" host +:+ "]") +:+ String ":" port) as Hsplit
    by (by rewrite !append_cons, append_assoc).
  assert (String.length (String "[" host +:+ "]") = S (S (String.length host))) as Hl
    by (rewrite length_append; simpl; lia).
  pose proof (LastIndexByte_append (String "[" host +:+ "]") port ":" Hp1) as Hlast.
  rewrite <- Hsplit, Hl in Hlast.
  assert (IndexByte (String "[" host +:+ String "]" (String ":" port)) "]"
          = Some (S (String.length host))) as Hidx
    by (apply (IndexByte_first (String "[" host)); simpl; by rewrite Hh3).
  assert (String.length (String "[" host +:+ String "]" (String ":" port))
          = S (S (S (String.length host + String.length port)))) as Hlen
    by (rewrite length_append; simpl; lia).
  assert (slice_from (String "[" host +:+ String "]" (String ":" port)) 1
          = host +:+ String "]" (String ":" port)) as H1
    by (unfold slice_from; rewrite append_cons; simpl;
        by rewrite Nat.sub_0_r, substring_all).
  pose proof (slice_from_colon (String "[" host) "]" (String ":" port)) as H2.
  cbn [String.length] in H2.
  pose proof (slice_from_colon (String "[" host +:+ "]") ":" port) as H4.
  rewrite <- Hsplit, Hl in H4.
  assert (slice (String "[" host +:+ String "]" (String ":" port)) 1
            (S (String.length host)) = host) as H3
    by (unfold slice; rewrite append_cons; simpl; rewrite Nat.sub_0_r;
        apply substring_prefix).
  assert (String.get 0 (String "[" host +:+ String "]" (String ":" port))
          = Some "["%char) as H0 by done.
  remember (String "[" host +:+ String "]" (String ":" port)) as hp eqn:Hhp.
  unfold SplitHostPort. rewrite Hlast, (bool_decide_eq_true_2 _ H0), Hidx, Hlen.
  replace (S (S (String.length host))
           =? S (S (S (String.length host + String.length port))))%nat with false
    by (symmetry; apply Nat.eqb_neq; lia).
  rewrite Nat.eqb_refl, H1, H2, H3, H4.
  rewrite bool_decide_eq_false_2.
  2:{ rewrite (proj2 (IndexByte_append _ _ _)); [by intros [? ?]|].
      split; [done|]. simpl. by rewrite Hp2. }
  by rewrite bool_decide_eq_false_2 by (simpl; rewrite Hp3; by intros [? ?]).
Qed.

Lemma SplitHostPort_iff hostport host port :
  SplitHostPort hostport = (host, port, None) ↔ host_with_port hostport host port.
Proof.
  split; [apply SplitHostPort_inv|].
  intros [(Hp1 & Hp2 & Hp3)%free_of_3 [[-> (? & ? & ?)%free_of_3]|[-> [? ?]%free_of_2]]].
  - by apply SplitHostPort_bare.
  - by apply SplitHostPort_bracketed.
Qed.

(** C10, as amended: [getTags] returns the two tags server and port
    and no other.  When the host of the address is a host free of colons
    and brackets followed by a colon and a port free of colons and
    brackets, or such a port after a host in brackets, the tags are that
    host, without the brackets, and that port, empty or not.  For every
    other host server is the whole host, and port is 80 for the scheme
    http, 443 for the scheme https and empty for any other scheme. *)
Theorem getTags_server_port addr :
  dom (getTags addr) = {[ "server"; "port" ]}
  ∧ (∀ host port,
       host_with_port (Host addr) host port →
       getTags addr = {[ "server" := host; "port" := port ]})
  ∧ ((∀ host port, ¬ host_with_port (Host addr) host port) →
     getTags addr = {[ "server" := Host addr; "port" := default_port (Scheme addr) ]}).
Proof.
  unfold getTags, default_port.
  destruct (SplitHostPort (Host addr)) as [[h p] [e|]] eqn:Hsplit.
  - split; [|split].
    + by repeat case_match; simplify_eq.
    + intros host port Hhp%SplitHostPort_iff. congruence.
    + intros _. destruct (String.eqb (Scheme addr) "http"); [done|].
      by destruct (String.eqb (Scheme addr) "https").
  - split; [done|]. split.
    + intros host port Hhp%SplitHostPort_iff. rewrite Hsplit in Hhp.
      by injection Hhp as -> ->.
    + intros Hno. by apply SplitHostPort_iff, Hno in Hsplit.
Qed.

Lemma getTags_server_port_witness :
  getTags sample_addr = {[ "server" := "localhost"; "port" := "8080" ]}
  ∧ getTags {| Scheme := "https"; Host := "example.com" |}
    = {[ "server" := "example.com"; "port" := default_port "https" ]}.
Proof.
  split.
  - apply (proj1 (proj2 (getTags_server_port sample_addr)) "localhost" "8080").
    split; [by apply free_of_3|]. left. split; [reflexivity|by apply free_of_3].
  - apply (proj2 (proj2 (getTags_server_port {| Scheme := "https"; Host := "example.com" |}))).
    intros host port H%SplitHostPort_iff. vm_compute in H. discriminate.
Defined.

(** The tags as the specification words them are those of [getTags] on
    the usual hosts. *)
Example claimed_tags_examples :
  Forall (λ addr, getTags addr = claimed_tags addr)
    [ {| Scheme := "http"; Host := "localhost:8080" |};
      {| Scheme := "https"; Host := "[::1]:8443" |};
      {| Scheme := "http"; Host := "example.com" |};
      {| Scheme := "https"; Host := "[::1]" |};
      {| Scheme := "unix"; Host := "example.com" |} ].
Proof. repeat constructor; compute_done. Qed.

(** C10 as it is worded fails on two hosts that [url.Parse] accepts.
    The host example.com followed by a colon and nothing has no explicit
    port, and its port tag is empty where the scheme http would give 80;
    the host a:1:2 ends in the port 2, and it is not split: its server tag
    is the whole host and its port tag the default 80. *)
Lemma getTags_claimed_counterexample :
  (getTags {| Scheme := "http"; Host := "example.com:" |}
     = {[ "server" := "example.com"; "port" := EmptyString ]}
   ∧ claimed_tags {| Scheme := "http"; Host := "example.com:" |}
     = {[ "server" := "example.com:"; "port" := "80" ]})
  ∧ (getTags {| Scheme := "http"; Host := "a:1:2" |}
       = {[ "server" := "a:1:2"; "port" := "80" ]}
     ∧ claimed_tags {| Scheme := "http"; Host := "a:1:2" |}
       = {[ "server" := "a:1"; "port" := "2" ]})
  ∧ ¬ (∀ addr, getTags addr = claimed_tags addr).
Proof.
  split; [split; compute_done|]. split; [split; compute_done|].
  intros H. specialize (H {| Scheme := "http"; Host := "example.com:" |}).
  apply (f_equal (λ m : gmap string string, m !! "port")) in H.
  vm_compute in H. discriminate.
Qed.

End host_properties.

(** ** The nginx_plus plugin: one address, and the reports of a round *)

Section url_properties.

Import nginx_plus nginx_plus_spec.

Context {ClientConfig TLSClientConfig : Type}.
Variable TLSConfig : ClientConfig → TLSClientConfig + error.
Variable url_Parse : string → URL + error.
Variable URL_String : URL → string.
Variable client_Get : @Client TLSClientConfig → string → Response + error.
Variable json_Decode : string → option status.

Abbreviation NginxPlus := (@NginxPlus ClientConfig TLSClientConfig).
Abbreviation gatherStatusURL := (gatherStatusURL json_Decode).
Abbreviation gatherURL :=
  (gatherURL (ClientConfig := ClientConfig) URL_String client_Get json_Decode).
Abbreviation goroutine :=
  (goroutine (ClientConfig := ClientConfig) URL_String client_Get json_Decode).
Abbreviation Gather := (Gather TLSConfig url_Parse URL_String client_Get json_Decode).

(** [gatherURL], branch by branch. *)
Lemma gatherURL_cases (n : NginxPlus) addr :
  gatherURL n addr =
    match client n with
    | None => ([], None)
    | Some c =>
        match client_Get c (URL_String addr) with
        | inr err => ([], Some (Some (ErrMakingRequest (URL_String addr) err)))
        | inl resp =>
            if bool_decide (StatusCode resp = StatusOK) then
              let contentType := nth 0 (Split ";" (ContentType resp)) EmptyString in
              if bool_decide (contentType = "application/json") then
                match json_Decode (Body resp) with
                | None => ([], Some (Some (ErrMsg "error while decoding JSON response")))
                | Some st =>
                    ((gather st (getTags addr)).1,
                     (λ _, None) <$> (gather st (getTags addr)).2)
                end
              else ([], Some (Some (ErrContentType (URL_String addr) contentType)))
            else ([], Some (Some (ErrHTTPStatus (URL_String addr) (Status resp))))
        end
    end.
Proof.
  unfold nginx_plus.gatherURL.
  destruct (client n) as [c|]; unfold deref; [|done]. rewrite bind_ret.
  destruct (client_Get c (URL_String addr)) as [resp|e]; [|done].
  destruct (Z.eqb_spec (StatusCode resp) StatusOK) as [Hok|Hno]; simpl;
    [rewrite bool_decide_eq_true_2 by done|by rewrite bool_decide_eq_false_2 by done].
  destruct (String.eqb_spec (nth 0 (Split ";" (ContentType resp)) EmptyString)
              "application/json") as [Hjs|Hnj];
    [rewrite bool_decide_eq_true_2 by done|by rewrite bool_decide_eq_false_2 by done].
  unfold nginx_plus.gatherStatusURL.
  destruct (json_Decode (Body resp)) as [st|]; [|done].
  unfold bind, ret. destruct (gather st (getTags addr)) as [t [[]|]]; simpl; [|done].
  by rewrite app_nil_r.
Qed.

(** X15: [gatherURL] returns nil exactly when the client is there,
    the request is answered with status 200 and the content type
    application/json, the body decodes and [gather] returns on the decoded
    document.  It panics exactly when the client is nil, or when all this
    holds except that [gather] panics on the decoded document.  In every
    other case it returns an error. *)
Theorem gatherURL_outcome (n : NginxPlus) addr :
  ((gatherURL n addr).2 = Some None ↔
     ∃ c resp st,
       client n = Some c
       ∧ client_Get c (URL_String addr) = inl resp
       ∧ StatusCode resp = StatusOK
       ∧ nth 0 (Split ";" (ContentType resp)) EmptyString = "application/json"
       ∧ json_Decode (Body resp) = Some st
       ∧ (gather st (getTags addr)).2 = Some ())
  ∧ ((gatherURL n addr).2 = None ↔
     client n = None
     ∨ ∃ c resp st,
         client n = Some c
         ∧ client_Get c (URL_String addr) = inl resp
         ∧ StatusCode resp = StatusOK
         ∧ nth 0 (Split ";" (ContentType resp)) EmptyString = "application/json"
         ∧ json_Decode (Body resp) = Some st
         ∧ (gather st (getTags addr)).2 = None).
Proof.
  rewrite gatherURL_cases.
  destruct (client n) as [c|] eqn:Hc.
  2:{ split; [split; [done|by intros (? & ? & ? & ? & _)]|split; [by left|done]]. }
  destruct (client_Get c (URL_String addr)) as [resp|e] eqn:Hget.
  2:{ split; (split; [done|]).
      - intros (? & ? & ? & [= <-] & ? & _). congruence.
      - intros [?|(? & ? & ? & [= <-] & ? & _)]; congruence. }
  case_bool_decide as Hok.
  2:{ split; (split; [done|]).
      - intros (? & ? & ? & [= <-] & ? & ? & _). congruence.
      - intros [?|(? & ? & ? & [= <-] & ? & ? & _)]; congruence. }
  cbv zeta. case_bool_decide as Hjs.
  2:{ split; (split; [done|]).
      - intros (? & ? & ? & [= <-] & ? & _ & ? & _). congruence.
      - intros [?|(? & ? & ? & [= <-] & ? & _ & ? & _)]; congruence. }
  destruct (json_Decode (Body resp)) as [st|] eqn:Hd.
  2:{ split; (split; [done|]).
      - intros (? & ? & ? & [= <-] & ? & _ & _ & ? & _). congruence.
      - intros [?|(? & ? & ? & [= <-] & ? & _ & _ & ? & _)]; congruence. }
  cbn [snd]. destruct (gather st (getTags addr)).2 as [[]|] eqn:Hg; simpl.
  - split; split; try done.
    + intros _. by exists c, resp, st.
    + intros [?|(? & ? & ? & [= <-] & ? & _ & _ & ? & ?)]; congruence.
  - split; split; try done.
    + intros (? & ? & ? & [= <-] & ? & _ & _ & ? & ?). congruence.
    + intros _. right. by exists c, resp, st.
Qed.

Lemma Split_head_self sep h :
  IndexByte h sep = None → nth 0 (Split sep h) EmptyString = h.
Proof.
  induction h as [|c h IH]; [done|]. simpl.
  destruct (Ascii.eqb c sep); [done|].
  destruct (IndexByte h sep); [done|]. intros _. specialize (IH eq_refl).
  destruct (Split sep h); simpl in *; by rewrite IH.
Qed.

Lemma Split_head_append sep h rest :
  IndexByte h sep = None → nth 0 (Split sep (h +:+ String sep rest)) EmptyString = h.
Proof.
  induction h as [|c h IH].
  - intros _. change (EmptyString +:+ String sep rest) with (String sep rest).
    simpl. by rewrite Ascii.eqb_refl.
  - rewrite append_cons. simpl. destruct (Ascii.eqb c sep); [done|].
    destruct (IndexByte h sep); [done|]. intros _. specialize (IH eq_refl).
    destruct (Split sep (h +:+ String sep rest)); simpl in *; by rewrite IH.
Qed.

Lemma media_type_json ct :
  nth 0 (Split ";" ct) EmptyString = "application/json" ↔
  ct = "application/json" ∨ ∃ params, ct = "application/json;" +:+ params.
Proof.
  split.
  - intros H. destruct (Split_head ";" ct) as [_ [Hs|[rest Hs]]]; rewrite H in Hs.
    + by left.
    + right. by exists rest.
  - intros [->|[params ->]]; [by apply Split_head_self|].
    by apply (Split_head_append ";" "application/json" params).
Qed.

(** X16: of the content type of an answer with status 200 only the
    part before the first semicolon counts.  When the header is
    application/json, alone or followed at once by a semicolon and
    anything, [gatherURL] does what [gatherStatusURL] does on the body;
    for any other header it sends nothing and returns the error that
    names the part before the semicolon. *)
Theorem gatherURL_content_type (n : NginxPlus) addr c resp :
  client n = Some c →
  client_Get c (URL_String addr) = inl resp →
  StatusCode resp = StatusOK →
  ((ContentType resp = "application/json"
    ∨ ∃ params, ContentType resp = "application/json;" +:+ params) →
   gatherURL n addr = gatherStatusURL (Body resp) (getTags addr))
  ∧ (¬ (ContentType resp = "application/json"
        ∨ ∃ params, ContentType resp = "application/json;" +:+ params) →
     gatherURL n addr
     = ([], Some (Some (ErrContentType (URL_String addr)
                          (nth 0 (Split ";" (ContentType resp)) EmptyString))))).
Proof.
  intros Hc Hget Hok. rewrite <- media_type_json.
  unfold nginx_plus.gatherURL. rewrite Hc. unfold deref. rewrite bind_ret, Hget.
  rewrite (proj2 (Z.eqb_eq _ _) Hok). cbn [negb].
  destruct (String.eqb_spec (nth 0 (Split ";" (ContentType resp)) EmptyString)
              "application/json") as [Hjs|Hnj]; by split.
Qed.

Lemma gatherURL_calls (n : NginxPlus) addr c :
  c ∈ (gatherURL n addr).1 → ∃ m, c = CallAddFields m.
Proof.
  rewrite gatherURL_cases.
  destruct (client n) as [cl|]; [|by intros ?%elem_of_nil].
  destruct (client_Get cl (URL_String addr)) as [resp|e]; [|by intros ?%elem_of_nil].
  case_bool_decide; [|by intros ?%elem_of_nil]. cbv zeta.
  case_bool_decide; [|by intros ?%elem_of_nil].
  destruct (json_Decode (Body resp)) as [st|]; [|by intros ?%elem_of_nil].
  cbn [fst]. intros (m & -> & _)%gather_emitted. by exists m.
Qed.

Lemma reports_AddFields t :
  (∀ c, c ∈ t → ∃ m, c = CallAddFields m) → reports t = [].
Proof.
  unfold reports. induction t as [|c t IH]; intros Ht; [done|].
  destruct (Ht c) as [m ->]; [left|]. cbn. apply IH. intros c' Hc'. apply Ht. by right.
Qed.

Lemma reports_app t1 t2 : reports (t1 ++ t2) = reports t1 ++ reports t2.
Proof. apply omap_app. Qed.

(** The goroutine of an address that returns has sent metrics, and then
    reported once what [gatherURL] returned. *)
Lemma goroutine_calls (n : NginxPlus) addr :
  (goroutine n addr).2 = Some () →
  ∃ ms e, (gatherURL n addr).2 = Some e
          ∧ (goroutine n addr).1 = (CallAddFields <$> ms) ++ [CallAddError e].
Proof.
  unfold nginx_plus.goroutine, bind.
  pose proof (gatherURL_calls n addr) as Hcalls.
  destruct (gatherURL n addr) as [t [e|]]; simpl in *; [|done].
  intros _. exists (metrics_of t), e. split; [done|]. f_equal.
  clear -Hcalls. induction t as [|c t IH]; [done|].
  destruct (Hcalls c) as [m ->]; [left|]. unfold metrics_of in *. cbn.
  f_equal. apply IH. intros c' Hc'. apply Hcalls. by right.
Qed.

Lemma reports_url_calls (n : NginxPlus) u :
  (∀ addr, url_Parse u = inl addr → (goroutine n addr).2 = Some ()) →
  reports (url_calls url_Parse URL_String client_Get json_Decode n u)
  = [url_report url_Parse URL_String client_Get json_Decode n u].
Proof.
  unfold url_calls, url_report. intros Hn.
  destruct (url_Parse u) as [addr|err]; [|done].
  destruct (goroutine_calls n addr (Hn addr eq_refl)) as (ms & e & He & ->).
  rewrite reports_app, reports_AddFields, He; [done|].
  intros c (m & -> & _)%list_elem_of_fmap. by exists m.
Qed.

(** X17: once the client is there, a round in which no goroutine
    panics returns nil, and [AddError] has then been called exactly once
    for each configured address, in some order: with the parse error of an
    address that does not parse, and otherwise with what [gatherURL]
    returned for the address, which is nil when the address was gathered. *)
Theorem Gather_reports_once_per_address (n n' : NginxPlus) t out :
  Gather_client TLSConfig n = (n', None) →
  no_panic url_Parse URL_String client_Get json_Decode n' →
  Gather n n' t out →
  out = Returned None
  ∧ reports t ≡ₚ url_report url_Parse URL_String client_Get json_Decode n' <$> Urls n'
  ∧ length (reports t) = length (Urls n').
Proof.
  intros Hc Hnp HG.
  assert (out = Returned None
          ∧ t ≡ₚ concat (url_calls url_Parse URL_String client_Get json_Decode n' <$> Urls n'))
    as [-> Hperm].
  { destruct HG as [n1 e1 H|n1 c out H Hsteps Hfin]; [congruence|].
    by apply (round_returns_nil url_Parse URL_String client_Get json_Decode n1 Hnp c). }
  split; [done|].
  assert (reports t ≡ₚ url_report url_Parse URL_String client_Get json_Decode n' <$> Urls n')
    as Hrep.
  { unfold reports at 1. rewrite Hperm. fold (reports (concat
      (url_calls url_Parse URL_String client_Get json_Decode n' <$> Urls n'))).
    unfold no_panic in Hnp. clear -Hnp.
    induction (Urls n') as [|u us IH]; [done|].
    rewrite !fmap_cons, concat_cons, reports_app.
    rewrite reports_url_calls by (intros addr; apply Hnp; left).
    cbn [app]. f_equal. rewrite IH; [done|]. intros u' addr Hu'. apply Hnp. by right. }
  split; [done|]. by rewrite Hrep, length_fmap.
Qed.

End url_properties.

Lemma gatherURL_content_type_witness :
  nginx_plus.gatherURL nginx_plus_spec.sample_URL_String
    nginx_plus_spec.sample_Get nginx_plus_spec.sample_Decode
    nginx_plus_spec.sample_started nginx_plus_spec.sample_addr
  = nginx_plus.gatherStatusURL nginx_plus_spec.sample_Decode "{}"
      (nginx_plus.getTags nginx_plus_spec.sample_addr).
Proof.
  refine (proj1 (gatherURL_content_type nginx_plus_spec.sample_URL_String
                   nginx_plus_spec.sample_Get nginx_plus_spec.sample_Decode
                   nginx_plus_spec.sample_started nginx_plus_spec.sample_addr
                   {| nginx_plus.Transport := (); nginx_plus.Timeout := 5 * nginx_plus.Second |}
                   {| nginx_plus.StatusCode := 200; nginx_plus.Status := "200 OK";
                      nginx_plus.ContentType := "application/json; charset=utf-8";
                      nginx_plus.Body := "{}" |}
                   eq_refl eq_refl eq_refl) _).
  right. by exists " charset=utf-8".
Defined.

Lemma Gather_reports_once_per_address_witness :
  nginx_plus.Returned None = nginx_plus.Returned None
  ∧ nginx_plus_spec.reports
      [CallAddError (Some (ErrHTTPStatus nginx_plus_spec.sample_url "404 Not Found"))]
    ≡ₚ nginx_plus_spec.url_report nginx_plus_spec.sample_url_Parse
         nginx_plus_spec.sample_URL_String nginx_plus_spec.sample_Get_404
         nginx_plus_spec.sample_Decode nginx_plus_spec.sample_started
       <$> nginx_plus.Urls nginx_plus_spec.sample_started
  ∧ length (nginx_plus_spec.reports
              [CallAddError
                 (Some (ErrHTTPStatus nginx_plus_spec.sample_url "404 Not Found"))])
    = length (nginx_plus.Urls nginx_plus_spec.sample_started).
Proof.
  apply (Gather_reports_once_per_address nginx_plus_spec.sample_TLSConfig
           nginx_plus_spec.sample_url_Parse nginx_plus_spec.sample_URL_String
           nginx_plus_spec.sample_Get_404 nginx_plus_spec.sample_Decode
           nginx_plus_spec.sample_plugin nginx_plus_spec.sample_started
           [CallAddError (Some (ErrHTTPStatus nginx_plus_spec.sample_url "404 Not Found"))]
           (nginx_plus.Returned None)).
  - reflexivity.
  - intros u addr _ [= <-]. vm_compute. reflexivity.
  - apply (nginx_plus.Gather_urls _ _ _ _ _ _ _
             (nginx_plus.Cfg [] [([], Some ())]
                [CallAddError
                   (Some (ErrHTTPStatus nginx_plus_spec.sample_url "404 Not Found"))])
             (nginx_plus.Returned None) sample_Gather_client).
    + eapply rtc_l.
      { exact (nginx_plus.step_go nginx_plus_spec.sample_url_Parse
                 nginx_plus_spec.sample_URL_String nginx_plus_spec.sample_Get_404
                 nginx_plus_spec.sample_Decode nginx_plus_spec.sample_started
                 nginx_plus_spec.sample_url [] [] [] nginx_plus_spec.sample_addr eq_refl). }
      apply rtc_once.
      exact (nginx_plus.step_call nginx_plus_spec.sample_url_Parse
               nginx_plus_spec.sample_URL_String nginx_plus_spec.sample_Get_404
               nginx_plus_spec.sample_Decode nginx_plus_spec.sample_started
               [] []
               (CallAddError
                  (Some (ErrHTTPStatus nginx_plus_spec.sample_url "404 Not Found")))
               [] (Some ()) [] []).
    + apply nginx_plus.final_return. by apply Forall_singleton.
Defined.
